(** * ScoutLog: a shallow embedding of the route planner and its entry model

    The development follows the three source files of the repository:
    [Log] (the base class of an entry), [Route] and [Spot] (its two
    variants) and [App] (the drawing session, the entry store, the
    animation tables and the persistence glue).

    JavaScript numbers are IEEE 754 binary64 values, so they are modelled by
    Rocq's primitive floats, which are the same type.  The functions of the
    host that the program calls but does not define ([Math.sin],
    [Math.cos], [Math.atan2], the exponentiation operator, [Date]) are
    parameters of the embedding. *)

From Stdlib Require Import Floats ZArith Ascii String.
From stdpp Require Import gmap strings list.

Set Warnings "-inexact-float".
Open Scope float_scope.

(** ** Completion records

    A JavaScript call either returns or throws.  Functions of the program
    that can throw return a [completion].  [LeafletError] is the plain
    [Error] that the map library throws for bounds that hold no point. *)

Inductive Error := TypeError | RangeError | SyntaxError | LeafletError.

Inductive completion (A : Type) :=
| Normal (a : A)
| Throw (e : Error).
Arguments Normal {A} a.
Arguments Throw {A} e.

#[global] Instance completion_ret : MRet completion := fun _ a => Normal a.

#[global] Instance completion_bind : MBind completion := fun _ _ k c =>
  match c with
  | Normal a => k a
  | Throw e => Throw e
  end.

#[global] Instance completion_fmap : FMap completion := fun _ _ f c =>
  match c with
  | Normal a => Normal (f a)
  | Throw e => Throw e
  end.

(** [try { c } catch (e) { h }] *)
Definition try_catch {A} (c : completion A) (h : Error -> A) : A :=
  match c with
  | Normal a => a
  | Throw e => h e
  end.

(** ** The host's [Math] object

    ECMAScript leaves [Math.sin], [Math.cos], [Math.atan2] and [**]
    implementation-approximated, and only fixes their values at zeros,
    infinities and NaN.  [pow2 x] stands for [x ** 2], the only use the
    program makes of exponentiation. *)

Class Math := {
  Math_sin : float -> float;
  Math_cos : float -> float;
  Math_atan2 : float -> float -> float;
  pow2 : float -> float;
}.

(** [Math.PI], the binary64 value nearest to pi. *)
Definition Math_PI : float := 0x1.921fb54442d18p+1.

(** The values ECMAScript fixes and that the distance formula meets. *)
Record MathSpecialValues (M : Math) : Prop := {
  sin_pos_zero : Math_sin 0 = 0;
  pow2_pos_zero : pow2 0 = 0;
  atan2_zero_one : Math_atan2 0 1 = 0;
  atan2_nan_l : forall x, Math_atan2 nan x = nan;
  atan2_nan_r : forall y, Math_atan2 y nan = nan;
  sin_infinity : Math_sin infinity = nan;
  pow2_nan : pow2 nan = nan;
}.

(** ** Coordinates *)

(** A point is the array [[lat, lng]], in decimal degrees. *)
Definition coord : Type := float * float.

#[global] Instance float_inhabited : Inhabited float := populate 0.

(** ** Great-circle distance (App, private methods) *)

Section GeoMath.
Context {M : Math}.

(** The intermediate [a] of [#haversineDistance]. *)
Definition haversine_a (coord1 coord2 : coord) : float :=
  let dLat := ((coord2.1 - coord1.1) * Math_PI) / 180 in
  let dLon := ((coord2.2 - coord1.2) * Math_PI) / 180 in
  pow2 (Math_sin (dLat / 2)) +
  Math_cos ((coord1.1 * Math_PI) / 180) *
    Math_cos ((coord2.1 * Math_PI) / 180) *
    pow2 (Math_sin (dLon / 2)).

(** [#haversineDistance(coord1, coord2)], in kilometres. *)
Definition haversineDistance (coord1 coord2 : coord) : float :=
  let R := 6371 in
  let dLat := ((coord2.1 - coord1.1) * Math_PI) / 180 in
  let dLon := ((coord2.2 - coord1.2) * Math_PI) / 180 in
  let a :=
    pow2 (Math_sin (dLat / 2)) +
    Math_cos ((coord1.1 * Math_PI) / 180) *
      Math_cos ((coord2.1 * Math_PI) / 180) *
      pow2 (Math_sin (dLon / 2)) in
  R * 2 * Math_atan2 (sqrt a) (sqrt (1 - a)).

(** [#calculateTotalDistance(points)]: the loop
    [for (let i = 1; i < points.length; i++) total += ...]. *)
Definition calculateTotalDistance (points : list coord) : float :=
  foldl (fun total i =>
           total + haversineDistance (points !!! (i - 1)%nat) (points !!! i))
        0 (seq 1 (length points - 1)).

(** Walking a path from [prev]: the distance from [prev] to the head is
    added to [total], then the rest is walked from the head. *)
Fixpoint walk_pairs (total : float) (prev : coord) (rest : list coord) : float :=
  match rest with
  | [] => total
  | p :: rest' => walk_pairs (total + haversineDistance prev p) p rest'
  end.

(** The path length in the words of the specification: the sum of the
    point-to-point distances over consecutive pairs, 0 for 0 or 1 points. *)
Definition pathLengthKm (points : list coord) : float :=
  match points with
  | [] => 0
  | p :: rest => walk_pairs 0 p rest
  end.

(** The distance in the words of the specification, for comparison with
    [haversineDistance]: the intermediate [a] is clamped into [0, 1]
    before the final square roots and arc tangent. *)
Definition clamp01 (a : float) : float :=
  if a <? 0 then 0 else if 1 <? a then 1 else a.

(** The clamped distance. *)
Definition pointDistanceKm_clamped (coord1 coord2 : coord) : float :=
  let a := clamp01 (haversine_a coord1 coord2) in
  6371 * 2 * Math_atan2 (sqrt a) (sqrt (1 - a)).

End GeoMath.

(** ** Strings of the host *)

(** The decimal digits of a natural number, least significant first.
    [fuel] bounds the number of digits produced. *)
Fixpoint digitsLE (fuel : nat) (n : Z) : list Z :=
  match fuel with
  | O => []
  | S fuel' =>
      (n mod 10)%Z :: (if (n <? 10)%Z then [] else digitsLE fuel' (n / 10)%Z)
  end.

(** The character of a digit. *)
Definition digitChar (d : Z) : ascii := ascii_of_N (48 + Z.to_N d).

(** The number a list of digits, least significant first, stands for. *)
Fixpoint digitsValue (digits : list Z) : Z :=
  match digits with
  | [] => 0
  | d :: rest => d + 10 * digitsValue rest
  end.

(** The digits of [n], most significant first; [2 ^ fuel] exceeds [n]. *)
Definition decimal (n : Z) : list ascii :=
  rev (digitChar <$> digitsLE (S (Z.to_nat (Z.log2 n))) n).

(** [n + ''] for an integral number [n] (below 10^21 in magnitude, where
    JavaScript prints every digit). *)
Definition Number_toString (n : Z) : string :=
  if (n <? 0)%Z
  then String "-" (string_of_list_ascii (decimal (- n)))
  else string_of_list_ascii (decimal n).

(** [s.slice(start)]: a negative [start] counts from the end. *)
Definition String_slice (start : Z) (s : string) : string :=
  let chars := list_ascii_of_string s in
  let len := Z.of_nat (length chars) in
  let from := if (start <? 0)%Z then Z.max (len + start) 0 else Z.min start len in
  string_of_list_ascii (drop (Z.to_nat from) chars).

(** ** The host's [Date]

    A [Date] object holds a time value, an integral number of milliseconds
    since the epoch, or is invalid.  The two host functions the program
    relies on are the printer behind [toISOString] and the parser behind
    [new Date(string)]. *)

Class DateHost := {
  Date_toISOString : Z -> string;
  Date_parse : string -> option Z;
}.

Inductive Date :=
| TimeValue (t : Z)
| InvalidDate.

Section HostDate.
Context {D : DateHost}.

(** [date.toISOString()] throws a RangeError on an invalid date. *)
Definition toISOString (d : Date) : completion string :=
  match d with
  | TimeValue t => Normal (Date_toISOString t)
  | InvalidDate => Throw RangeError
  end.

(** [new Date(s)] for a string [s]. *)
Definition Date_of_string (s : string) : Date :=
  match Date_parse s with
  | Some t => TimeValue t
  | None => InvalidDate
  end.

End HostDate.

(** ** Log, the base class (src/js/models/Log.js) *)

Record Log (C : Type) := mkLog {
  date : Date;
  id : string;
  coords : C;
}.
Arguments mkLog {C} date id coords.
Arguments date {C} l.
Arguments id {C} l.
Arguments coords {C} l.

(** The plain object returned by [Log.toJSON]. *)
Record LogJSON (C : Type) := mkLogJSON {
  json_id : string;
  json_date : string;
  json_coords : C;
}.
Arguments mkLogJSON {C} json_id json_date json_coords.
Arguments json_id {C} l.
Arguments json_date {C} l.
Arguments json_coords {C} l.

(** The identifier the constructor derives from a reading [now] of the
    clock: [(Date.now() + '').slice(-10)]. *)
Definition make_id (now : Z) : string :=
  String_slice (-10) (Number_toString now).

Section LogClass.
Context {D : DateHost} {C : Type}.

(** [constructor(coords)].  The constructor reads the clock twice:
    [tDate] is the time of [new Date()], [tNow] the result of
    [Date.now()]. *)
Definition Log_new (tDate tNow : Z) (coords : C) : Log C :=
  {| date := TimeValue tDate; id := make_id tNow; coords := coords |}.

(** [toJSON()] *)
Definition Log_toJSON (l : Log C) : completion (LogJSON C) :=
  iso ← toISOString (date l);
  mret {| json_id := id l; json_date := iso; json_coords := coords l |}.

(** [_restoreFromJSON(data)] *)
Definition Log_restoreFromJSON (data : LogJSON C) (l : Log C) : Log C :=
  {| id := json_id data;
     date := Date_of_string (json_date data);
     coords := json_coords data |}.

End LogClass.

(** ** Route (src/js/models/Route.js) *)

Record Route := mkRoute {
  route_log : Log (list coord);
  route_title : string;
  distance : float;
  duration : float;
  pace : float;
  route_notes : string;
}.

(** The plain object returned by [Route.toJSON].  A field is [None] when
    the property is absent ([undefined]); the constructor then fills in
    its default. *)
Record RouteJSON := mkRouteJSON {
  rj_log : LogJSON (list coord);
  rj_type : string;
  rj_title : option string;
  rj_distance : float;
  rj_duration : option float;
  rj_notes : option string;
}.

(** [#calcPace()], minutes per kilometre. *)
Definition calcPace (distance duration : float) : float :=
  if (distance =? 0) || (duration =? 0) then 0 else duration / distance.

Section RouteClass.
Context {D : DateHost}.

(** [constructor(coordsArray, distance, title = 'Untitled Route',
    duration = 0, notes = '')] *)
Definition Route_new (tDate tNow : Z) (coordsArray : list coord) (distance : float)
    (title : option string) (duration : option float) (notes : option string) : Route :=
  let title := default "Untitled Route"%string title in
  let duration := default 0 duration in
  let notes := default EmptyString notes in
  {| route_log := Log_new tDate tNow coordsArray;
     route_title := title;
     distance := distance;
     duration := duration;
     pace := calcPace distance duration;
     route_notes := notes |}.

(** [toJSON()] *)
Definition Route_toJSON (r : Route) : completion RouteJSON :=
  base ← Log_toJSON (route_log r);
  mret {| rj_log := base;
          rj_type := "route";
          rj_title := Some (route_title r);
          rj_distance := distance r;
          rj_duration := Some (duration r);
          rj_notes := Some (route_notes r) |}.

(** [_restoreFromJSON(data)], inherited from [Log]. *)
Definition Route_restoreFromJSON (data : RouteJSON) (r : Route) : Route :=
  {| route_log := Log_restoreFromJSON (rj_log data) (route_log r);
     route_title := route_title r;
     distance := distance r;
     duration := duration r;
     pace := pace r;
     route_notes := route_notes r |}.

(** [static fromJSON(data)] *)
Definition Route_fromJSON (tDate tNow : Z) (data : RouteJSON) : Route :=
  let route :=
    Route_new tDate tNow (json_coords (rj_log data)) (rj_distance data)
      (rj_title data) (rj_duration data) (rj_notes data) in
  Route_restoreFromJSON data route.

End RouteClass.

(** ** Spot (src/js/models/Spot.js) *)

Record Spot := mkSpot {
  spot_log : Log coord;
  spot_title : string;
  description : string;
}.

Record SpotJSON := mkSpotJSON {
  sj_log : LogJSON coord;
  sj_type : string;
  sj_title : option string;
  sj_description : option string;
}.

Section SpotClass.
Context {D : DateHost}.

(** [constructor(coords, title = 'Untitled Spot', description = '')] *)
Definition Spot_new (tDate tNow : Z) (coords : coord)
    (title : option string) (description : option string) : Spot :=
  {| spot_log := Log_new tDate tNow coords;
     spot_title := default "Untitled Spot"%string title;
     description := default EmptyString description |}.

(** [toJSON()] *)
Definition Spot_toJSON (s : Spot) : completion SpotJSON :=
  base ← Log_toJSON (spot_log s);
  mret {| sj_log := base;
          sj_type := "spot";
          sj_title := Some (spot_title s);
          sj_description := Some (description s) |}.

(** [_restoreFromJSON(data)], inherited from [Log]. *)
Definition Spot_restoreFromJSON (data : SpotJSON) (s : Spot) : Spot :=
  {| spot_log := Log_restoreFromJSON (sj_log data) (spot_log s);
     spot_title := spot_title s;
     description := description s |}.

(** [static fromJSON(data)] *)
Definition Spot_fromJSON (tDate tNow : Z) (data : SpotJSON) : Spot :=
  let spot :=
    Spot_new tDate tNow (json_coords (sj_log data)) (sj_title data)
      (sj_description data) in
  Spot_restoreFromJSON data spot.

End SpotClass.

(** An entry of the store is a route or a spot. *)
Inductive LogEntry :=
| RouteEntry (r : Route)
| SpotEntry (s : Spot).

Definition entry_id (l : LogEntry) : string :=
  match l with
  | RouteEntry r => id (route_log r)
  | SpotEntry s => id (spot_log s)
  end.

Inductive EntryJSON :=
| RouteRecord (data : RouteJSON)
| SpotRecord (data : SpotJSON).

Definition entry_toJSON {D : DateHost} (l : LogEntry) : completion EntryJSON :=
  match l with
  | RouteEntry r => RouteRecord <$> Route_toJSON r
  | SpotEntry s => SpotRecord <$> Spot_toJSON s
  end.

(** ** Persisted values

    What [JSON.parse] returns: the value stored under the key
    ['scoutlog-logs'] is expected to be an array of entry records. *)

#[local] Unset Elimination Schemes.
Inductive JSON :=
| JNull
| JBool (b : bool)
| JNum (x : float)
| JStr (s : string)
| JArr (items : list JSON)
| JObj (members : list (string * JSON)).
#[local] Set Elimination Schemes.

(** The member of an object with a given key; [JSON.parse] keeps the last
    of several members with one key. *)
Fixpoint member (key : string) (members : list (string * JSON)) : option JSON :=
  match members with
  | [] => None
  | (k, v) :: rest =>
      match member key rest with
      | Some v' => Some v'
      | None => if bool_decide (k = key) then Some v else None
      end
  end.

(** [obj.type]: reading a property of [null] throws a TypeError; numbers,
    strings, booleans and arrays have no property of that name, and the
    read gives [undefined], here [None]. *)
Definition read_type (obj : JSON) : completion (option JSON) :=
  match obj with
  | JNull => Throw TypeError
  | JObj members => Normal (member "type" members)
  | _ => Normal None
  end.

(** [v === s] for a string literal [s]. *)
Definition strict_eq_string (v : option JSON) (s : string) : bool :=
  match v with
  | Some (JStr s') => bool_decide (s' = s)
  | _ => false
  end.

Section Load.
(** The two deserializers are those of [Route] and [Spot], applied to an
    untyped record; [entry] is the type of what they build. *)
Context {entry : Type}.
Context (Route_fromJSON_value Spot_fromJSON_value : JSON -> completion entry).
Context (JSON_parse : string -> completion JSON).

(** The callback of [logsData.map(...)]; [None] is the [null] it returns
    for a record of unrecognised type. *)
Definition loadRecord (obj : JSON) : completion (option entry) :=
  type ← read_type obj;
  if strict_eq_string type "route" then Some <$> Route_fromJSON_value obj
  else if strict_eq_string type "spot" then Some <$> Spot_fromJSON_value obj
  else mret None.

(** [logsData.map(...).filter(Boolean)]; calling [map] on a value that is
    not an array throws a TypeError. *)
Definition loadRecords (logsData : JSON) : completion (list entry) :=
  match logsData with
  | JArr items =>
      mapped ← mapM loadRecord items;
      mret (omap (fun o => o) mapped)
  | _ => Throw TypeError
  end.

(** [#loadFromLocalStorage()]: [data] is the result of
    [localStorage.getItem('scoutlog-logs')], [logs] the collection before
    the call; the result is the collection after it. *)
Definition loadFromLocalStorage (data : option string) (logs : list entry) : list entry :=
  match data with
  | None => logs
  | Some text =>
      if bool_decide (text = EmptyString) then logs
      else try_catch (logsData ← JSON_parse text; loadRecords logsData)
                     (fun _ => [])
  end.

(** What the load keeps of a record that is not [null], when the two
    deserializers return [routeOf obj] and [spotOf obj]. *)
Definition kept_entry (routeOf spotOf : JSON -> entry) (obj : JSON) : option entry :=
  let type := match obj with JObj members => member "type" members | _ => None end in
  if strict_eq_string type "route" then Some (routeOf obj)
  else if strict_eq_string type "spot" then Some (spotOf obj)
  else None.

End Load.

(** ** The application (class App)

    The state keeps the private fields of the class that the drawing
    session, the store and the animation tables use.  Leaflet layers are
    kept as values: a polyline with its points and style, or a marker.
    The cached DOM elements are left out, except for the two dialogs and
    the display of the distance field, which the program reads back.

    The calls into Leaflet are taken to return, with two exceptions that
    the handlers below keep: a marker built without a position cannot be
    added to the map (a TypeError), and [fitBounds] refuses the bounds of
    no point (an Error).  The view of the map (its centre and zoom, the
    open popup) is not part of the state. *)

Inductive Mode := ModeNone | ModeRoute | ModeSpot.

#[global] Instance Mode_eq_dec : EqDecision Mode.
Proof. solve_decision. Defined.

Record PathStyle := mkStyle {
  color : string;
  weight : Z;
  opacity : float;
}.

Inductive Layer :=
| Polyline (latlngs : list coord) (style : PathStyle)
| Marker (latlng : coord).

Record App := mkApp {
  mode : Mode;
  isDrawing : bool;
  routePoints : list coord;
  currentPolyline : option (list coord);
  vertexMarkers : list coord;
  currentDistance : float;
  logs : list LogEntry;
  drawnLayers : gmap string Layer;
  activeAnimations : gmap string nat;
  animationLayers : gmap string Layer;
  selectedRouteId : option string;
  formOpen : bool;
  distanceFieldShown : bool;
  pendingDeleteId : option string;
  deleteDialogOpen : bool;
  savedLogs : option (list EntryJSON);
  pendingFrames : gset nat;
  nextFrameId : nat;
}.

Definition set_mode (v : Mode) (s : App) : App :=
  {| mode := v; isDrawing := isDrawing s; routePoints := routePoints s;
  currentPolyline := currentPolyline s; vertexMarkers := vertexMarkers s;
  currentDistance := currentDistance s; logs := logs s; drawnLayers :=
  drawnLayers s; activeAnimations := activeAnimations s; animationLayers :=
  animationLayers s; selectedRouteId := selectedRouteId s; formOpen :=
  formOpen s; distanceFieldShown := distanceFieldShown s; pendingDeleteId :=
  pendingDeleteId s; deleteDialogOpen := deleteDialogOpen s; savedLogs :=
  savedLogs s; pendingFrames := pendingFrames s; nextFrameId := nextFrameId
  s |}.

Definition set_isDrawing (v : bool) (s : App) : App :=
  {| mode := mode s; isDrawing := v; routePoints := routePoints s;
  currentPolyline := currentPolyline s; vertexMarkers := vertexMarkers s;
  currentDistance := currentDistance s; logs := logs s; drawnLayers :=
  drawnLayers s; activeAnimations := activeAnimations s; animationLayers :=
  animationLayers s; selectedRouteId := selectedRouteId s; formOpen :=
  formOpen s; distanceFieldShown := distanceFieldShown s; pendingDeleteId :=
  pendingDeleteId s; deleteDialogOpen := deleteDialogOpen s; savedLogs :=
  savedLogs s; pendingFrames := pendingFrames s; nextFrameId := nextFrameId
  s |}.

Definition set_routePoints (v : list coord) (s : App) : App :=
  {| mode := mode s; isDrawing := isDrawing s; routePoints := v;
  currentPolyline := currentPolyline s; vertexMarkers := vertexMarkers s;
  currentDistance := currentDistance s; logs := logs s; drawnLayers :=
  drawnLayers s; activeAnimations := activeAnimations s; animationLayers :=
  animationLayers s; selectedRouteId := selectedRouteId s; formOpen :=
  formOpen s; distanceFieldShown := distanceFieldShown s; pendingDeleteId :=
  pendingDeleteId s; deleteDialogOpen := deleteDialogOpen s; savedLogs :=
  savedLogs s; pendingFrames := pendingFrames s; nextFrameId := nextFrameId
  s |}.

Definition set_currentPolyline (v : option (list coord)) (s : App) : App :=
  {| mode := mode s; isDrawing := isDrawing s; routePoints := routePoints s;
  currentPolyline := v; vertexMarkers := vertexMarkers s; currentDistance :=
  currentDistance s; logs := logs s; drawnLayers := drawnLayers s;
  activeAnimations := activeAnimations s; animationLayers := animationLayers
  s; selectedRouteId := selectedRouteId s; formOpen := formOpen s;
  distanceFieldShown := distanceFieldShown s; pendingDeleteId :=
  pendingDeleteId s; deleteDialogOpen := deleteDialogOpen s; savedLogs :=
  savedLogs s; pendingFrames := pendingFrames s; nextFrameId := nextFrameId
  s |}.

Definition set_vertexMarkers (v : list coord) (s : App) : App :=
  {| mode := mode s; isDrawing := isDrawing s; routePoints := routePoints s;
  currentPolyline := currentPolyline s; vertexMarkers := v; currentDistance
  := currentDistance s; logs := logs s; drawnLayers := drawnLayers s;
  activeAnimations := activeAnimations s; animationLayers := animationLayers
  s; selectedRouteId := selectedRouteId s; formOpen := formOpen s;
  distanceFieldShown := distanceFieldShown s; pendingDeleteId :=
  pendingDeleteId s; deleteDialogOpen := deleteDialogOpen s; savedLogs :=
  savedLogs s; pendingFrames := pendingFrames s; nextFrameId := nextFrameId
  s |}.

Definition set_currentDistance (v : float) (s : App) : App :=
  {| mode := mode s; isDrawing := isDrawing s; routePoints := routePoints s;
  currentPolyline := currentPolyline s; vertexMarkers := vertexMarkers s;
  currentDistance := v; logs := logs s; drawnLayers := drawnLayers s;
  activeAnimations := activeAnimations s; animationLayers := animationLayers
  s; selectedRouteId := selectedRouteId s; formOpen := formOpen s;
  distanceFieldShown := distanceFieldShown s; pendingDeleteId :=
  pendingDeleteId s; deleteDialogOpen := deleteDialogOpen s; savedLogs :=
  savedLogs s; pendingFrames := pendingFrames s; nextFrameId := nextFrameId
  s |}.

Definition set_logs (v : list LogEntry) (s : App) : App :=
  {| mode := mode s; isDrawing := isDrawing s; routePoints := routePoints s;
  currentPolyline := currentPolyline s; vertexMarkers := vertexMarkers s;
  currentDistance := currentDistance s; logs := v; drawnLayers :=
  drawnLayers s; activeAnimations := activeAnimations s; animationLayers :=
  animationLayers s; selectedRouteId := selectedRouteId s; formOpen :=
  formOpen s; distanceFieldShown := distanceFieldShown s; pendingDeleteId :=
  pendingDeleteId s; deleteDialogOpen := deleteDialogOpen s; savedLogs :=
  savedLogs s; pendingFrames := pendingFrames s; nextFrameId := nextFrameId
  s |}.

Definition set_drawnLayers (v : gmap string Layer) (s : App) : App :=
  {| mode := mode s; isDrawing := isDrawing s; routePoints := routePoints s;
  currentPolyline := currentPolyline s; vertexMarkers := vertexMarkers s;
  currentDistance := currentDistance s; logs := logs s; drawnLayers := v;
  activeAnimations := activeAnimations s; animationLayers := animationLayers
  s; selectedRouteId := selectedRouteId s; formOpen := formOpen s;
  distanceFieldShown := distanceFieldShown s; pendingDeleteId :=
  pendingDeleteId s; deleteDialogOpen := deleteDialogOpen s; savedLogs :=
  savedLogs s; pendingFrames := pendingFrames s; nextFrameId := nextFrameId
  s |}.

Definition set_activeAnimations (v : gmap string nat) (s : App) : App :=
  {| mode := mode s; isDrawing := isDrawing s; routePoints := routePoints s;
  currentPolyline := currentPolyline s; vertexMarkers := vertexMarkers s;
  currentDistance := currentDistance s; logs := logs s; drawnLayers :=
  drawnLayers s; activeAnimations := v; animationLayers := animationLayers
  s; selectedRouteId := selectedRouteId s; formOpen := formOpen s;
  distanceFieldShown := distanceFieldShown s; pendingDeleteId :=
  pendingDeleteId s; deleteDialogOpen := deleteDialogOpen s; savedLogs :=
  savedLogs s; pendingFrames := pendingFrames s; nextFrameId := nextFrameId
  s |}.

Definition set_animationLayers (v : gmap string Layer) (s : App) : App :=
  {| mode := mode s; isDrawing := isDrawing s; routePoints := routePoints s;
  currentPolyline := currentPolyline s; vertexMarkers := vertexMarkers s;
  currentDistance := currentDistance s; logs := logs s; drawnLayers :=
  drawnLayers s; activeAnimations := activeAnimations s; animationLayers :=
  v; selectedRouteId := selectedRouteId s; formOpen := formOpen s;
  distanceFieldShown := distanceFieldShown s; pendingDeleteId :=
  pendingDeleteId s; deleteDialogOpen := deleteDialogOpen s; savedLogs :=
  savedLogs s; pendingFrames := pendingFrames s; nextFrameId := nextFrameId
  s |}.

Definition set_selectedRouteId (v : option string) (s : App) : App :=
  {| mode := mode s; isDrawing := isDrawing s; routePoints := routePoints s;
  currentPolyline := currentPolyline s; vertexMarkers := vertexMarkers s;
  currentDistance := currentDistance s; logs := logs s; drawnLayers :=
  drawnLayers s; activeAnimations := activeAnimations s; animationLayers :=
  animationLayers s; selectedRouteId := v; formOpen := formOpen s;
  distanceFieldShown := distanceFieldShown s; pendingDeleteId :=
  pendingDeleteId s; deleteDialogOpen := deleteDialogOpen s; savedLogs :=
  savedLogs s; pendingFrames := pendingFrames s; nextFrameId := nextFrameId
  s |}.

Definition set_formOpen (v : bool) (s : App) : App :=
  {| mode := mode s; isDrawing := isDrawing s; routePoints := routePoints s;
  currentPolyline := currentPolyline s; vertexMarkers := vertexMarkers s;
  currentDistance := currentDistance s; logs := logs s; drawnLayers :=
  drawnLayers s; activeAnimations := activeAnimations s; animationLayers :=
  animationLayers s; selectedRouteId := selectedRouteId s; formOpen := v;
  distanceFieldShown := distanceFieldShown s; pendingDeleteId :=
  pendingDeleteId s; deleteDialogOpen := deleteDialogOpen s; savedLogs :=
  savedLogs s; pendingFrames := pendingFrames s; nextFrameId := nextFrameId
  s |}.

Definition set_distanceFieldShown (v : bool) (s : App) : App :=
  {| mode := mode s; isDrawing := isDrawing s; routePoints := routePoints s;
  currentPolyline := currentPolyline s; vertexMarkers := vertexMarkers s;
  currentDistance := currentDistance s; logs := logs s; drawnLayers :=
  drawnLayers s; activeAnimations := activeAnimations s; animationLayers :=
  animationLayers s; selectedRouteId := selectedRouteId s; formOpen :=
  formOpen s; distanceFieldShown := v; pendingDeleteId := pendingDeleteId s;
  deleteDialogOpen := deleteDialogOpen s; savedLogs := savedLogs s;
  pendingFrames := pendingFrames s; nextFrameId := nextFrameId s |}.

Definition set_pendingDeleteId (v : option string) (s : App) : App :=
  {| mode := mode s; isDrawing := isDrawing s; routePoints := routePoints s;
  currentPolyline := currentPolyline s; vertexMarkers := vertexMarkers s;
  currentDistance := currentDistance s; logs := logs s; drawnLayers :=
  drawnLayers s; activeAnimations := activeAnimations s; animationLayers :=
  animationLayers s; selectedRouteId := selectedRouteId s; formOpen :=
  formOpen s; distanceFieldShown := distanceFieldShown s; pendingDeleteId :=
  v; deleteDialogOpen := deleteDialogOpen s; savedLogs := savedLogs s;
  pendingFrames := pendingFrames s; nextFrameId := nextFrameId s |}.

Definition set_deleteDialogOpen (v : bool) (s : App) : App :=
  {| mode := mode s; isDrawing := isDrawing s; routePoints := routePoints s;
  currentPolyline := currentPolyline s; vertexMarkers := vertexMarkers s;
  currentDistance := currentDistance s; logs := logs s; drawnLayers :=
  drawnLayers s; activeAnimations := activeAnimations s; animationLayers :=
  animationLayers s; selectedRouteId := selectedRouteId s; formOpen :=
  formOpen s; distanceFieldShown := distanceFieldShown s; pendingDeleteId :=
  pendingDeleteId s; deleteDialogOpen := v; savedLogs := savedLogs s;
  pendingFrames := pendingFrames s; nextFrameId := nextFrameId s |}.

Definition set_savedLogs (v : option (list EntryJSON)) (s : App) : App :=
  {| mode := mode s; isDrawing := isDrawing s; routePoints := routePoints s;
  currentPolyline := currentPolyline s; vertexMarkers := vertexMarkers s;
  currentDistance := currentDistance s; logs := logs s; drawnLayers :=
  drawnLayers s; activeAnimations := activeAnimations s; animationLayers :=
  animationLayers s; selectedRouteId := selectedRouteId s; formOpen :=
  formOpen s; distanceFieldShown := distanceFieldShown s; pendingDeleteId :=
  pendingDeleteId s; deleteDialogOpen := deleteDialogOpen s; savedLogs := v;
  pendingFrames := pendingFrames s; nextFrameId := nextFrameId s |}.

Definition set_pendingFrames (v : gset nat) (s : App) : App :=
  {| mode := mode s; isDrawing := isDrawing s; routePoints := routePoints s;
  currentPolyline := currentPolyline s; vertexMarkers := vertexMarkers s;
  currentDistance := currentDistance s; logs := logs s; drawnLayers :=
  drawnLayers s; activeAnimations := activeAnimations s; animationLayers :=
  animationLayers s; selectedRouteId := selectedRouteId s; formOpen :=
  formOpen s; distanceFieldShown := distanceFieldShown s; pendingDeleteId :=
  pendingDeleteId s; deleteDialogOpen := deleteDialogOpen s; savedLogs :=
  savedLogs s; pendingFrames := v; nextFrameId := nextFrameId s |}.

Definition set_nextFrameId (v : nat) (s : App) : App :=
  {| mode := mode s; isDrawing := isDrawing s; routePoints := routePoints s;
  currentPolyline := currentPolyline s; vertexMarkers := vertexMarkers s;
  currentDistance := currentDistance s; logs := logs s; drawnLayers :=
  drawnLayers s; activeAnimations := activeAnimations s; animationLayers :=
  animationLayers s; selectedRouteId := selectedRouteId s; formOpen :=
  formOpen s; distanceFieldShown := distanceFieldShown s; pendingDeleteId :=
  pendingDeleteId s; deleteDialogOpen := deleteDialogOpen s; savedLogs :=
  savedLogs s; pendingFrames := pendingFrames s; nextFrameId := v |}.

(** The state built by the field initialisers of the class.  The inline
    style of the distance field is not ['none'] before any form is opened;
    the host numbers animation frames from 1. *)
Definition initialApp : App :=
  {| mode := ModeNone; isDrawing := false; routePoints := [];
     currentPolyline := None; vertexMarkers := []; currentDistance := 0;
     logs := []; drawnLayers := ∅; activeAnimations := ∅;
     animationLayers := ∅; selectedRouteId := None; formOpen := false;
     distanceFieldShown := true; pendingDeleteId := None;
     deleteDialogOpen := false; savedLogs := None; pendingFrames := ∅;
     nextFrameId := 1 |}.

(** A string or [null] used as a condition: [null] and the empty string
    are falsy. *)
Definition truthy (v : option string) : bool :=
  match v with
  | Some s => negb (bool_decide (s = EmptyString))
  | None => false
  end.

(** The muted style of a stored route and the style of its base layer
    while it is animated. *)
Definition defaultStyle : PathStyle :=
  {| color := "#9ca3af"; weight := 3; opacity := 0.6 |}.

Definition animatedBaseStyle : PathStyle :=
  {| color := "#d1d5db"; weight := 4; opacity := 0.4 |}.

Definition overlayStyle : PathStyle :=
  {| color := "#000000"; weight := 4; opacity := 1 |}.

Inductive FormType := RouteForm | SpotForm.

Inductive Key := Enter | Escape | OtherKey.

(** Where a click in the list of entries lands. *)
Inductive ClickTarget :=
| OnDeleteButton (logId : string)
| OnCard (cardId : string)
| Elsewhere.

Section AppMethods.
Context {M : Math} {D : DateHost}.

(** *** Drawing session *)

(** [#clearDrawingState()] *)
Definition clearDrawingState (s : App) : App :=
  let s := set_currentPolyline None s in
  let s := set_vertexMarkers [] s in
  let s := set_routePoints [] s in
  set_currentDistance 0 s.

(** [#setMode(mode)] *)
Definition setMode (m : Mode) (s : App) : App :=
  if bool_decide (mode s = m) then
    (* Toggle off *)
    let s := set_mode ModeNone s in
    let s := set_isDrawing false s in
    clearDrawingState s
  else
    let s := set_mode m s in
    set_isDrawing true s.

(** [#addRoutePoint(point)] *)
Definition addRoutePoint (point : coord) (s : App) : App :=
  let s := set_routePoints (routePoints s ++ [point]) s in
  let s := set_vertexMarkers (vertexMarkers s ++ [point]) s in
  if (2 <=? length (routePoints s))%nat then
    let s := set_currentPolyline (Some (routePoints s)) s in
    set_currentDistance (calculateTotalDistance (routePoints s)) s
  else s.

(** [#openForm(type)] *)
Definition openForm (type : FormType) (s : App) : App :=
  let isRoute := match type with RouteForm => true | SpotForm => false end in
  let s := set_distanceFieldShown isRoute s in
  set_formOpen true s.

(** [#addSpot(point)] *)
Definition addSpot (point : coord) (s : App) : App :=
  let s := set_mode ModeNone s in
  let s := set_isDrawing false s in
  let s := set_routePoints [point] s in
  openForm SpotForm s.

(** [#finishRoute()] *)
Definition finishRoute (s : App) : App :=
  if (length (routePoints s) <? 2)%nat then s
  else
    let s := set_isDrawing false s in
    let s := set_mode ModeNone s in
    openForm RouteForm s.

(** [#closeLoop()]: spreading the missing first point, or calling
    [setLatLngs] on a polyline that is still [null], throws. *)
Definition closeLoop (s : App) : completion App :=
  match routePoints s with
  | [] => Throw TypeError
  | startPoint :: _ =>
      let s := set_routePoints (routePoints s ++ [startPoint]) s in
      match currentPolyline s with
      | None => Throw TypeError
      | Some _ =>
          let s := set_currentPolyline (Some (routePoints s)) s in
          let s := set_currentDistance (calculateTotalDistance (routePoints s)) s in
          Normal (finishRoute s)
      end
  end.

(** [#handleMapClick(e)], with [point] the coordinates of the event. *)
Definition handleMapClick (point : coord) (s : App) : completion App :=
  if negb (isDrawing s) then Normal s
  else
    match mode s with
    | ModeRoute =>
        (* Check for loop closing - if clicking near start point *)
        if (2 <=? length (routePoints s))%nat then
          let startPoint := routePoints s !!! 0%nat in
          let distanceToStart := haversineDistance point startPoint in
          if distanceToStart <? 0.05 then closeLoop s
          else Normal (addRoutePoint point s)
        else Normal (addRoutePoint point s)
    | ModeSpot => Normal (addSpot point s)
    | ModeNone => Normal s
    end.

(** [#handleDoubleClick(e)] *)
Definition handleDoubleClick (s : App) : App :=
  if bool_decide (mode s = ModeRoute) && (2 <=? length (routePoints s))%nat
  then finishRoute s
  else s.

(** [#cancelDrawing()] *)
Definition cancelDrawing (s : App) : App :=
  let s := clearDrawingState s in
  let s := set_mode ModeNone s in
  set_isDrawing false s.

(** [#closeForm()] *)
Definition closeForm (s : App) : App :=
  let s := set_formOpen false s in
  clearDrawingState s.

(** [#handleKeydown(e)] *)
Definition handleKeydown (key : Key) (s : App) : App :=
  match key with
  | Enter =>
      if bool_decide (mode s = ModeRoute) && (2 <=? length (routePoints s))%nat
      then finishRoute s
      else s
  | Escape =>
      if formOpen s then closeForm s
      else if isDrawing s then cancelDrawing s
      else s
  | OtherKey => s
  end.

(** The session after a sequence of calls of [#addRoutePoint], one per
    point, in order. *)
Definition addRoutePoints (points : list coord) (s : App) : App :=
  foldl (fun s point => addRoutePoint point s) s points.

(** The live distance is that of the accumulated points. *)
Definition distance_fresh (s : App) : Prop :=
  currentDistance s = calculateTotalDistance (routePoints s).

(** A polyline is on the map once two points are drawn; [#closeLoop]
    relies on it. *)
Definition polyline_drawn (s : App) : Prop :=
  (2 <= length (routePoints s))%nat -> is_Some (currentPolyline s).

(** *** Animations and selection *)

(** [#stopRouteAnimation(logId)]: a frame id is a condition here, so an
    id of 0 would be left in place. *)
Definition stopRouteAnimation (logId : string) (s : App) : App :=
  let s :=
    match activeAnimations s !! logId with
    | Some frameId =>
        if bool_decide (frameId = 0%nat) then s
        else
          (* cancelAnimationFrame(frameId) *)
          let s := set_pendingFrames (pendingFrames s ∖ {[frameId]}) s in
          set_activeAnimations (delete logId (activeAnimations s)) s
    | None => s
    end in
  match animationLayers s !! logId with
  | Some _ => set_animationLayers (delete logId (animationLayers s)) s
  | None => s
  end.

(** [layer.setStyle(default)] guarded by [layer && layer.setStyle]: only a
    polyline has [setStyle]. *)
Definition resetLayerStyle (logId : string) (s : App) : App :=
  match drawnLayers s !! logId with
  | Some (Polyline latlngs _) =>
      set_drawnLayers (<[logId := Polyline latlngs defaultStyle]> (drawnLayers s)) s
  | _ => s
  end.

(** [#deselectRoute()] *)
Definition deselectRoute (s : App) : App :=
  match selectedRouteId s with
  | Some logId =>
      if truthy (Some logId) then
        let s := set_selectedRouteId None s in
        let s := stopRouteAnimation logId s in
        resetLayerStyle logId s
      else s
  | None => s
  end.

(** [#animateRoute(logId, coords)], up to the registration of the first
    frame.  The frame callback, which draws the two phases from the
    duration computed here, only changes the overlay layer and is not part
    of the model.  A marker has no [setStyle], so calling it throws. *)
Definition animateRoute (logId : string) (coords : list coord) (s : App) : completion App :=
  let s := stopRouteAnimation logId s in
  match drawnLayers s !! logId with
  | None => Normal s
  | Some (Marker _) => Throw TypeError
  | Some (Polyline latlngs _) =>
      let s := set_drawnLayers
                 (<[logId := Polyline latlngs animatedBaseStyle]> (drawnLayers s)) s in
      let animLayer := Polyline [] overlayStyle in
      let s := set_animationLayers (<[logId := animLayer]> (animationLayers s)) s in
      (* requestAnimationFrame(animate) *)
      let frameId := nextFrameId s in
      let s := set_pendingFrames ({[frameId]} ∪ pendingFrames s) s in
      let s := set_nextFrameId (S frameId) s in
      Normal (set_activeAnimations (<[logId := frameId]> (activeAnimations s)) s)
  end.

(** [this.#logs.find((l) => l.id === logId)] *)
Definition findLog (logId : string) (s : App) : option LogEntry :=
  List.find (fun l => bool_decide (entry_id l = logId)) (logs s).

(** [#handleLogHover(e)]; [card] is the id carried by the card under the
    pointer, if there is one. *)
Definition handleLogHover (card : option string) (s : App) : completion App :=
  match card with
  | None => Normal s
  | Some logId =>
      (* Don't hover-animate if this route is already selected *)
      if bool_decide (selectedRouteId s = Some logId) then Normal s
      else
        match findLog logId s with
        | Some (RouteEntry r) => animateRoute logId (coords (route_log r)) s
        | _ => Normal s
        end
  end.

(** [#handleLogLeave(e)] *)
Definition handleLogLeave (card : option string) (s : App) : App :=
  match card with
  | None => s
  | Some logId =>
      if bool_decide (selectedRouteId s = Some logId) then s
      else resetLayerStyle logId (stopRouteAnimation logId s)
  end.

(** *** Deletion *)

(** [#deleteLog(logId)] *)
Definition deleteLog (logId : string) (s : App) : App :=
  match findLog logId s with
  | None => s
  | Some _ =>
      let s := set_pendingDeleteId (Some logId) s in
      set_deleteDialogOpen true s
  end.

(** [#saveToLocalStorage()]: serializing an entry with an invalid date
    throws. *)
Definition saveToLocalStorage (s : App) : completion App :=
  data ← mapM entry_toJSON (logs s);
  mret (set_savedLogs (Some data) s).

(** [#confirmDelete()] *)
Definition confirmDelete (s : App) : completion App :=
  match pendingDeleteId s with
  | None => Normal s
  | Some logId =>
      if negb (truthy (Some logId)) then Normal s
      else
        (* Stop any animation *)
        let s := if bool_decide (selectedRouteId s = Some logId)
                 then deselectRoute s else s in
        let s := stopRouteAnimation logId s in
        (* Remove from map *)
        let s := match drawnLayers s !! logId with
                 | Some _ => set_drawnLayers (delete logId (drawnLayers s)) s
                 | None => s
                 end in
        (* Remove from logs array *)
        let s := set_logs
                   (filter (fun l => entry_id l ≠ logId) (logs s)) s in
        s ← saveToLocalStorage s;
        (* Close dialog *)
        let s := set_pendingDeleteId None s in
        Normal (set_deleteDialogOpen false s)
  end.

(** [#cancelDelete()] *)
Definition cancelDelete (s : App) : App :=
  let s := set_pendingDeleteId None s in
  set_deleteDialogOpen false s.

(** [#handleLogClick(e)].  For a route the view of the map is fitted to
    the points before the route is selected, and [fitBounds] throws when
    there is no point. *)
Definition handleLogClick (target : ClickTarget) (s : App) : completion App :=
  match target with
  | OnDeleteButton logId => Normal (deleteLog logId s)
  | Elsewhere => Normal s
  | OnCard cardId =>
      match findLog cardId s with
      | None => Normal s
      | Some log =>
          (* Deselect previous route if different *)
          let s :=
            match selectedRouteId s with
            | Some selected =>
                if truthy (Some selected) && negb (bool_decide (selected = entry_id log))
                then resetLayerStyle selected (stopRouteAnimation selected s)
                else s
            | None => s
            end in
          match log with
          | RouteEntry r =>
              (* this.#map.fitBounds(L.latLngBounds(log.coords), ...) *)
              match coords (route_log r) with
              | [] => Throw LeafletError
              | _ :: _ =>
                  (* Select and animate *)
                  let s := set_selectedRouteId (Some (entry_id log)) s in
                  animateRoute (entry_id log) (coords (route_log r)) s
              end
          | SpotEntry _ => Normal (set_selectedRouteId None s)
          end
      end
  end.

(** *** Creating an entry *)

(** [#renderLogOnMap(log)]: the layer of the entry is built, put on the
    map and stored under the id of the entry.  For a route the source
    also puts a marker on the first and on the last point,
    [L.marker(log.coords[0]).addTo(map)]: with no point the marker has no
    position and adding it throws, before the layer is stored. *)
Definition renderLogOnMap (log : LogEntry) (s : App) : completion App :=
  match log with
  | RouteEntry r =>
      match coords (route_log r) with
      | [] => Throw TypeError
      | _ :: _ =>
          let layer := Polyline (coords (route_log r)) defaultStyle in
          Normal (set_drawnLayers (<[entry_id log := layer]> (drawnLayers s)) s)
      end
  | SpotEntry sp =>
      let layer := Marker (coords (spot_log sp)) in
      Normal (set_drawnLayers (<[entry_id log := layer]> (drawnLayers s)) s)
  end.

(** [#handleFormSubmit(e)].  [title] and [notes] are the trimmed values of
    the inputs, [parsedDuration] the result of [parseInt] on the duration
    input, [tDate] and [tNow] the readings of the clock made by the
    constructor.  A spot submitted without a stored point is built
    without coordinates, and rendering it throws like rendering a route
    without points does; a spot always has coordinates here, so this
    exception is returned where the spot is built.  The view of the map
    moves to the entry at the end, when the entry has been drawn and so
    has a point. *)
Definition handleFormSubmit (title notes : string) (parsedDuration : float)
    (tDate tNow : Z) (s : App) : completion App :=
  let title := if bool_decide (title = EmptyString) then "Untitled"%string else title in
  log ←
    (if distanceFieldShown s then
       let duration :=
         if is_nan parsedDuration || (parsedDuration =? 0) then 0 else parsedDuration in
       Normal (RouteEntry (Route_new tDate tNow (routePoints s) (currentDistance s)
                             (Some title) (Some duration) (Some notes)))
     else
       match routePoints s with
       | point :: _ => Normal (SpotEntry (Spot_new tDate tNow point (Some title) (Some notes)))
       | [] => Throw TypeError
       end);
  let s := set_logs (logs s ++ [log]) s in
  s ← renderLogOnMap log s;
  s ← saveToLocalStorage s;
  Normal (closeForm s).

(** *** Events

    The handlers the constructor and [#loadMap] bind.  The two mode
    buttons call [#setMode] with ['route'] and ['spot']. *)

Inductive Event :=
| DrawRouteClicked
| MarkSpotClicked
| MapClicked (point : coord)
| MapDoubleClicked
| KeyPressed (key : Key)
| FormDismissed
| FormSubmitted (title notes : string) (parsedDuration : float) (tDate tNow : Z)
| CardEntered (card : option string)
| CardLeft (card : option string)
| ListClicked (target : ClickTarget)
| DeleteConfirmed
| DeleteCancelled
| MapContainerClicked.

(** The handler of an event.  When the handler throws, the outcome is the
    exception alone: the fields it has written before are not returned. *)
Definition step (e : Event) (s : App) : completion App :=
  match e with
  | DrawRouteClicked => Normal (setMode ModeRoute s)
  | MarkSpotClicked => Normal (setMode ModeSpot s)
  | MapClicked point => handleMapClick point s
  | MapDoubleClicked => Normal (handleDoubleClick s)
  | KeyPressed key => Normal (handleKeydown key s)
  | FormDismissed => Normal (closeForm s)
  | FormSubmitted title notes parsedDuration tDate tNow =>
      handleFormSubmit title notes parsedDuration tDate tNow s
  | CardEntered card => handleLogHover card s
  | CardLeft card => Normal (handleLogLeave card s)
  | ListClicked target => handleLogClick target s
  | DeleteConfirmed => confirmDelete s
  | DeleteCancelled => Normal (cancelDelete s)
  | MapContainerClicked => Normal (deselectRoute s)
  end.

(** The loop of [#loadMap] over the loaded entries,
    [this.#logs.forEach((log) => { this.#renderLogOnMap(log); ... })]: an
    entry that cannot be drawn ends the loop with its exception, and the
    entries after it are left without a layer. *)
Fixpoint renderLogs (entries : list LogEntry) (s : App) : App :=
  match entries with
  | [] => s
  | log :: rest =>
      match renderLogOnMap log s with
      | Normal s' => renderLogs rest s'
      | Throw _ => s
      end
  end.

(** The state once the constructor has loaded the stored entries and
    [#loadMap], which the position callback calls, has bound the handlers
    of the map and run its loop.  Before that the map does not exist; the
    model starts here. *)
Definition startApp (loaded : list LogEntry) : App :=
  renderLogs loaded (set_logs loaded initialApp).

(** The states the application goes through from there, as long as every
    handler returns.  A handler that throws has [Throw] as its outcome:
    what it wrote before the exception is not kept, and the state it
    leaves behind is not followed. *)
Inductive reachable : App -> Prop :=
| reachable_start (loaded : list LogEntry) : reachable (startApp loaded)
| reachable_step (e : Event) (s s' : App) :
    reachable s -> step e s = Normal s' -> reachable s'.

(** Drawing is on exactly when a mode is chosen. *)
Definition mode_drawing (s : App) : Prop :=
  isDrawing s = negb (bool_decide (mode s = ModeNone)).

Definition session_inv (s : App) : Prop :=
  mode_drawing s /\ polyline_drawn s.

(** The fields of the drawing session. *)
Definition session (s : App) : Mode * bool * list coord * option (list coord) * float :=
  (mode s, isDrawing s, routePoints s, currentPolyline s, currentDistance s).

(** The entry collection and the tables keyed by entry id. *)
Definition tables (s : App) :
    list LogEntry * gmap string Layer * gmap string nat * gmap string Layer :=
  (logs s, drawnLayers s, activeAnimations s, animationLayers s).

End AppMethods.

(** ** A reference host

    The examples below are evaluated with one concrete host.  [RefMath]
    takes the values ECMAScript fixes at zeros, infinities and NaN and
    approximates the functions elsewhere by their power series after
    argument reduction; it is meant for arguments of moderate size, which
    is what coordinates in degrees give.  [RefDate] prints and reads the
    format of [toISOString]. *)

Module RefMath.

(** The nearest integer, for arguments below 2^51 in magnitude. *)
Definition rint (x : float) : float := (x + 0x1.8p+52) - 0x1.8p+52.

(** [c0 + z * (c1 + z * (c2 + ...))] *)
Definition horner (coeffs : list float) (z : float) : float :=
  foldr (fun c acc => c + z * acc) 0 coeffs.

Definition pio2_hi : float := 0x1.921fb54442d18p+0.
Definition pio2_lo : float := 0x1.1a62633145c07p-54.
Definition two_over_pi : float := 0x1.45f306dc9c883p-1.

Definition sin_coeffs : list float :=
  [1; -1 / 6; 1 / 120; -1 / 5040; 1 / 362880; -1 / 39916800;
   1 / 6227020800; -1 / 1307674368000; 1 / 355687428096000].

Definition cos_coeffs : list float :=
  [1; -1 / 2; 1 / 24; -1 / 720; 1 / 40320; -1 / 3628800; 1 / 479001600;
   -1 / 87178291200; 1 / 20922789888000; -1 / 6402373705728000].

Definition sin_kernel (r : float) : float := r * horner sin_coeffs (r * r).
Definition cos_kernel (r : float) : float := horner cos_coeffs (r * r).

(** [x = n * pi/2 + r] with [n] integral; the result is [n mod 4], taken
    in [-2 .. 2], and [r]. *)
Definition reduce (x : float) : float * float :=
  let n := rint (x * two_over_pi) in
  let r := (x - n * pio2_hi) - n * pio2_lo in
  (n - 4 * rint (n / 4), r).

Definition sin (x : float) : float :=
  if is_nan x || is_infinity x then nan
  else
    let '(k, r) := reduce x in
    if k =? 0 then sin_kernel r
    else if k =? 1 then cos_kernel r
    else if k =? -1 then - cos_kernel r
    else - sin_kernel r.

Definition cos (x : float) : float :=
  if is_nan x || is_infinity x then nan
  else
    let '(k, r) := reduce x in
    if k =? 0 then cos_kernel r
    else if k =? 1 then - sin_kernel r
    else if k =? -1 then sin_kernel r
    else - cos_kernel r.

Definition atan_coeffs : list float :=
  [1; -1 / 3; 1 / 5; -1 / 7; 1 / 9; -1 / 11; 1 / 13; -1 / 15; 1 / 17;
   -1 / 19; 1 / 21; -1 / 23; 1 / 25; -1 / 27; 1 / 29; -1 / 31; 1 / 33;
   -1 / 35; 1 / 37; -1 / 39; 1 / 41; -1 / 43].

Definition atan_series (v : float) : float := v * horner atan_coeffs (v * v).

(** The arc tangent on [0, 1]: above sqrt 2 - 1 the argument is moved
    towards 0 by a rotation of pi/4. *)
Definition atan_unit (t : float) : float :=
  if 0x1.a827999fcef32p-2 <? t
  then Math_PI / 4 + atan_series ((t - 1) / (t + 1))
  else atan_series t.

(** The arc tangent of a ratio that is positive, zero or infinite. *)
Definition atan_pos (u : float) : float :=
  if is_infinity u then Math_PI / 2
  else if 1 <? u then Math_PI / 2 - atan_unit (1 / u)
  else atan_unit u.

Definition atan2 (y x : float) : float :=
  if is_nan y then nan
  else if is_nan x then nan
  else
    let t :=
      if is_infinity y && is_infinity x then Math_PI / 4
      else if is_zero y && is_zero x then 0
      else atan_pos (abs y / abs x) in
    let t := if get_sign x then Math_PI - t else t in
    if get_sign y then - t else t.

Definition host : Math :=
  {| Math_sin := sin; Math_cos := cos; Math_atan2 := atan2;
     pow2 := fun x => x * x |}.

End RefMath.

Module RefDate.

(** [width] decimal digits of [n], most significant first. *)
Fixpoint fixedLE (width : nat) (n : Z) : list Z :=
  match width with
  | O => []
  | S w => (n mod 10)%Z :: fixedLE w (n / 10)%Z
  end.

Definition padded (width : nat) (n : Z) : list ascii :=
  rev (digitChar <$> fixedLE width n).

(** Year, month and day of a number of days since the epoch, in the
    proleptic Gregorian calendar. *)
Definition civil_from_days (days : Z) : Z * Z * Z :=
  let z := (days + 719468)%Z in
  let era := (z / 146097)%Z in
  let doe := (z - era * 146097)%Z in
  let yoe := ((doe - doe / 1460 + doe / 36524 - doe / 146096) / 365)%Z in
  let doy := (doe - (365 * yoe + yoe / 4 - yoe / 100))%Z in
  let mp := ((5 * doy + 2) / 153)%Z in
  let d := (doy - (153 * mp + 2) / 5 + 1)%Z in
  let m := (if (mp <? 10)%Z then mp + 3 else mp - 9)%Z in
  let y := (yoe + era * 400 + (if (m <=? 2)%Z then 1 else 0))%Z in
  (y, m, d).

Definition days_from_civil (y m d : Z) : Z :=
  let y := (if (m <=? 2)%Z then y - 1 else y)%Z in
  let era := (y / 400)%Z in
  let yoe := (y - era * 400)%Z in
  let mp := (if (2 <? m)%Z then m - 3 else m + 9)%Z in
  let doy := ((153 * mp + 2) / 5 + d - 1)%Z in
  let doe := (yoe * 365 + yoe / 4 - yoe / 100 + doy)%Z in
  (era * 146097 + doe - 719468)%Z.

Definition msPerDay : Z := 86400000.

(** [YYYY-MM-DDTHH:mm:ss.sssZ]; a year outside 0..9999 is printed with a
    sign and six digits. *)
Definition toISOString (t : Z) : string :=
  let '(y, m, d) := civil_from_days (t / msPerDay) in
  let ms := (t mod msPerDay)%Z in
  let year :=
    if ((0 <=? y) && (y <=? 9999))%Z then padded 4 y
    else (if (y <? 0)%Z then "-" else "+")%char :: padded 6 (Z.abs y) in
  string_of_list_ascii
    (year ++ "-"%char :: padded 2 m ++ "-"%char :: padded 2 d ++
     "T"%char :: padded 2 (ms / 3600000) ++
     ":"%char :: padded 2 (ms / 60000 mod 60) ++
     ":"%char :: padded 2 (ms / 1000 mod 60) ++
     "."%char :: padded 3 (ms mod 1000) ++ ["Z"%char]).

Definition digitValue (c : ascii) : option Z :=
  let n := Z.of_N (N_of_ascii c) in
  if ((48 <=? n) && (n <=? 57))%Z then Some (n - 48)%Z else None.

(** The number written by a list of digits. *)
Definition number (chars : list ascii) : option Z :=
  foldl (fun acc c => n ← acc; d ← digitValue c; Some (10 * n + d)%Z)
        (Some 0%Z) chars.

Definition parseYear (chars : list ascii) : option (Z * list ascii) :=
  match chars with
  | "+"%char :: rest => y ← number (take 6 rest); Some (y, drop 6 rest)
  | "-"%char :: rest => y ← number (take 6 rest); Some ((- y)%Z, drop 6 rest)
  | _ => y ← number (take 4 chars); Some (y, drop 4 chars)
  end.

(** The reader accepts the format [toISOString] prints, and nothing else. *)
Definition parse (s : string) : option Z :=
  '(y, rest) ← parseYear (list_ascii_of_string s);
  match rest with
  | ["-"; m1; m2; "-"; d1; d2; "T"; h1; h2; ":"; n1; n2; ":"; s1; s2; "."; f1; f2; f3; "Z"]%char =>
      m ← number [m1; m2];
      d ← number [d1; d2];
      h ← number [h1; h2];
      mi ← number [n1; n2];
      sec ← number [s1; s2];
      f ← number [f1; f2; f3];
      if ((1 <=? m) && (m <=? 12) && (1 <=? d) && (d <=? 31)
          && (h <=? 23) && (mi <=? 59) && (sec <=? 59))%Z
      then Some (days_from_civil y m d * msPerDay
                 + h * 3600000 + mi * 60000 + sec * 1000 + f)%Z
      else None
  | _ => None
  end.

Definition host : DateHost :=
  {| Date_toISOString := toISOString; Date_parse := parse |}.

End RefDate.

(** ** Example states, under the reference host *)

(** A route session with the two points [(0,0)] and [(0,0.001)]. *)
Definition twoPointSession : App :=
  addRoutePoints (M := RefMath.host) [(0, 0); (0, 0.001)]
    (setMode ModeRoute initialApp).

(** A route session with one point. *)
Definition onePointSession : App :=
  addRoutePoints (M := RefMath.host) [(0, 0)] (setMode ModeRoute initialApp).

(** A route and a spot, as the constructors build them. *)
Definition exampleRoute : Route :=
  Route_new 1700000000000 1700000000000 [(28.6, 77.2); (28.61, 77.21)] 1.5
    (Some "Morning run"%string) (Some 15) None.

Definition exampleSpot : Spot :=
  Spot_new 1700000000123 1700000000123 (28.6139, 77.209) None
    (Some "Trailhead"%string).

(** The store after loading a route and a spot, and the same store once
    the card of the route has been clicked. *)
Definition exampleStore : App :=
  startApp [RouteEntry exampleRoute; SpotEntry exampleSpot].

Definition selectedStore : App :=
  match handleLogClick (OnCard (entry_id (RouteEntry exampleRoute))) exampleStore with
  | Normal s => s
  | Throw _ => exampleStore
  end.

(** A stored array whose first record is [null] and whose second record
    is a spot. *)
Definition storedSpot : JSON :=
  JObj [("id", JStr "0000000123"); ("date", JStr "2023-11-14T22:13:20.123Z");
        ("coords", JArr [JNum 28.6139; JNum 77.209]); ("type", JStr "spot");
        ("title", JStr "Untitled Spot"); ("description", JStr "Trailhead")]%string.

Definition storedWithNull : JSON := JArr [JNull; storedSpot].

(** A deserializer that never throws: the entry it builds is described by
    the record it was given. *)
Definition keepRecord (obj : JSON) : completion JSON := Normal obj.

(** ** More of the application

    Handlers that only write to the page are modelled by what they
    display. *)

Section Display.
Context {M : Math}.

(** [#handleMouseMove(e)]: the total the distance tooltip shows, before
    it is printed with two decimals, or [None] when the handler hides the
    tooltip.  [latlng] is the position of the pointer. *)
Definition handleMouseMove (latlng : coord) (s : App) : option float :=
  if negb (bool_decide (mode s = ModeRoute))
     || bool_decide (length (routePoints s) = 0%nat)
  then None
  else
    (* Calculate distance to potential next point *)
    let lastPoint := routePoints s !!! (length (routePoints s) - 1)%nat in
    let potentialDistance := haversineDistance lastPoint latlng in
    let totalDistance := currentDistance s + potentialDistance in
    Some totalDistance.

End Display.

(** [#updatePace()]: the pace the form shows, before it is printed with
    one decimal, or [None] when it shows ['-- min/km'].  [parsedDuration]
    is the result of [parseFloat] on the duration input. *)
Definition updatePace (parsedDuration : float) (s : App) : option float :=
  let duration :=
    if is_nan parsedDuration || (parsedDuration =? 0) then 0 else parsedDuration in
  let distance := currentDistance s in
  if (0 <? duration) && (0 <? distance) then
    let pace := duration / distance in
    Some pace
  else None.

(** The date of an entry. *)
Definition entry_date (l : LogEntry) : Date :=
  match l with
  | RouteEntry r => date (route_log r)
  | SpotEntry s => date (spot_log s)
  end.

Definition valid_date (l : LogEntry) : Prop :=
  exists t, entry_date l = TimeValue t.

(** The callback [animate] that [#animateRoute] hands to
    [requestAnimationFrame], run by the browser for the pending frame
    [frameId] of the animation of [logId].  What it draws on the overlay
    depends on the timestamp and on the phase the closure is in: [shown]
    and [style] stand for the result.  It then requests the next frame and
    records it. *)
Definition animationFrame (logId : string) (frameId : nat) (shown : list coord)
    (style : PathStyle) (s : App) : App :=
  (* the browser takes the frame off its list before it runs the callback *)
  let s := set_pendingFrames (pendingFrames s ∖ {[frameId]}) s in
  (* animLayer.setLatLngs(...), animLayer.setStyle(...) *)
  let s := set_animationLayers
             (<[logId := Polyline shown style]> (animationLayers s)) s in
  (* requestAnimationFrame(animate) *)
  let frameId := nextFrameId s in
  let s := set_pendingFrames ({[frameId]} ∪ pendingFrames s) s in
  let s := set_nextFrameId (S frameId) s in
  set_activeAnimations (<[logId := frameId]> (activeAnimations s)) s.

Section Frames.
Context {M : Math} {D : DateHost}.

(** The states the application goes through when the browser also runs
    the frames it was asked for, as long as every handler returns.  A
    pending frame belongs to the animation that recorded it. *)
Inductive running : App -> Prop :=
| running_start (loaded : list LogEntry) : running (startApp loaded)
| running_step (e : Event) (s s' : App) :
    running s -> step e s = Normal s' -> running s'
| running_frame (logId : string) (frameId : nat) (shown : list coord)
    (style : PathStyle) (s : App) :
    running s ->
    activeAnimations s !! logId = Some frameId ->
    frameId ∈ pendingFrames s ->
    running (animationFrame logId frameId shown style s).

(** The state after a sequence of events, each handled in the state the
    one before has left, as long as no handler throws. *)
Fixpoint steps (events : list Event) (s : App) : completion App :=
  match events with
  | [] => Normal s
  | e :: rest => s' ← step e s; steps rest s'
  end.

End Frames.

(** The fields the animation tables are made of. *)
Definition animTables (s : App) :
    nat * gmap string nat * gset nat * gmap string Layer * gmap string Layer :=
  (nextFrameId s, activeAnimations s, pendingFrames s, animationLayers s,
   drawnLayers s).

(** The frame registered for an entry, as a set. *)
Definition registeredFrame (logId : string) (s : App) : gset nat :=
  match activeAnimations s !! logId with
  | Some f => {[f]}
  | None => ∅
  end.

(** The animation tables agree with each other: frame ids are those the
    host has handed out, each pending frame is the registered frame of
    one entry, an entry is animated exactly when it has an overlay, and
    only entries with a layer on the map are animated. *)
Definition tables_inv (s : App) : Prop :=
  (1 <= nextFrameId s)%nat /\
  (forall logId f, activeAnimations s !! logId = Some f ->
     (1 <= f < nextFrameId s)%nat /\ f ∈ pendingFrames s) /\
  (forall f, f ∈ pendingFrames s ->
     exists logId, activeAnimations s !! logId = Some f) /\
  (forall logId logId' f,
     activeAnimations s !! logId = Some f ->
     activeAnimations s !! logId' = Some f -> logId = logId') /\
  (forall logId,
     is_Some (activeAnimations s !! logId) <-> is_Some (animationLayers s !! logId)) /\
  (forall logId,
     is_Some (animationLayers s !! logId) -> is_Some (drawnLayers s !! logId)).

(** The store agrees with the map and with the selections: the layers
    on the map are those of the stored entries, the selected entry is a
    stored route whose animation runs, and the entry pending deletion is
    a stored entry. *)
Definition store_inv (s : App) : Prop :=
  (forall logId,
     is_Some (drawnLayers s !! logId) <->
     exists l, l ∈ logs s /\ entry_id l = logId) /\
  (forall logId,
     selectedRouteId s = Some logId ->
     (exists r, RouteEntry r ∈ logs s /\ entry_id (RouteEntry r) = logId) /\
     is_Some (activeAnimations s !! logId)) /\
  (forall logId,
     pendingDeleteId s = Some logId ->
     exists l, l ∈ logs s /\ entry_id l = logId).

(** An entry [#renderLogOnMap] can draw: a route needs a first point for
    its markers. *)
Definition drawable (l : LogEntry) : Prop :=
  match l with
  | RouteEntry r => coords (route_log r) <> []
  | SpotEntry _ => True
  end.

(** The fields [store_inv] reads. *)
Definition storeView (s : App) :
    list LogEntry * gmap string Layer * option string * gmap string nat
    * option string :=
  (logs s, drawnLayers s, selectedRouteId s, activeAnimations s,
   pendingDeleteId s).

(** What the session has written to the storage, if it has written, is
    the serialization of the collection. *)
Definition storage_in_sync {D : DateHost} (s : App) : Prop :=
  forall data, savedLogs s = Some data -> mapM entry_toJSON (logs s) = Normal data.

(** The fields [storage_in_sync] reads. *)
Definition storageView (s : App) : list LogEntry * option (list EntryJSON) :=
  (logs s, savedLogs s).

(** A spot read from a record whose date the host cannot read, and the
    store that holds it, beside a route, after the load. *)
Definition undatedSpot : Spot :=
  Spot_fromJSON (D := RefDate.host) 1800000000000 1800000000000
    {| sj_log := {| json_id := "0000000123"; json_date := "yesterday";
                    json_coords := (28.6139, 77.209) |};
       sj_type := "spot"; sj_title := None; sj_description := None |}.

Definition undatedStore : App :=
  startApp [RouteEntry exampleRoute; SpotEntry undatedSpot].

(** The two stores once the spot tool has been chosen and the map clicked:
    the point is stored and the form is open. *)
Definition markedStore : App :=
  addSpot (28.7, 77.1) (setMode ModeSpot exampleStore).

Definition undatedMarkedStore : App :=
  addSpot (28.7, 77.1) (setMode ModeSpot undatedStore).

(** * Properties *)

(** ** Binary64 facts used below *)

Section FloatFacts.

Lemma finite_cases (x : float) :
  is_finite x = true ->
  (exists s, Prim2SF x = S754_zero s) \/
  (exists s m e, Prim2SF x = S754_finite s m e).
Proof.
  unfold is_finite, is_nan, is_infinity. intros H.
  apply negb_true_iff, orb_false_iff in H. destruct H as [Hnan Hinf].
  rewrite FloatAxioms.eqb_spec, abs_spec in Hinf.
  rewrite negb_false_iff, FloatAxioms.eqb_spec in Hnan.
  destruct (Prim2SF x) as [s|s| |s m e] eqn:E.
  - left; eauto.
  - destruct s; discriminate.
  - discriminate.
  - right; eauto.
Qed.

(** [x - x] is [+0] for every finite [x]. *)
Lemma sub_self (x : float) : is_finite x = true -> x - x = 0.
Proof.
  intros H. apply Prim2SF_inj. rewrite sub_spec.
  destruct (finite_cases x H) as [[s ->]|(s & m & e & ->)].
  - by destruct s.
  - unfold SF64sub, SFsub. rewrite Z.sub_diag. reflexivity.
Qed.

(** A finite number times [+0] is a zero of some sign. *)
Lemma mul_zero_r (c : float) :
  is_finite c = true -> exists s, Prim2SF (c * 0) = S754_zero s.
Proof.
  intros H. rewrite mul_spec.
  destruct (finite_cases c H) as [[s ->]|(s & m & e & ->)]; simpl; eauto.
Qed.

Lemma add_zero_signed (z : float) (s : bool) :
  Prim2SF z = S754_zero s -> 0 + z = 0.
Proof.
  intros H. apply Prim2SF_inj. rewrite add_spec, H. by destruct s.
Qed.

(** The square root of a negative number is NaN. *)
Lemma sqrt_negative (x : float) : (x <? 0) = true -> sqrt x = nan.
Proof.
  intros H. apply Prim2SF_inj. rewrite sqrt_spec.
  rewrite ltb_spec in H. change (Prim2SF 0) with (S754_zero false) in H.
  destruct (Prim2SF x) as [s|s| |s m e]; try discriminate;
    destruct s; (reflexivity || discriminate).
Qed.

Lemma positive_not_zero (x : float) : (0 <? x) = true -> (x =? 0) = false.
Proof.
  rewrite ltb_spec, FloatAxioms.eqb_spec.
  change (Prim2SF 0) with (S754_zero false).
  destruct (Prim2SF x) as [s|s| |s m e]; try discriminate;
    destruct s; (reflexivity || discriminate).
Qed.

(** A number that is not below [+0] is above it or equal to it. *)
Lemma nonnegative_cases (x : float) :
  (0 <=? x) = true -> (0 <? x) = true \/ ((0 <? x) = false /\ (x =? 0) = true).
Proof.
  rewrite leb_spec, ltb_spec, FloatAxioms.eqb_spec.
  change (Prim2SF 0) with (S754_zero false).
  destruct (Prim2SF x) as [s|s| |s m e]; try discriminate;
    destruct s; intros H; try discriminate H; (by left) || (by right).
Qed.

Lemma mul_nan_l (x : float) : nan * x = nan.
Proof.
  apply Prim2SF_inj. rewrite mul_spec. change (Prim2SF nan) with S754_nan.
  by destruct (Prim2SF x).
Qed.

Lemma mul_nan_r (x : float) : x * nan = nan.
Proof.
  apply Prim2SF_inj. rewrite mul_spec. change (Prim2SF nan) with S754_nan.
  by destruct (Prim2SF x).
Qed.

Lemma add_nan_r (x : float) : x + nan = nan.
Proof.
  apply Prim2SF_inj. rewrite add_spec. change (Prim2SF nan) with S754_nan.
  by destruct (Prim2SF x).
Qed.

End FloatFacts.

(** ** Path length *)

Section PathLength.
Context {M : Math}.

Lemma calculateTotalDistance_nil : calculateTotalDistance [] = 0.
Proof. reflexivity. Qed.

Lemma calculateTotalDistance_single (p : coord) : calculateTotalDistance [p] = 0.
Proof. reflexivity. Qed.

(** The loop over indices, started after a prefix [pre], walks the rest
    of the list pair by pair. *)
Lemma loop_walk_pairs (rest pre : list coord) (p : coord) (acc : float) :
  foldl (fun total i =>
           total + haversineDistance ((pre ++ p :: rest) !!! (i - 1)%nat)
                                     ((pre ++ p :: rest) !!! i))
        acc (seq (S (length pre)) (length rest))
  = walk_pairs acc p rest.
Proof.
  revert pre p acc. induction rest as [|q rest IH]; intros pre p acc.
  - reflexivity.
  - cbn [length seq foldl walk_pairs].
    replace (S (length pre) - 1)%nat with (length pre) by lia.
    rewrite (list_lookup_total_middle pre (q :: rest) p (length pre) eq_refl).
    assert (Hq : (pre ++ p :: q :: rest) !!! S (length pre) = q).
    { apply list_lookup_total_correct.
      rewrite lookup_app_r by lia.
      by replace (S (length pre) - length pre)%nat with 1%nat by lia. }
    rewrite Hq.
    specialize (IH (pre ++ [p]) q (acc + haversineDistance p q)).
    rewrite <- app_assoc, length_app in IH. cbn [length app] in IH.
    replace (length pre + 1)%nat with (S (length pre)) in IH by lia.
    exact IH.
Qed.

(** The loop of [#calculateTotalDistance] computes the sum over
    consecutive pairs, in the order of the path. *)
Lemma calculateTotalDistance_pathLength (points : list coord) :
  calculateTotalDistance points = pathLengthKm points.
Proof.
  destruct points as [|p rest]; [reflexivity|].
  unfold calculateTotalDistance, pathLengthKm. cbn [length].
  replace (S (length rest) - 1)%nat with (length rest) by lia.
  exact (loop_walk_pairs rest [] p 0).
Qed.

Lemma last_cons_default {A} (l : list A) (x d d' : A) :
  List.last (x :: l) d = List.last (x :: l) d'.
Proof.
  revert x. induction l as [|y l IH]; intros x; [reflexivity|].
  change (List.last (y :: l) d = List.last (y :: l) d'). apply IH.
Qed.

Lemma walk_pairs_snoc (rest : list coord) (p0 p : coord) (acc : float) :
  walk_pairs acc p0 (rest ++ [p])
  = walk_pairs acc p0 rest + haversineDistance (List.last rest p0) p.
Proof.
  revert p0 acc. induction rest as [|q rest IH]; intros p0 acc.
  - reflexivity.
  - cbn [app walk_pairs]. rewrite IH.
    destruct rest as [|r rest]; [reflexivity|].
    by rewrite (last_cons_default rest r q p0).
Qed.

(** Recomputing from scratch after one more point adds the length of the
    last segment to the previous total. *)
Lemma calculateTotalDistance_snoc (p0 : coord) (rest : list coord) (p : coord) :
  calculateTotalDistance ((p0 :: rest) ++ [p])
  = calculateTotalDistance (p0 :: rest)
    + haversineDistance (List.last rest p0) p.
Proof.
  rewrite !calculateTotalDistance_pathLength. apply walk_pairs_snoc.
Qed.

End PathLength.

(** ** The drawing session *)

(** Reading a field of a state after a sequence of assignments. *)
Ltac fields :=
  cbn [mode isDrawing routePoints currentPolyline vertexMarkers
       currentDistance logs drawnLayers activeAnimations animationLayers
       selectedRouteId formOpen distanceFieldShown pendingDeleteId
       deleteDialogOpen savedLogs pendingFrames nextFrameId set_mode
       set_isDrawing set_routePoints set_currentPolyline set_vertexMarkers
       set_currentDistance set_logs set_drawnLayers set_activeAnimations
       set_animationLayers set_selectedRouteId set_formOpen
       set_distanceFieldShown set_pendingDeleteId set_deleteDialogOpen
       set_savedLogs set_pendingFrames set_nextFrameId] in *.

(** Unfolding the sequencing of completions. *)
Ltac run :=
  cbv beta iota zeta delta
    [mret mbind fmap completion_ret completion_bind completion_fmap] in *.

Section DrawingSession.
Context {M : Math}.

Lemma addRoutePoint_points (p : coord) (s : App) :
  routePoints (addRoutePoint p s) = routePoints s ++ [p].
Proof.
  unfold addRoutePoint. fields.
  by destruct (2 <=? length (routePoints s ++ [p]))%nat.
Qed.

(** One call of [#addRoutePoint] keeps the live distance fresh. *)
Lemma addRoutePoint_fresh (p : coord) (s : App) :
  distance_fresh s -> distance_fresh (addRoutePoint p s).
Proof.
  unfold distance_fresh, addRoutePoint. fields. intros Hs.
  destruct (2 <=? length (routePoints s ++ [p]))%nat eqn:Hlen; fields.
  - reflexivity.
  - apply Nat.leb_gt in Hlen. rewrite length_app in Hlen. cbn [length] in Hlen.
    destruct (routePoints s) as [|q rest]; [by rewrite Hs|cbn [length] in Hlen; lia].
Qed.

Lemma addRoutePoints_snoc (points : list coord) (p : coord) (s : App) :
  addRoutePoints (points ++ [p]) s = addRoutePoint p (addRoutePoints points s).
Proof. unfold addRoutePoints. by rewrite foldl_snoc. Qed.

(** C1. In a session started empty, after any sequence of calls of
    [#addRoutePoint] the accumulated points are the points added, and the
    live distance equals the distance recomputed from scratch over them,
    which is the sum of the point-to-point distances over consecutive
    pairs; it is 0 for 0 or 1 points. *)
Theorem live_distance_never_stale (s0 : App) (points : list coord) :
  routePoints s0 = [] ->
  currentDistance s0 = 0 ->
  routePoints (addRoutePoints points s0) = points /\
  currentDistance (addRoutePoints points s0) = calculateTotalDistance points /\
  currentDistance (addRoutePoints points s0) = pathLengthKm points /\
  ((length points <= 1)%nat -> currentDistance (addRoutePoints points s0) = 0).
Proof.
  intros Hpts Hdist.
  assert (Hinv : routePoints (addRoutePoints points s0) = points /\
                 distance_fresh (addRoutePoints points s0)).
  { induction points as [|p points IH] using rev_ind.
    - split; [exact Hpts|]. unfold distance_fresh, addRoutePoints. cbn [foldl].
      by rewrite Hpts, Hdist.
    - destruct IH as [IHp IHd]. rewrite addRoutePoints_snoc. split.
      + by rewrite addRoutePoint_points, IHp.
      + by apply addRoutePoint_fresh. }
  destruct Hinv as [Hp Hd]. unfold distance_fresh in Hd. rewrite Hp in Hd.
  repeat split; try done.
  - by rewrite Hd, calculateTotalDistance_pathLength.
  - intros Hlen. rewrite Hd.
    destruct points as [|p [|q rest]]; [reflexivity|reflexivity|cbn in Hlen; lia].
Qed.

End DrawingSession.

Lemma live_distance_never_stale_witness :
  routePoints initialApp = [] /\
  currentDistance initialApp = 0 /\
  routePoints (addRoutePoints (M := RefMath.host)
                 [(0, 0); (0, 0.001); (0.001, 0.001)] initialApp)
  = [(0, 0); (0, 0.001); (0.001, 0.001)] /\
  currentDistance (addRoutePoints (M := RefMath.host)
                     [(0, 0); (0, 0.001); (0.001, 0.001)] initialApp)
  = calculateTotalDistance (M := RefMath.host)
      [(0, 0); (0, 0.001); (0.001, 0.001)] /\
  currentDistance (addRoutePoints (M := RefMath.host) [(0, 0)] initialApp) = 0.
Proof.
  destruct (live_distance_never_stale (M := RefMath.host) initialApp
              [(0, 0); (0, 0.001); (0.001, 0.001)] eq_refl eq_refl)
    as (H1 & H2 & _).
  destruct (live_distance_never_stale (M := RefMath.host) initialApp
              [(0, 0)] eq_refl eq_refl)
    as (_ & _ & _ & H3).
  do 2 (split; [reflexivity|]).
  split; [exact H1|]. split; [exact H2|].
  apply H3. cbn [length]. lia.
Defined.

(** An assignment to a field that a projection [proj] of the state does
    not read can be dropped under [proj]. *)
Ltac is_setter f :=
  lazymatch f with
  | set_mode => idtac | set_isDrawing => idtac
  | set_routePoints => idtac | set_currentPolyline => idtac
  | set_vertexMarkers => idtac | set_currentDistance => idtac
  | set_logs => idtac | set_drawnLayers => idtac
  | set_activeAnimations => idtac | set_animationLayers => idtac
  | set_selectedRouteId => idtac | set_formOpen => idtac
  | set_distanceFieldShown => idtac | set_pendingDeleteId => idtac
  | set_deleteDialogOpen => idtac | set_savedLogs => idtac
  | set_pendingFrames => idtac | set_nextFrameId => idtac
  end.

Ltac frame proj :=
  repeat match goal with
         | |- context [proj (?f ?v ?s)] =>
             is_setter f; rewrite (eq_refl : proj (f v s) = proj s)
         end.

Create Rewrite HintDb session.

Ltac session_frame := frame session; autorewrite with session; frame session.

(** ** Handlers of the entry list leave the drawing session alone *)

Section SessionFrame.
Context {M : Math} {D : DateHost}.

Lemma stopRouteAnimation_session (logId : string) (s : App) :
  session (stopRouteAnimation logId s) = session s.
Proof. unfold stopRouteAnimation. by repeat case_match. Qed.

Lemma resetLayerStyle_session (logId : string) (s : App) :
  session (resetLayerStyle logId s) = session s.
Proof. unfold resetLayerStyle. by repeat case_match. Qed.

#[local] Hint Rewrite stopRouteAnimation_session resetLayerStyle_session : session.

Lemma deselectRoute_session (s : App) : session (deselectRoute s) = session s.
Proof.
  unfold deselectRoute. repeat case_match; by session_frame.
Qed.

#[local] Hint Rewrite deselectRoute_session : session.

Lemma animateRoute_session (logId : string) (coords : list coord) (s s' : App) :
  animateRoute logId coords s = Normal s' -> session s' = session s.
Proof.
  unfold animateRoute. intros H.
  repeat case_match; simplify_eq; by session_frame.
Qed.

Lemma saveToLocalStorage_session (s s' : App) :
  saveToLocalStorage s = Normal s' -> session s' = session s.
Proof.
  unfold saveToLocalStorage. intros H.
  destruct (mapM entry_toJSON (logs s)); run; by simplify_eq.
Qed.

Lemma handleLogHover_session (card : option string) (s s' : App) :
  handleLogHover card s = Normal s' -> session s' = session s.
Proof.
  unfold handleLogHover. intros H.
  repeat case_match; simplify_eq; try done; by eapply animateRoute_session.
Qed.

Lemma handleLogLeave_session (card : option string) (s : App) :
  session (handleLogLeave card s) = session s.
Proof.
  unfold handleLogLeave. repeat case_match; by session_frame.
Qed.

Lemma deleteLog_session (logId : string) (s : App) :
  session (deleteLog logId s) = session s.
Proof. unfold deleteLog. by case_match. Qed.

Lemma cancelDelete_session (s : App) : session (cancelDelete s) = session s.
Proof. reflexivity. Qed.

Lemma confirmDelete_session (s s' : App) :
  confirmDelete s = Normal s' -> session s' = session s.
Proof.
  unfold confirmDelete. intros H.
  destruct (pendingDeleteId s) as [logId|]; [|by simplify_eq].
  destruct (negb (truthy (Some logId))); [by simplify_eq|].
  match type of H with context [saveToLocalStorage ?t] =>
    destruct (saveToLocalStorage t) as [s2|] eqn:Hsave
  end; run; [|done].
  apply saveToLocalStorage_session in Hsave. injection H as <-.
  session_frame. rewrite Hsave. session_frame.
  repeat case_match; by session_frame.
Qed.

Lemma handleLogClick_session (target : ClickTarget) (s s' : App) :
  handleLogClick target s = Normal s' -> session s' = session s.
Proof.
  unfold handleLogClick. intros H.
  destruct target as [logId|cardId|]; simplify_eq;
    [apply deleteLog_session| |done].
  destruct (findLog cardId s) as [[r|sp]|]; [| |by simplify_eq].
  - destruct (coords (route_log r)); [done|].
    apply animateRoute_session in H. rewrite H.
    repeat case_match; by session_frame.
  - simplify_eq. repeat case_match; by session_frame.
Qed.

(** A rendering that returns has stored a layer under the id of the
    entry, and nothing else. *)
Lemma renderLogOnMap_normal (log : LogEntry) (s s' : App) :
  renderLogOnMap log s = Normal s' ->
  exists layer,
    s' = set_drawnLayers (<[entry_id log := layer]> (drawnLayers s)) s.
Proof.
  unfold renderLogOnMap. intros H.
  destruct log as [r|sp]; [destruct (coords (route_log r)); [done|]|];
    injection H as <-; by eexists.
Qed.

(** The loop of [#loadMap] only writes the table of layers. *)
Lemma renderLogs_layers (entries : list LogEntry) (s : App) :
  renderLogs entries s = set_drawnLayers (drawnLayers (renderLogs entries s)) s.
Proof.
  revert s. induction entries as [|log rest IH]; intros s; cbn [renderLogs].
  - by destruct s.
  - destruct (renderLogOnMap log s) as [s1|] eqn:Hrender; [|by destruct s].
    apply renderLogOnMap_normal in Hrender as [layer ->].
    rewrite IH at 1. reflexivity.
Qed.

(** What a submission that returns has done. *)
Lemma handleFormSubmit_inversion (title notes : string) (parsed : float)
    (tDate tNow : Z) (s s' : App) :
  handleFormSubmit title notes parsed tDate tNow s = Normal s' ->
  exists log layer data,
    s' = closeForm
           (set_savedLogs (Some data)
              (set_drawnLayers (<[entry_id log := layer]> (drawnLayers s))
                 (set_logs (logs s ++ [log]) s))) /\
    renderLogOnMap log (set_logs (logs s ++ [log]) s)
    = Normal (set_drawnLayers (<[entry_id log := layer]> (drawnLayers s))
                (set_logs (logs s ++ [log]) s)) /\
    mapM entry_toJSON (logs s ++ [log]) = Normal data /\
    entry_id log = make_id tNow.
Proof.
  unfold handleFormSubmit. intros H.
  match type of H with mbind _ ?c = _ => destruct c as [log|] eqn:Hlog end;
    run; [|done].
  destruct (renderLogOnMap log _) as [s1|] eqn:Hrender; [|done].
  pose proof Hrender as Hlayer.
  apply renderLogOnMap_normal in Hlayer as [layer ->].
  unfold saveToLocalStorage in H. fields.
  destruct (mapM entry_toJSON (logs s ++ [log])) as [data|] eqn:Hdata; [|done].
  injection H as <-. exists log, layer, data.
  split; [reflexivity|]. split; [exact Hrender|]. split; [exact Hdata|].
  repeat case_match; by simplify_eq.
Qed.

Lemma renderLogs_session (entries : list LogEntry) (s : App) :
  session (renderLogs entries s) = session s.
Proof. by rewrite renderLogs_layers. Qed.

(** The invariant of the session only reads the fields of the session. *)
Lemma session_inv_ext (s s' : App) :
  session s' = session s -> session_inv s -> session_inv s'.
Proof.
  unfold session, session_inv, mode_drawing, polyline_drawn.
  intros H [H1 H2]. injection H as -> -> -> -> _. by split.
Qed.

End SessionFrame.

(** ** The invariant of the drawing session *)

Section SessionInvariant.
Context {M : Math} {D : DateHost}.

Lemma clearDrawingState_inv (s : App) :
  mode_drawing s -> session_inv (clearDrawingState s).
Proof.
  intros H. split; [exact H|].
  unfold polyline_drawn, clearDrawingState. fields. cbn [length]. lia.
Qed.

Lemma setMode_inv (m : Mode) (s : App) :
  m <> ModeNone -> session_inv s -> session_inv (setMode m s).
Proof.
  intros Hm [H1 H2]. unfold setMode. case_bool_decide.
  - by apply clearDrawingState_inv.
  - split; [|exact H2]. unfold mode_drawing. fields. by rewrite bool_decide_false.
Qed.

Lemma addRoutePoint_inv (p : coord) (s : App) :
  session_inv s -> session_inv (addRoutePoint p s).
Proof.
  intros [H1 H2]. unfold addRoutePoint. fields.
  destruct (2 <=? length (routePoints s ++ [p]))%nat eqn:Hlen.
  - split; [exact H1|]. unfold polyline_drawn. fields. eauto.
  - split; [exact H1|]. unfold polyline_drawn. fields.
    apply Nat.leb_gt in Hlen. lia.
Qed.

Lemma addSpot_inv (p : coord) (s : App) : session_inv (addSpot p s).
Proof.
  split; [reflexivity|]. unfold polyline_drawn, addSpot, openForm. fields.
  cbn [length]. lia.
Qed.

Lemma finishRoute_inv (s : App) : session_inv s -> session_inv (finishRoute s).
Proof.
  intros [H1 H2]. unfold finishRoute. case_match; [done|].
  split; [reflexivity|exact H2].
Qed.

Lemma closeLoop_inv (s s' : App) :
  closeLoop s = Normal s' -> session_inv s -> session_inv s'.
Proof.
  unfold closeLoop. intros H Hinv.
  destruct (routePoints s) as [|startPoint rest] eqn:Hpts; [done|]. fields.
  destruct (currentPolyline s) as [polyline|] eqn:Hpoly; [|done].
  injection H as <-. apply finishRoute_inv.
  destruct Hinv as [H1 H2]. split; [exact H1|].
  unfold polyline_drawn. fields. eauto.
Qed.

Lemma handleMapClick_inv (p : coord) (s s' : App) :
  handleMapClick p s = Normal s' -> session_inv s -> session_inv s'.
Proof.
  unfold handleMapClick. intros H Hinv.
  repeat case_match; simplify_eq;
    eauto using closeLoop_inv, addRoutePoint_inv, addSpot_inv.
Qed.

Lemma cancelDrawing_inv (s : App) : session_inv (cancelDrawing s).
Proof.
  split; [reflexivity|]. unfold polyline_drawn, cancelDrawing, clearDrawingState.
  fields. cbn [length]. lia.
Qed.

Lemma closeForm_inv (s : App) : session_inv s -> session_inv (closeForm s).
Proof. intros [H1 H2]. by apply clearDrawingState_inv. Qed.

Lemma handleKeydown_inv (key : Key) (s : App) :
  session_inv s -> session_inv (handleKeydown key s).
Proof.
  intros Hinv. unfold handleKeydown.
  repeat case_match; eauto using finishRoute_inv, closeForm_inv, cancelDrawing_inv.
Qed.

Lemma handleFormSubmit_inv (title notes : string) (parsed : float) (tDate tNow : Z)
    (s s' : App) :
  handleFormSubmit title notes parsed tDate tNow s = Normal s' ->
  session_inv s -> session_inv s'.
Proof.
  intros H Hinv.
  apply handleFormSubmit_inversion in H as (log & layer & data & -> & _).
  apply closeForm_inv. by apply (session_inv_ext s).
Qed.

Lemma startApp_inv (loaded : list LogEntry) : session_inv (startApp loaded).
Proof.
  apply (session_inv_ext initialApp).
  - unfold startApp. by rewrite renderLogs_session.
  - split; [reflexivity|]. unfold polyline_drawn. cbn. lia.
Qed.

Lemma step_inv (e : Event) (s s' : App) :
  step e s = Normal s' -> session_inv s -> session_inv s'.
Proof.
  destruct e; cbn [step]; intros H Hinv; simplify_eq;
    eauto using setMode_inv, handleMapClick_inv, handleKeydown_inv,
      closeForm_inv, handleFormSubmit_inv.
  - unfold handleDoubleClick. case_match; eauto using finishRoute_inv.
  - apply (session_inv_ext s); eauto using handleLogHover_session.
  - apply (session_inv_ext s); eauto using handleLogLeave_session.
  - apply (session_inv_ext s); eauto using handleLogClick_session.
  - apply (session_inv_ext s); eauto using confirmDelete_session.
  - apply (session_inv_ext s); eauto using deselectRoute_session.
Qed.

(** Every state the application reaches satisfies the invariant. *)
Lemma reachable_inv (s : App) : reachable s -> session_inv s.
Proof.
  induction 1 as [loaded|e s s' _ IH Hstep].
  - apply startApp_inv.
  - by eapply step_inv.
Qed.

End SessionInvariant.

(** ** Stored entries are never modified *)

Create Rewrite HintDb store.

Ltac store_frame := frame logs; autorewrite with store; frame logs.

Section StoreFrame.
Context {M : Math} {D : DateHost}.

Lemma clearDrawingState_logs (s : App) : logs (clearDrawingState s) = logs s.
Proof. reflexivity. Qed.

Lemma setMode_logs (m : Mode) (s : App) : logs (setMode m s) = logs s.
Proof. unfold setMode. by case_match. Qed.

Lemma addRoutePoint_logs (p : coord) (s : App) : logs (addRoutePoint p s) = logs s.
Proof. unfold addRoutePoint. by case_match. Qed.

Lemma finishRoute_logs (s : App) : logs (finishRoute s) = logs s.
Proof. unfold finishRoute. by case_match. Qed.

Lemma closeLoop_logs (s s' : App) : closeLoop s = Normal s' -> logs s' = logs s.
Proof.
  unfold closeLoop. intros H. repeat case_match; simplify_eq.
  by rewrite finishRoute_logs.
Qed.

Lemma handleMapClick_logs (p : coord) (s s' : App) :
  handleMapClick p s = Normal s' -> logs s' = logs s.
Proof.
  unfold handleMapClick. intros H.
  repeat case_match; simplify_eq;
    eauto using closeLoop_logs, addRoutePoint_logs.
Qed.

Lemma handleKeydown_logs (key : Key) (s : App) : logs (handleKeydown key s) = logs s.
Proof.
  unfold handleKeydown. repeat case_match; try done; apply finishRoute_logs.
Qed.

Lemma stopRouteAnimation_logs (logId : string) (s : App) :
  logs (stopRouteAnimation logId s) = logs s.
Proof. unfold stopRouteAnimation. by repeat case_match. Qed.

Lemma resetLayerStyle_logs (logId : string) (s : App) :
  logs (resetLayerStyle logId s) = logs s.
Proof. unfold resetLayerStyle. by repeat case_match. Qed.

#[local] Hint Rewrite stopRouteAnimation_logs resetLayerStyle_logs : store.

Lemma deselectRoute_logs (s : App) : logs (deselectRoute s) = logs s.
Proof. unfold deselectRoute. repeat case_match; by store_frame. Qed.

#[local] Hint Rewrite deselectRoute_logs : store.

Lemma animateRoute_logs (logId : string) (coords : list coord) (s s' : App) :
  animateRoute logId coords s = Normal s' -> logs s' = logs s.
Proof.
  unfold animateRoute. intros H. repeat case_match; simplify_eq; by store_frame.
Qed.

Lemma saveToLocalStorage_logs (s s' : App) :
  saveToLocalStorage s = Normal s' -> logs s' = logs s.
Proof.
  unfold saveToLocalStorage. intros H.
  destruct (mapM entry_toJSON (logs s)); run; by simplify_eq.
Qed.

Lemma handleLogClick_logs (target : ClickTarget) (s s' : App) :
  handleLogClick target s = Normal s' -> logs s' = logs s.
Proof.
  unfold handleLogClick, deleteLog. intros H.
  destruct target as [logId|cardId|]; simplify_eq; [by case_match| |done].
  destruct (findLog cardId s) as [[r|sp]|]; [| |by simplify_eq].
  - destruct (coords (route_log r)); [done|].
    apply animateRoute_logs in H. rewrite H.
    repeat case_match; by store_frame.
  - simplify_eq. repeat case_match; by store_frame.
Qed.

(** Confirming a deletion removes the entries that carry the pending id
    and keeps the others as they are. *)
Lemma confirmDelete_logs (s s' : App) :
  confirmDelete s = Normal s' ->
  logs s' = logs s \/
  exists logId, logs s' = filter (fun l => entry_id l <> logId) (logs s).
Proof.
  unfold confirmDelete. intros H.
  destruct (pendingDeleteId s) as [logId|]; [|left; by simplify_eq].
  destruct (negb (truthy (Some logId))); [left; by simplify_eq|].
  match type of H with context [saveToLocalStorage ?t] =>
    destruct (saveToLocalStorage t) as [s2|] eqn:Hsave
  end; run; [|done].
  apply saveToLocalStorage_logs in Hsave. injection H as <-.
  right. exists logId. store_frame. rewrite Hsave. fields. f_equal.
  repeat case_match; by store_frame.
Qed.

(** Submitting the form appends one entry, built by a constructor at the
    readings of the clock of the event. *)
Lemma handleFormSubmit_logs (title notes : string) (parsed : float) (tDate tNow : Z)
    (s s' : App) :
  handleFormSubmit title notes parsed tDate tNow s = Normal s' ->
  exists log, logs s' = logs s ++ [log] /\ entry_id log = make_id tNow.
Proof.
  intros H.
  apply handleFormSubmit_inversion in H as (log & layer & data & -> & _ & _ & Hid).
  by exists log.
Qed.

(** X3. After a step, every stored entry was stored before the step, or is
    the entry the step has just built. *)
Lemma step_keeps_entries (e : Event) (s s' : App) (l : LogEntry) :
  step e s = Normal s' ->
  l ∈ logs s' ->
  l ∈ logs s \/
  exists title notes parsed tDate tNow,
    e = FormSubmitted title notes parsed tDate tNow /\ entry_id l = make_id tNow.
Proof.
  intros Hstep Hin.
  assert (Hsame : logs s' = logs s -> l ∈ logs s \/
            exists title notes parsed tDate tNow,
              e = FormSubmitted title notes parsed tDate tNow /\
              entry_id l = make_id tNow)
    by (intros <-; by left).
  destruct e; cbn [step] in Hstep; simplify_eq;
    try (apply Hsame; first
      [ apply setMode_logs | by eapply handleMapClick_logs
      | apply handleKeydown_logs | by eapply handleLogClick_logs
      | apply deselectRoute_logs | reflexivity ]).
  - apply Hsame. unfold handleDoubleClick. case_match; [apply finishRoute_logs|done].
  - destruct (handleFormSubmit_logs _ _ _ _ _ _ _ Hstep) as (log & Hlogs & Hid).
    rewrite Hlogs in Hin. apply elem_of_app in Hin as [Hin|Hin]; [by left|].
    apply list_elem_of_singleton in Hin as ->. right. by do 5 eexists.
  - apply Hsame. unfold handleLogHover in Hstep.
    repeat case_match; simplify_eq; try done. by eapply animateRoute_logs.
  - apply Hsame. unfold handleLogLeave. repeat case_match; by store_frame.
  - destruct (confirmDelete_logs _ _ Hstep) as [Hlogs|[logId Hlogs]];
      [by apply Hsame|].
    rewrite Hlogs in Hin. apply list_elem_of_filter in Hin as [_ Hin]. by left.
Qed.

End StoreFrame.

(** ** Closing the loop *)

Section LoopClosing.
Context {M : Math}.

Lemma addRoutePoint_mode (p : coord) (s : App) : mode (addRoutePoint p s) = mode s.
Proof. unfold addRoutePoint. fields. by case_match. Qed.

(** C2. A click in route mode, with at least two points held and the
    clicked point less than 0.05 km from the first one, appends a copy of
    the first point (not the clicked point, and no vertex marker),
    recomputes the distance and finishes the route: the mode is left and
    the route form is opened.  The result is not that of a normal
    append. *)
Theorem close_loop_shortcut (s : App) (point : coord) :
  session_inv s ->
  mode s = ModeRoute ->
  (2 <= length (routePoints s))%nat ->
  (haversineDistance point (routePoints s !!! 0%nat) <? 0.05) = true ->
  exists (startPoint : coord) (s' : App),
    routePoints s !! 0%nat = Some startPoint /\
    handleMapClick point s = Normal s' /\
    routePoints s' = routePoints s ++ [startPoint] /\
    vertexMarkers s' = vertexMarkers s /\
    currentDistance s' = calculateTotalDistance (routePoints s ++ [startPoint]) /\
    mode s' = ModeNone /\ isDrawing s' = false /\
    formOpen s' = true /\ distanceFieldShown s' = true /\
    handleMapClick point s <> Normal (addRoutePoint point s).
Proof.
  intros [Hmode Hpoly] Hroute Hlen Hnear.
  destruct (Hpoly Hlen) as [polyline Hline].
  assert (Hpts : exists startPoint rest, routePoints s = startPoint :: rest).
  { destruct (routePoints s) as [|p0 rest]; [cbn in Hlen; lia|eauto]. }
  destruct Hpts as (startPoint & rest & Hpts).
  assert (Hfin : (length (routePoints s ++ [startPoint]) <? 2)%nat = false).
  { apply Nat.ltb_ge. rewrite length_app. lia. }
  assert (Hclick : handleMapClick point s =
            Normal (finishRoute
              (set_currentDistance (calculateTotalDistance (routePoints s ++ [startPoint]))
                (set_currentPolyline (Some (routePoints s ++ [startPoint]))
                  (set_routePoints (routePoints s ++ [startPoint]) s))))).
  { unfold handleMapClick. rewrite Hmode, Hroute.
    rewrite bool_decide_false by done. cbn [negb].
    apply Nat.leb_le in Hlen. rewrite Hlen, Hnear.
    unfold closeLoop. rewrite Hpts at 1. fields. by rewrite Hline. }
  exists startPoint. eexists. split; [by rewrite Hpts|]. split; [exact Hclick|].
  unfold finishRoute. fields. rewrite Hfin. unfold openForm. fields.
  repeat split.
  rewrite Hclick. unfold finishRoute. fields. rewrite Hfin.
  intros Heq. injection Heq as Heq.
  apply (f_equal mode) in Heq. rewrite addRoutePoint_mode in Heq.
  unfold openForm in Heq. fields. by rewrite Hroute in Heq.
Qed.

End LoopClosing.

(** The example session is reached by choosing the route mode and
    clicking the map twice. *)
Lemma twoPointSession_reachable :
  reachable (M := RefMath.host) (D := RefDate.host) twoPointSession.
Proof.
  apply (reachable_step (MapClicked (0, 0.001))
           (addRoutePoints (M := RefMath.host) [(0, 0)] (setMode ModeRoute initialApp)));
    [|vm_compute; reflexivity].
  apply (reachable_step (MapClicked (0, 0)) (setMode ModeRoute initialApp));
    [|vm_compute; reflexivity].
  apply (reachable_step DrawRouteClicked (startApp []));
    [|vm_compute; reflexivity].
  apply reachable_start.
Qed.

Lemma close_loop_shortcut_witness :
  session_inv twoPointSession /\
  mode twoPointSession = ModeRoute /\
  routePoints twoPointSession = [(0, 0); (0, 0.001)] /\
  (haversineDistance (M := RefMath.host) (0.00002, 0.00002) (0, 0) <? 0.05) = true /\
  exists s',
    handleMapClick (M := RefMath.host) (0.00002, 0.00002) twoPointSession = Normal s' /\
    routePoints s' = [(0, 0); (0, 0.001); (0, 0)] /\
    mode s' = ModeNone /\ formOpen s' = true.
Proof.
  assert (Hmode : mode twoPointSession = ModeRoute) by (vm_compute; reflexivity).
  assert (Hpoints : routePoints twoPointSession = [(0, 0); (0, 0.001)])
    by (vm_compute; reflexivity).
  assert (Hinv : session_inv twoPointSession)
    by exact (reachable_inv (M := RefMath.host) (D := RefDate.host) _
                twoPointSession_reachable).
  assert (Hnear : (haversineDistance (M := RefMath.host) (0.00002, 0.00002)
                     (routePoints twoPointSession !!! 0%nat) <? 0.05) = true)
    by (vm_compute; reflexivity).
  assert (Hnear' : (haversineDistance (M := RefMath.host) (0.00002, 0.00002)
                      (0, 0) <? 0.05) = true)
    by (vm_compute; reflexivity).
  assert (Hlen : (2 <= length (routePoints twoPointSession))%nat)
    by (rewrite Hpoints; cbn [length]; lia).
  split; [exact Hinv|]. split; [exact Hmode|]. split; [exact Hpoints|].
  split; [exact Hnear'|].
  destruct (close_loop_shortcut (M := RefMath.host) twoPointSession
              (0.00002, 0.00002) Hinv Hmode Hlen Hnear)
    as (startPoint & s' & Hstart & Hclick & Hpts & _ & _ & Hmode' & _ & Hform & _).
  exists s'. rewrite Hpoints in Hstart, Hpts.
  injection Hstart as <-.
  exact (conj Hclick (conj Hpts (conj Hmode' Hform))).
Defined.

(** ** Transitions that do not apply *)

(** C3, as the code has it.  [#finishRoute] with fewer than two points
    returns at once and leaves the whole state as it was.  [#setMode] is
    not rejected while a session is active: called with the mode that is
    active it toggles the session off (mode none, drawing off, points and
    polyline dropped, distance 0); called with another mode it switches to
    that mode and keeps the points and the distance. *)
Theorem finish_rejected_setMode_toggles (s : App) (m : Mode) :
  ((length (routePoints s) < 2)%nat -> finishRoute s = s) /\
  (mode s = m -> session (setMode m s) = (ModeNone, false, [], None, 0)) /\
  (mode s <> m ->
   session (setMode m s)
   = (m, true, routePoints s, currentPolyline s, currentDistance s)).
Proof.
  split; [|split].
  - intros Hlen. unfold finishRoute. apply Nat.ltb_lt in Hlen. by rewrite Hlen.
  - intros Hm. unfold setMode. by rewrite bool_decide_true.
  - intros Hm. unfold setMode. by rewrite bool_decide_false.
Qed.

Lemma finish_rejected_setMode_toggles_witness :
  ((length (routePoints onePointSession) < 2)%nat /\
   finishRoute onePointSession = onePointSession) /\
  (mode onePointSession = ModeRoute /\
   session (setMode ModeRoute onePointSession) = (ModeNone, false, [], None, 0)) /\
  (mode onePointSession <> ModeSpot /\
   session (setMode ModeSpot onePointSession)
   = (ModeSpot, true, [(0, 0)], None, 0)).
Proof.
  assert (Hlen : (length (routePoints onePointSession) < 2)%nat)
    by (vm_compute; lia).
  assert (Hne : mode onePointSession <> ModeSpot) by (vm_compute; discriminate).
  destruct (finish_rejected_setMode_toggles onePointSession ModeRoute) as (H1 & H2 & _).
  destruct (finish_rejected_setMode_toggles onePointSession ModeSpot) as (_ & _ & H3).
  split; [exact (conj Hlen (H1 Hlen))|].
  split; [exact (conj eq_refl (H2 eq_refl))|].
  exact (conj Hne (H3 Hne)).
Defined.

(** C3 as stated fails: a session in route mode holding one point is
    active, and calling [#setMode] on it changes its mode and, for the
    mode that is active, drops its points. *)
Lemma start_while_active_counterexample :
  mode onePointSession = ModeRoute /\
  routePoints onePointSession = [(0, 0)] /\
  mode (setMode ModeRoute onePointSession) = ModeNone /\
  routePoints (setMode ModeRoute onePointSession) = [] /\
  mode (setMode ModeSpot onePointSession) = ModeSpot.
Proof. by vm_compute. Qed.

(** ** Identifiers *)

Section Identifiers.

Lemma digitsLE_range (fuel : nat) (n : Z) :
  Forall (fun d => 0 <= d < 10)%Z (digitsLE fuel n).
Proof.
  revert n. induction fuel as [|fuel IH]; intros n; cbn [digitsLE]; [constructor|].
  constructor; [apply Z.mod_pos_bound; lia|].
  destruct (n <? 10)%Z; [constructor|apply IH].
Qed.

(** The first [k] digits stand for the number modulo [10 ^ k]. *)
Lemma digitsLE_value (fuel : nat) (n : Z) (k : nat) :
  (0 <= n < 2 ^ Z.of_nat fuel)%Z ->
  digitsValue (take k (digitsLE fuel n)) = (n mod 10 ^ Z.of_nat k)%Z.
Proof.
  revert n k. induction fuel as [|fuel IH]; intros n k Hn.
  - assert (n = 0%Z) as -> by (cbn in Hn; lia).
    cbn [digitsLE]. rewrite take_nil. cbn. by rewrite Z.mod_0_l by lia.
  - cbn [digitsLE]. destruct k as [|k].
    + cbn. by rewrite Z.mod_1_r.
    + cbn [take digitsValue].
      rewrite Nat2Z.inj_succ, Z.pow_succ_r by lia.
      rewrite Z.rem_mul_r by lia.
      destruct (n <? 10)%Z eqn:Hsmall.
      * apply Z.ltb_lt in Hsmall. rewrite take_nil. cbn [digitsValue].
        rewrite (Z.div_small n 10) by lia. rewrite Z.mod_0_l by lia. lia.
      * apply Z.ltb_ge in Hsmall. rewrite IH; [reflexivity|].
        rewrite Nat2Z.inj_succ, Z.pow_succ_r in Hn by lia.
        split; [apply Z.div_pos; lia|].
        apply Z.div_lt_upper_bound; lia.
Qed.

Lemma decimal_fuel (n : Z) :
  (0 <= n)%Z -> (0 <= n < 2 ^ Z.of_nat (S (Z.to_nat (Z.log2 n))))%Z.
Proof.
  intros Hn. split; [exact Hn|].
  rewrite Nat2Z.inj_succ, Z2Nat.id by apply Z.log2_nonneg.
  destruct (Z.eq_dec n 0%Z) as [->|Hpos]; [by cbn|].
  apply Z.log2_spec. lia.
Qed.

Lemma digitChar_inj (d1 d2 : Z) :
  (0 <= d1 < 10)%Z -> (0 <= d2 < 10)%Z -> digitChar d1 = digitChar d2 -> d1 = d2.
Proof.
  unfold digitChar. intros H1 H2 Heq.
  apply (f_equal N_of_ascii) in Heq.
  rewrite !N_ascii_embedding in Heq by lia. lia.
Qed.

Lemma digitChars_inj (l1 l2 : list Z) :
  Forall (fun d => 0 <= d < 10)%Z l1 ->
  Forall (fun d => 0 <= d < 10)%Z l2 ->
  digitChar <$> l1 = digitChar <$> l2 -> l1 = l2.
Proof.
  intros H1. revert l2. induction H1 as [|d1 l1 Hd1 _ IH]; intros l2 H2 Heq.
  - by destruct l2.
  - destruct H2 as [|d2 l2 Hd2 H2]; [done|].
    cbn in Heq. injection Heq as Hd Hl.
    f_equal; [by apply digitChar_inj|by apply IH].
Qed.

(** The identifier is made of the last ten digits of the reading. *)
Lemma make_id_digits (now : Z) :
  (0 <= now)%Z ->
  make_id now
  = string_of_list_ascii
      (rev (digitChar <$> take 10 (digitsLE (S (Z.to_nat (Z.log2 now))) now))).
Proof.
  intros Hnow. unfold make_id, Number_toString, String_slice, decimal.
  rewrite (proj2 (Z.ltb_ge now 0)) by lia.
  rewrite list_ascii_of_string_of_list_ascii.
  set (ds := digitChar <$> digitsLE _ now).
  cbn [Z.ltb Z.compare]. f_equal.
  rewrite length_rev, skipn_rev. f_equal.
  rewrite fmap_take. fold ds.
  destruct (decide (length ds <= 10)%nat) as [Hshort|Hlong].
  - rewrite (take_ge ds 10) by lia.
    apply take_ge. lia.
  - f_equal. lia.
Qed.

Lemma make_id_mod (t1 t2 : Z) :
  (0 <= t1)%Z -> (0 <= t2)%Z ->
  make_id t1 = make_id t2 -> (t1 mod 10 ^ 10 = t2 mod 10 ^ 10)%Z.
Proof.
  intros H1 H2 Heq. rewrite !make_id_digits in Heq by lia.
  apply (f_equal list_ascii_of_string) in Heq.
  rewrite !list_ascii_of_string_of_list_ascii in Heq.
  apply rev_inj, digitChars_inj in Heq.
  - apply (f_equal digitsValue) in Heq.
    by rewrite !digitsLE_value in Heq by by apply decimal_fuel.
  - apply Forall_take, digitsLE_range.
  - apply Forall_take, digitsLE_range.
Qed.

(** A number of at least [k] digits has [k] digits to take. *)
Lemma digitsLE_length (k fuel : nat) (n : Z) :
  (k <= fuel)%nat -> (10 ^ Z.of_nat k <= 10 * n)%Z ->
  (k <= length (digitsLE fuel n))%nat.
Proof.
  revert fuel n. induction k as [|k IH]; intros fuel n Hfuel Hn; [lia|].
  destruct fuel as [|fuel]; [lia|]. cbn [digitsLE length].
  rewrite Nat2Z.inj_succ, Z.pow_succ_r in Hn by lia.
  destruct k as [|k]; [lia|].
  assert (Hten : (10 <= 10 ^ Z.of_nat (S k))%Z).
  { rewrite Nat2Z.inj_succ, Z.pow_succ_r by lia.
    assert (0 < 10 ^ Z.of_nat k)%Z by (apply Z.pow_pos_nonneg; lia). lia. }
  rewrite (proj2 (Z.ltb_ge n 10)) by lia.
  apply le_n_S, IH; [lia|].
  pose proof (Z.div_mod n 10 ltac:(lia)) as Hdiv.
  pose proof (Z.mod_pos_bound n 10 ltac:(lia)) as Hmod.
  rewrite Nat2Z.inj_succ, Z.pow_succ_r in Hn |- * by lia.
  assert (10 ^ Z.of_nat k <= n / 10)%Z by (apply Z.div_le_lower_bound; lia).
  lia.
Qed.

(** Lists of digits of one length that stand for one number are equal. *)
Lemma digitsValue_inj (l1 l2 : list Z) :
  length l1 = length l2 ->
  Forall (fun d => 0 <= d < 10)%Z l1 ->
  Forall (fun d => 0 <= d < 10)%Z l2 ->
  digitsValue l1 = digitsValue l2 -> l1 = l2.
Proof.
  intros Hlen H1. revert l2 Hlen.
  induction H1 as [|d1 l1 Hd1 _ IH]; intros l2 Hlen H2 Heq.
  - by destruct l2.
  - destruct H2 as [|d2 l2 Hd2 H2]; [done|].
    cbn [digitsValue] in Heq. cbn [length] in Hlen.
    assert (d1 = d2) by lia. subst d2.
    f_equal. apply IH; [lia|done|lia].
Qed.

(** Readings of ten digits or more that agree modulo [10 ^ 10] give one
    identifier. *)
Lemma make_id_shared (t1 t2 : Z) :
  (10 ^ 9 <= t1)%Z -> (10 ^ 9 <= t2)%Z ->
  (t1 mod 10 ^ 10 = t2 mod 10 ^ 10)%Z -> make_id t1 = make_id t2.
Proof.
  intros H1 H2 Hmod. rewrite !make_id_digits by lia. do 3 f_equal.
  assert (Hfuel : forall t, (10 ^ 9 <= t)%Z -> (10 <= S (Z.to_nat (Z.log2 t)))%nat).
  { intros t Ht. pose proof (Z.log2_le_mono _ _ Ht) as Hlog.
    change (Z.log2 (10 ^ 9)) with 29%Z in Hlog. lia. }
  assert (Hlen : forall t, (10 ^ 9 <= t)%Z ->
            length (take 10 (digitsLE (S (Z.to_nat (Z.log2 t))) t)) = 10%nat).
  { intros t Ht. rewrite length_take.
    pose proof (digitsLE_length 10 _ t (Hfuel t Ht)) as Hk.
    change (Z.of_nat 10) with 10%Z in Hk. lia. }
  apply digitsValue_inj.
  - by rewrite !Hlen.
  - apply Forall_take, digitsLE_range.
  - apply Forall_take, digitsLE_range.
  - rewrite !digitsLE_value by (apply decimal_fuel; lia). exact Hmod.
Qed.

End Identifiers.

(** C4, as the code has it.  The identifier of an entry is fixed by the
    reading of the clock its constructor makes, and only
    [_restoreFromJSON] replaces it, by the persisted identifier.  Two
    entries built at distinct readings less than 10^10 milliseconds apart
    have distinct identifiers.  Two entries built at one reading share
    their identifier, and so do two entries built 10^10 milliseconds
    apart when the earlier reading has ten digits or more.  The
    identifier is made of the last ten digits of the reading, of all its
    digits when there are fewer. *)
Theorem ids_distinct_within_window (C C' : Type) (tDate tDate' t t' : Z)
    (c : C) (c' : C') :
  (0 <= t)%Z -> (t < t')%Z -> (t' - t < 10 ^ 10)%Z ->
  id (Log_new tDate t c) = make_id t /\
  id (Log_new tDate t c) <> id (Log_new tDate' t' c') /\
  (forall (data : LogJSON C) (l : Log C) (D : DateHost),
     id (Log_restoreFromJSON data l) = json_id data) /\
  id (Log_new tDate' t c') = id (Log_new tDate t c) /\
  ((10 ^ 9 <= t)%Z ->
   id (Log_new tDate' (t + 10 ^ 10) c') = id (Log_new tDate t c)) /\
  id (Log_new tDate t c)
  = string_of_list_ascii
      (rev (digitChar <$> take 10 (digitsLE (S (Z.to_nat (Z.log2 t))) t))).
Proof.
  intros Ht Hlt Hwin. split; [reflexivity|].
  split; [|split; [reflexivity|split; [reflexivity|split;
    [|by apply make_id_digits]]]].
  - cbn [id Log_new]. intros Heq. apply make_id_mod in Heq; [|lia|lia].
    assert (Hdiff : ((t' - t) mod 10 ^ 10 = 0)%Z).
    { rewrite Zminus_mod, Heq, Z.sub_diag. by apply Z.mod_0_l. }
    rewrite Z.mod_small in Hdiff by lia. lia.
  - intros Hten. cbn [id Log_new]. apply make_id_shared; [lia|lia|].
    rewrite <- (Z.mul_1_l (10 ^ 10)) at 1. by rewrite Z.mod_add by lia.
Qed.

Lemma ids_distinct_within_window_witness :
  (0 <= 1700000000000)%Z /\ (1700000000000 < 1700000000001)%Z /\
  (1700000000001 - 1700000000000 < 10 ^ 10)%Z /\
  (10 ^ 9 <= 1700000000000)%Z /\
  id (Log_new 1700000000000 1700000000000 (0, 0))
  <> id (Log_new 1700000000001 1700000000001 (0, 0)) /\
  id (Log_new 1700000000001 (1700000000000 + 10 ^ 10) (0, 0))
  = id (Log_new 1700000000000 1700000000000 (0, 0)).
Proof.
  assert (H1 : (0 <= 1700000000000)%Z) by lia.
  assert (H2 : (1700000000000 < 1700000000001)%Z) by lia.
  assert (H3 : (1700000000001 - 1700000000000 < 10 ^ 10)%Z) by lia.
  assert (H4 : (10 ^ 9 <= 1700000000000)%Z) by lia.
  repeat (split; [assumption|]).
  destruct (ids_distinct_within_window coord coord 1700000000000
              1700000000001 1700000000000 1700000000001 (0, 0) (0, 0)
              H1 H2 H3) as (_ & Hdistinct & _ & _ & Hshared & _).
  exact (conj Hdistinct (Hshared H4)).
Defined.

(** C4 as stated fails: two distinct spots built at one reading of the
    clock share their identifier, and so do two readings 10^10
    milliseconds apart.  Readings of fewer than ten digits are printed
    in full, and there the later reading has another identifier. *)
Lemma same_reading_counterexample :
  Spot_new 1700000000000 1700000000000 (0, 0) None None
  <> Spot_new 1700000000000 1700000000000 (1, 1) None None /\
  id (spot_log (Spot_new 1700000000000 1700000000000 (0, 0) None None))
  = id (spot_log (Spot_new 1700000000000 1700000000000 (1, 1) None None)) /\
  make_id 1700000000000 = make_id 1710000000000 /\
  make_id 5 = "5"%string /\ make_id 10000000005 = "0000000005"%string.
Proof.
  split; [|repeat split; reflexivity].
  intros H. apply (f_equal (fun s => (coords (spot_log s)).1 =? 0)) in H.
  vm_compute in H. discriminate.
Qed.

(** ** Pace *)

(** C7, as the code has it.  The pace of a route is 0 when its distance
    or its duration equals 0, and the quotient of duration by distance
    otherwise, in particular when both are positive; the division is only
    evaluated with a distance that is not 0.  When neither the distance
    nor the duration is below 0, this is the pace the specification
    gives: the quotient when both are positive, and 0 otherwise. *)
Theorem pace_guarded_by_zero (tDate tNow : Z) (coordsArray : list coord)
    (dist dur : float) (title notes : option string) :
  let r := Route_new tDate tNow coordsArray dist title (Some dur) notes in
  (((dist =? 0) = true \/ (dur =? 0) = true) -> pace r = 0) /\
  ((dist =? 0) = false -> (dur =? 0) = false -> pace r = dur / dist) /\
  ((0 <? dist) = true -> (0 <? dur) = true ->
   pace r = dur / dist /\ (dist =? 0) = false) /\
  pace (Route_new tDate tNow coordsArray dist title None notes) = 0 /\
  ((0 <=? dist) = true -> (0 <=? dur) = true ->
   pace r = if (0 <? dist) && (0 <? dur) then dur / dist else 0).
Proof.
  cbn [Route_new pace from_option Datatypes.id]. unfold calcPace.
  split; [|split; [|split; [|split]]].
  - intros [-> | ->]; [reflexivity|by rewrite orb_true_r].
  - by intros -> ->.
  - intros H1 H2. by rewrite (positive_not_zero _ H1), (positive_not_zero _ H2).
  - by rewrite orb_true_r.
  - intros H1 H2.
    destruct (nonnegative_cases _ H1) as [Hd|[Hd Hd0]];
      destruct (nonnegative_cases _ H2) as [Hu|[Hu Hu0]]; rewrite Hd, Hu.
    + by rewrite (positive_not_zero _ Hd), (positive_not_zero _ Hu).
    + by rewrite Hu0, orb_true_r.
    + by rewrite Hd0.
    + by rewrite Hd0.
Qed.

Lemma pace_guarded_by_zero_witness :
  ((0 <? 10) = true /\ (0 <? 50) = true /\
   pace (Route_new 0 0 [] 10 None (Some 50) None) = 5) /\
  ((0 =? 0) = true /\ pace (Route_new 0 0 [] 0 None (Some 50) None) = 0) /\
  ((50 =? 0) = false /\ (-10 =? 0) = false /\
   pace (Route_new 0 0 [] 50 None (Some (-10)) None) = -10 / 50).
Proof.
  destruct (pace_guarded_by_zero 0 0 [] 10 50 None None) as (_ & _ & H1 & _).
  destruct (pace_guarded_by_zero 0 0 [] 0 50 None None) as (H2 & _).
  destruct (pace_guarded_by_zero 0 0 [] 50 (-10) None None) as (_ & H3 & _).
  split; [|split].
  - split; [reflexivity|]. split; [reflexivity|].
    rewrite (proj1 (H1 eq_refl eq_refl)). reflexivity.
  - split; [reflexivity|]. exact (H2 (or_introl eq_refl)).
  - split; [reflexivity|]. split; [reflexivity|]. exact (H3 eq_refl eq_refl).
Defined.

(** C7 fails in the code: with a distance of 10 and a duration of -50
    the two are not both positive, and the pace is -5, not the 0 that
    [#updatePace], which guards with [> 0], shows for the same
    numbers. *)
Lemma negative_duration_counterexample :
  (0 <? -50) = false /\
  pace (Route_new 0 0 [] 10 None (Some (-50)) None) = -5 /\
  (-5 =? 0) = false /\
  updatePace (-50) (set_currentDistance 10 initialApp) = None.
Proof. repeat split. Qed.

(** ** Serialization *)

Section RoundTrip.
Context {D : DateHost}.

(** C5, as the code has it.  For a route and for a spot whose date is a
    valid time value that the host reads back from its ISO string,
    serializing succeeds and deserializing the result, at any later
    reading of the clock, reproduces the identifier, the date, the
    coordinates and every field of the variant; the pace of the route
    read back is the one its distance and duration give.  An entry whose
    date is invalid has no serialized form: [toJSON] throws a
    RangeError.  [fromJSON] builds such an entry from a record whose date
    string the host cannot read. *)
Theorem fromJSON_toJSON (tDate tNow : Z) :
  (forall (r : Route) (t : Z),
     date (route_log r) = TimeValue t ->
     Date_parse (Date_toISOString t) = Some t ->
     exists data,
       Route_toJSON r = Normal data /\
       let r' := Route_fromJSON tDate tNow data in
       id (route_log r') = id (route_log r) /\
       date (route_log r') = date (route_log r) /\
       coords (route_log r') = coords (route_log r) /\
       route_title r' = route_title r /\
       distance r' = distance r /\
       duration r' = duration r /\
       route_notes r' = route_notes r /\
       pace r' = calcPace (distance r) (duration r)) /\
  (forall (s : Spot) (t : Z),
     date (spot_log s) = TimeValue t ->
     Date_parse (Date_toISOString t) = Some t ->
     exists data,
       Spot_toJSON s = Normal data /\
       let s' := Spot_fromJSON tDate tNow data in
       id (spot_log s') = id (spot_log s) /\
       date (spot_log s') = date (spot_log s) /\
       coords (spot_log s') = coords (spot_log s) /\
       spot_title s' = spot_title s /\
       description s' = description s) /\
  (forall r : Route,
     date (route_log r) = InvalidDate -> Route_toJSON r = Throw RangeError) /\
  (forall s : Spot,
     date (spot_log s) = InvalidDate -> Spot_toJSON s = Throw RangeError) /\
  (forall data : RouteJSON,
     Date_parse (json_date (rj_log data)) = None ->
     date (route_log (Route_fromJSON tDate tNow data)) = InvalidDate) /\
  (forall data : SpotJSON,
     Date_parse (json_date (sj_log data)) = None ->
     date (spot_log (Spot_fromJSON tDate tNow data)) = InvalidDate).
Proof.
  split; [|split; [|split; [|split; [|split]]]].
  - intros r t Hdate Hparse. unfold Route_toJSON, Log_toJSON. rewrite Hdate.
    run. eexists. split; [reflexivity|].
    cbn. unfold Date_of_string. rewrite Hparse. by repeat split.
  - intros s t Hdate Hparse. unfold Spot_toJSON, Log_toJSON. rewrite Hdate.
    run. eexists. split; [reflexivity|].
    cbn. unfold Date_of_string. rewrite Hparse. by repeat split.
  - intros r Hdate. unfold Route_toJSON, Log_toJSON. by rewrite Hdate.
  - intros s Hdate. unfold Spot_toJSON, Log_toJSON. by rewrite Hdate.
  - intros data Hparse. cbn. unfold Date_of_string. by rewrite Hparse.
  - intros data Hparse. cbn. unfold Date_of_string. by rewrite Hparse.
Qed.

End RoundTrip.

Lemma fromJSON_toJSON_witness :
  (date (route_log exampleRoute) = TimeValue 1700000000000 /\
   RefDate.parse (RefDate.toISOString 1700000000000) = Some 1700000000000%Z /\
   exists data,
     Route_toJSON (D := RefDate.host) exampleRoute = Normal data /\
     json_date (rj_log data) = "2023-11-14T22:13:20.000Z"%string /\
     route_log (Route_fromJSON (D := RefDate.host) 1800000000000 1800000000000 data)
     = route_log exampleRoute) /\
  (date (spot_log exampleSpot) = TimeValue 1700000000123 /\
   RefDate.parse (RefDate.toISOString 1700000000123) = Some 1700000000123%Z /\
   exists data,
     Spot_toJSON (D := RefDate.host) exampleSpot = Normal data /\
     Spot_fromJSON (D := RefDate.host) 1800000000000 1800000000000 data = exampleSpot).
Proof.
  destruct (fromJSON_toJSON (D := RefDate.host) 1800000000000 1800000000000)
    as (HR & HS & _).
  assert (H1 : RefDate.parse (RefDate.toISOString 1700000000000) = Some 1700000000000%Z)
    by (vm_compute; reflexivity).
  assert (H2 : RefDate.parse (RefDate.toISOString 1700000000123) = Some 1700000000123%Z)
    by (vm_compute; reflexivity).
  split.
  - split; [reflexivity|]. split; [exact H1|].
    destruct (HR exampleRoute 1700000000000%Z eq_refl H1) as (data & Hjson & _).
    exists data. split; [exact Hjson|].
    vm_compute in Hjson. injection Hjson as <-.
    split; vm_compute; reflexivity.
  - split; [reflexivity|]. split; [exact H2|].
    destruct (HS exampleSpot 1700000000123%Z eq_refl H2) as (data & Hjson & _).
    exists data. split; [exact Hjson|].
    vm_compute in Hjson. injection Hjson as <-.
    vm_compute; reflexivity.
Defined.

(** C5 as stated fails: a spot read from a record whose date the host
    cannot read is an entry of the collection, and it has no serialized
    form to read back. *)
Lemma undated_entry_counterexample :
  RefDate.parse "yesterday" = None /\
  date (spot_log undatedSpot) = InvalidDate /\
  Spot_toJSON (D := RefDate.host) undatedSpot = Throw RangeError.
Proof. repeat split. Qed.

(** ** Hovering and deleting *)

Section EntryList.
Context {D : DateHost}.

(** C9. Hovering the card of the entry that is selected returns at once:
    the whole state, and with it the animation of the selected entry,
    every other animation and the selection, is left as it was. *)
Theorem hover_selected_changes_nothing (logId : string) (s : App) :
  selectedRouteId s = Some logId ->
  handleLogHover (Some logId) s = Normal s.
Proof.
  intros Hsel. unfold handleLogHover. by rewrite bool_decide_true.
Qed.

(** C10. Cancelling a deletion only clears the pending id and closes the
    dialog: the entries, the layers, the animations, the selection and
    the drawing session are left as they were.  Confirming with no
    pending id returns at once and leaves the whole state as it was. *)
Theorem cancel_path_removes_nothing (s : App) :
  tables (cancelDelete s) = tables s /\
  selectedRouteId (cancelDelete s) = selectedRouteId s /\
  session (cancelDelete s) = session s /\
  pendingDeleteId (cancelDelete s) = None /\
  (pendingDeleteId s = None -> confirmDelete s = Normal s).
Proof.
  repeat split. intros Hnone. unfold confirmDelete. by rewrite Hnone.
Qed.

End EntryList.

Lemma hover_selected_changes_nothing_witness :
  selectedRouteId selectedStore = Some "0000000000"%string /\
  activeAnimations selectedStore !! "0000000000"%string = Some 1%nat /\
  handleLogHover (Some "0000000000"%string) selectedStore = Normal selectedStore /\
  (* hovering the same card while nothing is selected starts an animation *)
  (selectedRouteId exampleStore = None /\
   activeAnimations exampleStore !! "0000000000"%string = None /\
   (s ← handleLogHover (Some "0000000000"%string) exampleStore;
    mret (activeAnimations s !! "0000000000"%string)) = Normal (Some 1%nat)).
Proof.
  assert (Hsel : selectedRouteId selectedStore = Some "0000000000"%string)
    by (vm_compute; reflexivity).
  split; [exact Hsel|]. split; [vm_compute; reflexivity|].
  split; [|repeat split; vm_compute; reflexivity].
  exact (hover_selected_changes_nothing "0000000000"%string selectedStore Hsel).
Defined.

Lemma cancel_path_removes_nothing_witness :
  pendingDeleteId selectedStore = None /\
  confirmDelete (D := RefDate.host) selectedStore = Normal selectedStore /\
  logs (cancelDelete (deleteLog "0000000000"%string selectedStore))
  = logs selectedStore.
Proof.
  assert (Hnone : pendingDeleteId selectedStore = None) by (vm_compute; reflexivity).
  split; [exact Hnone|]. split.
  - exact (proj2 (proj2 (proj2 (proj2
             (cancel_path_removes_nothing (D := RefDate.host) selectedStore)))) Hnone).
  - vm_compute; reflexivity.
Defined.

(** ** Loading *)

Section Loading.
Context {entry : Type}.
Context (Route_fromJSON_value Spot_fromJSON_value : JSON -> completion entry).
Context (JSON_parse : string -> completion JSON).

#[local] Abbreviation callback :=
  (loadRecord Route_fromJSON_value Spot_fromJSON_value).

Lemma loadRecord_null : callback JNull = Throw TypeError.
Proof. reflexivity. Qed.

(** A record whose [type] is neither ['route'] nor ['spot'] is dropped. *)
Lemma loadRecord_unknown_type (members : list (string * JSON)) :
  strict_eq_string (member "type" members) "route" = false ->
  strict_eq_string (member "type" members) "spot" = false ->
  callback (JObj members) = Normal None.
Proof. unfold loadRecord. cbn. by intros -> ->. Qed.

(** Mapping the callback over an array that holds [null] throws, at that
    record or at an earlier one. *)
Lemma map_throws_at_null (before after : list JSON) :
  exists e, mapM callback (before ++ JNull :: after) = Throw e.
Proof.
  induction before as [|obj before [e IH]]; cbn [app mapM].
  - rewrite loadRecord_null. by eexists.
  - destruct (callback obj) as [o|e']; run; [|by eexists].
    fold (mapM callback (before ++ JNull :: after)). rewrite IH. by eexists.
Qed.

(** C6 fails on the code at a [null] record: when the stored array holds
    [null] anywhere, the whole load is abandoned and the collection is
    left empty, whatever the other records are. *)
Theorem null_record_empties_collection (text : string) (before after : list JSON)
    (logs : list entry) :
  text <> EmptyString ->
  JSON_parse text = Normal (JArr (before ++ JNull :: after)) ->
  loadFromLocalStorage Route_fromJSON_value Spot_fromJSON_value JSON_parse
    (Some text) logs = [].
Proof.
  intros Htext Hparse. unfold loadFromLocalStorage.
  rewrite bool_decide_false by done. rewrite Hparse. run.
  unfold loadRecords.
  destruct (map_throws_at_null before after) as [e He].
  run. by rewrite He.
Qed.

End Loading.

Lemma loadRecord_kept {entry : Type} (routeOf spotOf : JSON -> entry) (obj : JSON) :
  obj <> JNull ->
  loadRecord (fun obj => Normal (routeOf obj)) (fun obj => Normal (spotOf obj)) obj
  = Normal (kept_entry routeOf spotOf obj).
Proof.
  intros Hobj. unfold loadRecord, kept_entry.
  destruct obj as [|b|x|str|arr|members]; try done.
  cbn [read_type]. run.
  destruct (strict_eq_string (member "type" members) "route"); [done|].
  by destruct (strict_eq_string (member "type" members) "spot").
Qed.

(** When no record is [null] and the deserializers do not throw, the load
    keeps the records of type ['route'] and ['spot'], in order, and drops
    the others. *)
Lemma load_keeps_recognised {entry : Type} (routeOf spotOf : JSON -> entry)
    (items : list JSON) :
  Forall (fun obj => obj <> JNull) items ->
  loadRecords (fun obj => Normal (routeOf obj)) (fun obj => Normal (spotOf obj))
    (JArr items)
  = Normal (omap (kept_entry routeOf spotOf) items).
Proof.
  intros Hitems. unfold loadRecords.
  assert (Hmap : mapM (loadRecord (fun obj => Normal (routeOf obj))
                                  (fun obj => Normal (spotOf obj))) items
                 = Normal (kept_entry routeOf spotOf <$> items)).
  { induction Hitems as [|obj items Hobj _ IH]; [reflexivity|].
    cbn [mapM fmap list_fmap]. by rewrite IH, loadRecord_kept. }
  rewrite Hmap. run. f_equal. clear Hmap Hitems.
  induction items as [|obj items IH]; [reflexivity|].
  cbn [fmap list_fmap omap list_omap]. rewrite IH.
  by destruct (kept_entry routeOf spotOf obj).
Qed.

Lemma null_record_empties_collection_witness :
  "[null,{}]"%string <> EmptyString /\
  loadFromLocalStorage keepRecord keepRecord (fun _ => Normal storedWithNull)
    (Some "[null,{}]"%string) [] = [] /\
  loadFromLocalStorage keepRecord keepRecord (fun _ => Normal (JArr [storedSpot]))
    (Some "[{}]"%string) [] = [storedSpot].
Proof.
  assert (Htext : "[null,{}]"%string <> EmptyString) by discriminate.
  split; [exact Htext|]. split; [|reflexivity].
  exact (null_record_empties_collection keepRecord keepRecord
           (fun _ => Normal storedWithNull) "[null,{}]"%string [] [storedSpot] []
           Htext eq_refl).
Defined.

(** ** The distance formula *)

Section Haversine.
Context {M : Math}.

Lemma haversineDistance_a (coord1 coord2 : coord) :
  haversineDistance coord1 coord2
  = 6371 * 2 * Math_atan2 (sqrt (haversine_a coord1 coord2))
                          (sqrt (1 - haversine_a coord1 coord2)).
Proof. reflexivity. Qed.


(** On every host, a difference of longitudes large enough to overflow
    in the conversion to radians gives NaN: the sine of an infinity is
    NaN, and NaN goes through the sum, the square root and the arc
    tangent. *)
Lemma haversine_overflow_nan :
  MathSpecialValues M ->
  haversineDistance (0, 0) (0, 0x1.fffffffffffffp+1023) = nan.
Proof.
  intros HM. unfold haversineDistance. cbn [fst snd].
  change ((0x1.fffffffffffffp+1023 - 0) * Math_PI / 180 / 2) with infinity.
  rewrite (sin_infinity M HM), (pow2_nan M HM), mul_nan_r, add_nan_r.
  change (sqrt nan) with nan.
  by rewrite (atan2_nan_l M HM).
Qed.

End Haversine.

Lemma RefMath_special_values : MathSpecialValues RefMath.host.
Proof.
  split; try reflexivity.
  intros y. cbn. unfold RefMath.atan2. by destruct (is_nan y).
Qed.



(** * Further properties of the application *)

(** ** The tooltip *)

Section Preview.
Context {M : Math}.

Lemma lookup_total_last (p0 : coord) (rest : list coord) :
  (p0 :: rest) !!! (length (p0 :: rest) - 1)%nat = List.last rest p0.
Proof.
  revert p0. induction rest as [|q rest IH]; intros p0; [reflexivity|].
  cbn [length]. replace (S (S (length rest)) - 1)%nat with (S (length rest)) by lia.
  change ((p0 :: q :: rest) !!! S (length rest)) with ((q :: rest) !!! length rest).
  specialize (IH q). cbn [length] in IH.
  replace (S (length rest) - 1)%nat with (length rest) in IH by lia.
  rewrite IH. destruct rest as [|r rest]; [reflexivity|].
  exact (last_cons_default rest r q p0).
Qed.

(** X1. While a route is being drawn and the live distance is fresh, the
    total shown by the tooltip at a position is exactly the live distance
    the session has once that position is appended. *)
Theorem tooltip_previews_append (latlng : coord) (s : App) :
  mode s = ModeRoute ->
  routePoints s <> [] ->
  distance_fresh s ->
  handleMouseMove latlng s = Some (currentDistance (addRoutePoint latlng s)).
Proof.
  intros Hmode Hpts Hfresh. unfold handleMouseMove.
  rewrite Hmode, bool_decide_true by done. cbn [negb orb].
  destruct (routePoints s) as [|p0 rest] eqn:Hrp; [done|].
  rewrite bool_decide_false by done. f_equal.
  rewrite lookup_total_last.
  unfold addRoutePoint. fields. rewrite Hrp.
  assert (Hlen : (2 <=? length ((p0 :: rest) ++ [latlng]))%nat = true).
  { apply Nat.leb_le. rewrite length_app. cbn [length]. lia. }
  rewrite Hlen. fields.
  unfold distance_fresh in Hfresh. rewrite Hfresh, Hrp.
  rewrite !calculateTotalDistance_pathLength.
  symmetry. apply walk_pairs_snoc.
Qed.

End Preview.

Lemma tooltip_previews_append_witness :
  mode twoPointSession = ModeRoute /\
  routePoints twoPointSession <> [] /\
  handleMouseMove (M := RefMath.host) (0.001, 0.001) twoPointSession
  = Some (currentDistance
            (addRoutePoint (M := RefMath.host) (0.001, 0.001) twoPointSession)).
Proof.
  assert (Hmode : mode twoPointSession = ModeRoute) by (vm_compute; reflexivity).
  assert (Hpts : routePoints twoPointSession <> [])
    by (vm_compute; discriminate).
  assert (Hfresh : distance_fresh (M := RefMath.host) twoPointSession)
    by (vm_compute; reflexivity).
  split; [exact Hmode|]. split; [exact Hpts|].
  exact (tooltip_previews_append (M := RefMath.host) (0.001, 0.001)
           twoPointSession Hmode Hpts Hfresh).
Defined.

(** ** The animation tables *)

Section AnimationTables.
Context {M : Math} {D : DateHost}.

Lemma tables_inv_ext (s s' : App) :
  animTables s' = animTables s -> tables_inv s -> tables_inv s'.
Proof.
  unfold animTables, tables_inv. intros H Hinv.
  injection H as -> -> -> -> ->. exact Hinv.
Qed.

(** Under the invariant, stopping the animation of an entry removes its
    row from both tables and its frame from the pending frames, and
    touches nothing else. *)
Lemma stopRouteAnimation_tables (logId : string) (s : App) :
  tables_inv s ->
  activeAnimations (stopRouteAnimation logId s) = delete logId (activeAnimations s) /\
  animationLayers (stopRouteAnimation logId s) = delete logId (animationLayers s) /\
  pendingFrames (stopRouteAnimation logId s) = pendingFrames s ∖ registeredFrame logId s /\
  nextFrameId (stopRouteAnimation logId s) = nextFrameId s /\
  drawnLayers (stopRouteAnimation logId s) = drawnLayers s /\
  selectedRouteId (stopRouteAnimation logId s) = selectedRouteId s /\
  pendingDeleteId (stopRouteAnimation logId s) = pendingDeleteId s.
Proof.
  intros (Hnext & Hact & _ & _ & Hiff & _).
  unfold stopRouteAnimation, registeredFrame.
  destruct (activeAnimations s !! logId) as [f|] eqn:Hf.
  - destruct (Hact _ _ Hf) as [[Hpos _] _].
    rewrite bool_decide_false by lia. fields.
    destruct (proj1 (Hiff logId) (ex_intro _ f Hf)) as [layer Hlayer].
    rewrite Hlayer. by fields.
  - fields.
    destruct (animationLayers s !! logId) as [layer|] eqn:Hlayer.
    + destruct (proj2 (Hiff logId) (ex_intro _ layer Hlayer)) as [f Hf'].
      congruence.
    + rewrite (delete_id _ _ Hf), (delete_id _ _ Hlayer).
      repeat split. by rewrite difference_empty_L.
Qed.

Lemma stopRouteAnimation_tables_inv (logId : string) (s : App) :
  tables_inv s -> tables_inv (stopRouteAnimation logId s).
Proof.
  intros Hinv.
  destruct (stopRouteAnimation_tables logId s Hinv)
    as (Ha & Hl & Hp & Hn & Hd & _).
  destruct Hinv as (Hnext & Hact & Hpend & Hinj & Hiff & Hdrawn).
  unfold tables_inv. rewrite Ha, Hl, Hp, Hn, Hd. unfold registeredFrame.
  split; [exact Hnext|]. split; [|split; [|split; [|split]]].
  - intros id f Hf. apply lookup_delete_Some in Hf as [Hne Hf].
    destruct (Hact _ _ Hf) as [Hrange Hin]. split; [exact Hrange|].
    apply elem_of_difference. split; [exact Hin|].
    destruct (activeAnimations s !! logId) as [f0|] eqn:Hf0; [|set_solver].
    intros Heq. apply elem_of_singleton in Heq as ->.
    by specialize (Hinj _ _ _ Hf Hf0).
  - intros f Hin. apply elem_of_difference in Hin as [Hin Hnot].
    destruct (Hpend _ Hin) as [id Hf]. exists id.
    apply lookup_delete_Some. split; [|exact Hf].
    intros <-. rewrite Hf in Hnot. set_solver.
  - intros id id' f Hf Hf'.
    apply lookup_delete_Some in Hf as [_ Hf].
    apply lookup_delete_Some in Hf' as [_ Hf']. eauto.
  - intros id. destruct (decide (logId = id)) as [->|Hne].
    + rewrite !lookup_delete_eq. split; intros [x Hx]; done.
    + rewrite !lookup_delete_ne by done. apply Hiff.
  - intros id [layer Hlayer]. apply lookup_delete_Some in Hlayer as [_ Hlayer].
    apply Hdrawn. by eexists.
Qed.

Lemma resetLayerStyle_tables_inv (logId : string) (s : App) :
  tables_inv s -> tables_inv (resetLayerStyle logId s).
Proof.
  intros Hinv. unfold resetLayerStyle.
  destruct (drawnLayers s !! logId) as [[latlngs style|p]|]; try exact Hinv.
  destruct Hinv as (Hnext & Hact & Hpend & Hinj & Hiff & Hdrawn).
  unfold tables_inv. fields.
  split; [exact Hnext|]. split; [exact Hact|]. split; [exact Hpend|].
  split; [exact Hinj|]. split; [exact Hiff|].
  intros id Hlayer. apply lookup_insert_is_Some'. right. by apply Hdrawn.
Qed.

Lemma renderLogOnMap_tables_inv (log : LogEntry) (s s' : App) :
  tables_inv s -> renderLogOnMap log s = Normal s' -> tables_inv s'.
Proof.
  intros (Hnext & Hact & Hpend & Hinj & Hiff & Hdrawn) Hrender.
  apply renderLogOnMap_normal in Hrender as [layer ->].
  unfold tables_inv. fields.
  split; [exact Hnext|]. split; [exact Hact|]. split; [exact Hpend|].
  split; [exact Hinj|]. split; [exact Hiff|].
  intros id Hlayer. apply lookup_insert_is_Some'. right. by apply Hdrawn.
Qed.

(** Starting an animation registers one new frame, under an identifier
    no registered frame has. *)
Lemma animateRoute_tables_inv (logId : string) (coords : list coord) (s s' : App) :
  tables_inv s -> animateRoute logId coords s = Normal s' -> tables_inv s'.
Proof.
  intros Hinv H. unfold animateRoute in H.
  pose proof (stopRouteAnimation_tables_inv logId s Hinv) as Hinv1.
  destruct (stopRouteAnimation_tables logId s Hinv) as (Ha & Hl & _).
  set (s1 := stopRouteAnimation logId s) in *.
  assert (Hfree : activeAnimations s1 !! logId = None)
    by (rewrite Ha; apply lookup_delete_eq).
  destruct (drawnLayers s1 !! logId) as [[latlngs style|p]|]; simplify_eq;
    [|exact Hinv1].
  destruct Hinv1 as (Hnext & Hact & Hpend & Hinj & Hiff & Hdrawn).
  unfold tables_inv. fields.
  split; [lia|]. split; [|split; [|split; [|split]]].
  - intros id f Hf. apply lookup_insert_Some in Hf as [[<- <-]|[Hne Hf]].
    + split; [lia|]. apply elem_of_union. left. by apply elem_of_singleton.
    + destruct (Hact _ _ Hf) as [Hrange Hin]. split; [lia|].
      apply elem_of_union. by right.
  - intros f Hin. apply elem_of_union in Hin as [Hin|Hin].
    + apply elem_of_singleton in Hin as ->. exists logId. apply lookup_insert_eq.
    + destruct (Hpend _ Hin) as [id Hf]. exists id.
      rewrite lookup_insert_ne; [exact Hf|]. intros <-. congruence.
  - intros id id' f Hf Hf'.
    apply lookup_insert_Some in Hf as [[<- <-]|[Hne Hf]];
      apply lookup_insert_Some in Hf' as [[<- Heq]|[Hne' Hf']]; try done.
    + destruct (Hact _ _ Hf') as [Hrange _]. lia.
    + destruct (Hact _ _ Hf) as [Hrange _]. lia.
    + eauto.
  - intros id. rewrite !lookup_insert_is_Some'.
    split; (intros [Heq|Hsome]; [by left|right; by apply Hiff]).
  - intros id. rewrite !lookup_insert_is_Some'.
    intros [Heq|Hsome]; [by left|right; by apply Hdrawn].
Qed.

Lemma deselectRoute_tables_inv (s : App) : tables_inv s -> tables_inv (deselectRoute s).
Proof.
  intros Hinv. unfold deselectRoute.
  destruct (selectedRouteId s) as [logId|]; [|exact Hinv].
  destruct (truthy (Some logId)); [|exact Hinv].
  apply resetLayerStyle_tables_inv, stopRouteAnimation_tables_inv.
  revert Hinv. by apply tables_inv_ext.
Qed.

Lemma saveToLocalStorage_animTables (s s' : App) :
  saveToLocalStorage s = Normal s' -> animTables s' = animTables s.
Proof.
  unfold saveToLocalStorage. intros H.
  destruct (mapM entry_toJSON (logs s)); run; by simplify_eq.
Qed.

Lemma handleLogClick_tables_inv (target : ClickTarget) (s s' : App) :
  tables_inv s -> handleLogClick target s = Normal s' -> tables_inv s'.
Proof.
  intros Hinv H. unfold handleLogClick, deleteLog in H.
  destruct target as [logId|cardId|]; simplify_eq; [by case_match| |done].
  destruct (findLog cardId s) as [log|]; [|by simplify_eq].
  match type of H with context [set_selectedRouteId _ ?t] =>
    assert (Hinv1 : tables_inv t)
  end.
  { destruct (selectedRouteId s) as [selected|]; [|exact Hinv].
    destruct (truthy (Some selected) && _); [|exact Hinv].
    by apply resetLayerStyle_tables_inv, stopRouteAnimation_tables_inv. }
  destruct log as [r|sp].
  - destruct (coords (route_log r)); [done|].
    eapply animateRoute_tables_inv; [|exact H]. revert Hinv1. by apply tables_inv_ext.
  - simplify_eq. revert Hinv1. by apply tables_inv_ext.
Qed.

Lemma handleLogHover_tables_inv (card : option string) (s s' : App) :
  tables_inv s -> handleLogHover card s = Normal s' -> tables_inv s'.
Proof.
  intros Hinv H. unfold handleLogHover in H.
  repeat case_match; simplify_eq; try done. by eapply animateRoute_tables_inv.
Qed.

Lemma handleLogLeave_tables_inv (card : option string) (s : App) :
  tables_inv s -> tables_inv (handleLogLeave card s).
Proof.
  intros Hinv. unfold handleLogLeave.
  repeat case_match; try done.
  by apply resetLayerStyle_tables_inv, stopRouteAnimation_tables_inv.
Qed.

Lemma confirmDelete_tables_inv (s s' : App) :
  tables_inv s -> confirmDelete s = Normal s' -> tables_inv s'.
Proof.
  intros Hinv H. unfold confirmDelete in H.
  destruct (pendingDeleteId s) as [logId|]; [|by simplify_eq].
  destruct (negb (truthy (Some logId))); [by simplify_eq|].
  set (s0 := if bool_decide (selectedRouteId s = Some logId)
             then deselectRoute s else s) in H.
  assert (Hinv0 : tables_inv s0).
  { subst s0. destruct (bool_decide _); [by apply deselectRoute_tables_inv|done]. }
  pose proof (stopRouteAnimation_tables_inv logId s0 Hinv0) as Hinv1.
  destruct (stopRouteAnimation_tables logId s0 Hinv0) as (_ & Hl & _).
  set (s1 := stopRouteAnimation logId s0) in *.
  match type of H with context [saveToLocalStorage ?t] =>
    destruct (saveToLocalStorage t) as [s2|] eqn:Hsave
  end; run; [|done].
  apply saveToLocalStorage_animTables in Hsave. injection H as <-.
  eapply tables_inv_ext; [transitivity (animTables s2); [reflexivity|exact Hsave]|].
  eapply tables_inv_ext; [reflexivity|].
  destruct (drawnLayers s1 !! logId) as [layer|]; [|exact Hinv1].
  destruct Hinv1 as (Hnext & Hact & Hpend & Hinj & Hiff & Hdrawn).
  unfold tables_inv. fields.
  split; [exact Hnext|]. split; [exact Hact|]. split; [exact Hpend|].
  split; [exact Hinj|]. split; [exact Hiff|].
  intros id Hlayer. rewrite lookup_delete_ne; [by apply Hdrawn|].
  intros <-. rewrite Hl, lookup_delete_eq in Hlayer. by destruct Hlayer.
Qed.

Lemma handleFormSubmit_tables_inv (title notes : string) (parsed : float) (tDate tNow : Z)
    (s s' : App) :
  tables_inv s -> handleFormSubmit title notes parsed tDate tNow s = Normal s' ->
  tables_inv s'.
Proof.
  intros Hinv H.
  apply handleFormSubmit_inversion in H
    as (log & layer & data & -> & Hrender & _).
  assert (Hinv0 : tables_inv (set_logs (logs s ++ [log]) s))
    by (revert Hinv; by apply tables_inv_ext).
  pose proof (renderLogOnMap_tables_inv _ _ _ Hinv0 Hrender) as Hinv1.
  revert Hinv1. by apply tables_inv_ext.
Qed.

Lemma handleMapClick_animTables (p : coord) (s s' : App) :
  handleMapClick p s = Normal s' -> animTables s' = animTables s.
Proof.
  unfold handleMapClick, closeLoop, finishRoute, addSpot, openForm, addRoutePoint.
  intros H. repeat case_match; by simplify_eq.
Qed.

Lemma renderLogs_tables (loaded : list LogEntry) (s : App) :
  tables_inv s -> tables_inv (renderLogs loaded s).
Proof.
  revert s. induction loaded as [|log rest IH]; intros s Hs; [exact Hs|].
  cbn [renderLogs].
  destruct (renderLogOnMap log s) as [s1|] eqn:Hrender; [|exact Hs].
  by eapply IH, renderLogOnMap_tables_inv.
Qed.

Lemma startApp_tables (loaded : list LogEntry) : tables_inv (startApp loaded).
Proof.
  apply renderLogs_tables. unfold tables_inv. cbn.
  split; [lia|]. split; [|split; [|split; [|split]]].
  - intros logId f Hf. by rewrite lookup_empty in Hf.
  - intros f Hin. by apply elem_of_empty in Hin.
  - intros logId logId' f Hf. by rewrite lookup_empty in Hf.
  - intros logId. rewrite !lookup_empty. split; intros [x Hx]; done.
  - intros logId. rewrite !lookup_empty. intros [x Hx]; done.
Qed.

Lemma step_tables (e : Event) (s s' : App) :
  tables_inv s -> step e s = Normal s' -> tables_inv s'.
Proof.
  intros Hinv H. destruct e; cbn [step] in H.
  - simplify_eq. revert Hinv. apply tables_inv_ext.
    unfold setMode. by repeat case_match.
  - simplify_eq. revert Hinv. apply tables_inv_ext.
    unfold setMode. by repeat case_match.
  - revert Hinv. apply tables_inv_ext. by eapply handleMapClick_animTables.
  - simplify_eq. revert Hinv. apply tables_inv_ext.
    unfold handleDoubleClick, finishRoute, openForm. by repeat case_match.
  - simplify_eq. revert Hinv. apply tables_inv_ext.
    unfold handleKeydown, cancelDrawing, finishRoute, openForm, setMode.
    by repeat case_match.
  - simplify_eq. revert Hinv. by apply tables_inv_ext.
  - by eapply handleFormSubmit_tables_inv.
  - by eapply handleLogHover_tables_inv.
  - simplify_eq. by apply handleLogLeave_tables_inv.
  - by eapply handleLogClick_tables_inv.
  - by eapply confirmDelete_tables_inv.
  - simplify_eq. revert Hinv. by apply tables_inv_ext.
  - simplify_eq. by apply deselectRoute_tables_inv.
Qed.

Lemma animationFrame_tables_inv (logId : string) (frameId : nat) (shown : list coord)
    (style : PathStyle) (s : App) :
  tables_inv s ->
  activeAnimations s !! logId = Some frameId ->
  tables_inv (animationFrame logId frameId shown style s).
Proof.
  intros (Hnext & Hact & Hpend & Hinj & Hiff & Hdrawn) Hframe.
  unfold tables_inv, animationFrame. fields.
  split; [lia|]. split; [|split; [|split; [|split]]].
  - intros id f Hf. apply lookup_insert_Some in Hf as [[<- <-]|[Hne Hf]].
    + split; [lia|]. apply elem_of_union. left. by apply elem_of_singleton.
    + destruct (Hact _ _ Hf) as [Hrange Hin]. split; [lia|].
      apply elem_of_union. right. apply elem_of_difference. split; [exact Hin|].
      intros Heq. apply elem_of_singleton in Heq as ->.
      by specialize (Hinj _ _ _ Hf Hframe).
  - intros f Hin. apply elem_of_union in Hin as [Hin|Hin].
    + apply elem_of_singleton in Hin as ->. exists logId. apply lookup_insert_eq.
    + apply elem_of_difference in Hin as [Hin Hnot].
      destruct (Hpend _ Hin) as [id Hf]. exists id.
      rewrite lookup_insert_ne; [exact Hf|].
      intros <-. rewrite Hframe in Hf. injection Hf as <-.
      apply Hnot. by apply elem_of_singleton.
  - intros id id' f Hf Hf'.
    apply lookup_insert_Some in Hf as [[<- <-]|[Hne Hf]];
      apply lookup_insert_Some in Hf' as [[<- Heq]|[Hne' Hf']]; try done.
    + destruct (Hact _ _ Hf') as [Hrange _]. lia.
    + destruct (Hact _ _ Hf) as [Hrange _]. lia.
    + eauto.
  - intros id. rewrite !lookup_insert_is_Some'.
    split; (intros [Heq|Hsome]; [by left|right; by apply Hiff]).
  - intros id. rewrite lookup_insert_is_Some'.
    intros [<-|Hsome]; apply Hdrawn; [|exact Hsome].
    apply Hiff. by eexists.
Qed.

Lemma reachable_running (s : App) : reachable s -> running s.
Proof.
  induction 1 as [loaded|e s s' _ IH Hstep].
  - apply running_start.
  - by eapply running_step.
Qed.

(** X7. In every state reached from the start through handlers that
    return and animation frames, the animation tables agree: each running
    animation has one pending frame of its own, an overlay layer and a
    drawn layer, and no frame is pending without an animation that
    recorded it.  The state a handler leaves behind when it throws is not
    among these states. *)
Theorem animation_tables_consistent (s : App) : running s -> tables_inv s.
Proof.
  induction 1 as [loaded|e s s' _ IH Hstep|logId frameId shown style s _ IH Hframe _].
  - apply startApp_tables.
  - by eapply step_tables.
  - by apply animationFrame_tables_inv.
Qed.

End AnimationTables.

(** ** Saving *)

Section Saving.
Context {M : Math} {D : DateHost}.

Lemma entry_toJSON_valid (l : LogEntry) :
  valid_date l -> exists data, entry_toJSON l = Normal data.
Proof.
  intros [t Ht]. destruct l as [r|sp]; cbn [entry_date] in Ht;
    unfold entry_toJSON, Route_toJSON, Spot_toJSON, Log_toJSON;
    rewrite Ht; run; by eexists.
Qed.

Lemma entry_toJSON_invalid (l : LogEntry) :
  entry_date l = InvalidDate -> entry_toJSON l = Throw RangeError.
Proof.
  intros Ht. destruct l as [r|sp]; cbn [entry_date] in Ht;
    unfold entry_toJSON, Route_toJSON, Spot_toJSON, Log_toJSON;
    by rewrite Ht.
Qed.

Lemma entry_toJSON_throws (l : LogEntry) (e : Error) :
  entry_toJSON l = Throw e -> e = RangeError /\ entry_date l = InvalidDate.
Proof.
  destruct (entry_date l) as [t|] eqn:Ht.
  - destruct (entry_toJSON_valid l (ex_intro _ t Ht)) as [data ->]. done.
  - rewrite (entry_toJSON_invalid l Ht). intros [= <-]. done.
Qed.

(** Serializing the collection succeeds exactly when every date is valid,
    and only ever fails with a RangeError. *)
Lemma serialize_all (entries : list LogEntry) :
  match mapM entry_toJSON entries with
  | Normal data => Forall valid_date entries /\ length data = length entries
  | Throw e =>
      e = RangeError /\ Exists (fun l => entry_date l = InvalidDate) entries
  end.
Proof.
  induction entries as [|l entries IH]; [by split|].
  cbn [mapM]. destruct (entry_toJSON l) as [d|e] eqn:Hl; run.
  - assert (Hvalid : valid_date l).
    { destruct (entry_date l) as [t|] eqn:Ht; [by exists t|].
      by rewrite (entry_toJSON_invalid l Ht) in Hl. }
    destruct (mapM entry_toJSON entries) as [data|e'].
    + destruct IH as [Hall Hlen]. split; [by constructor|]. cbn [length]. by rewrite Hlen.
    + destruct IH as [-> Hex]. split; [done|]. by apply Exists_cons_tl.
  - apply entry_toJSON_throws in Hl as [-> Ht]. split; [done|]. by apply Exists_cons_hd.
Qed.


(** What a submission with a stored point does, up to the save: the
    entry it builds and the layer it draws. *)
Lemma handleFormSubmit_built (title notes : string) (parsed : float) (tDate tNow : Z)
    (s : App) :
  routePoints s <> [] ->
  exists log layer,
    handleFormSubmit title notes parsed tDate tNow s
    = (data ← mapM entry_toJSON (logs s ++ [log]);
       Normal (closeForm
                 (set_savedLogs (Some data)
                    (set_drawnLayers (<[make_id tNow := layer]> (drawnLayers s))
                       (set_logs (logs s ++ [log]) s))))) /\
    entry_id log = make_id tNow /\
    entry_date log = TimeValue tDate /\
    (distanceFieldShown s = true ->
       log = RouteEntry
               (Route_new tDate tNow (routePoints s) (currentDistance s)
                  (Some (if bool_decide (title = EmptyString)
                         then "Untitled"%string else title))
                  (Some (if is_nan parsed || (parsed =? 0) then 0 else parsed))
                  (Some notes)) /\
       layer = Polyline (routePoints s) defaultStyle) /\
    (forall point rest,
       distanceFieldShown s = false -> routePoints s = point :: rest ->
       log = SpotEntry
               (Spot_new tDate tNow point
                  (Some (if bool_decide (title = EmptyString)
                         then "Untitled"%string else title))
                  (Some notes)) /\
       layer = Marker point).
Proof.
  intros Hpoints. unfold handleFormSubmit, saveToLocalStorage.
  destruct (routePoints s) as [|point rest] eqn:Hrp; [done|].
  destruct (distanceFieldShown s); run; unfold renderLogOnMap; fields;
    cbn [route_log coords Route_new Log_new]; fields.
  all: match goal with
       | |- context [<[entry_id ?l := ?layer]> _] => exists l, layer
       end.
  all: split; [by destruct (mapM entry_toJSON _)|].
  all: split; [reflexivity|]; split; [reflexivity|]; split.
  all: try (intros; split; reflexivity).
  all: try (intros; discriminate).
  all: intros point' rest' _ Heq; simplify_eq; split; reflexivity.
Qed.

(** Without a stored point nothing can be drawn: the submission throws,
    a route at the first marker of [#renderLogOnMap], a spot where its
    constructor reads the point. *)
Lemma handleFormSubmit_no_point (title notes : string) (parsed : float) (tDate tNow : Z)
    (s : App) :
  routePoints s = [] ->
  handleFormSubmit title notes parsed tDate tNow s = Throw TypeError.
Proof.
  intros Hpoints. unfold handleFormSubmit. rewrite Hpoints.
  destruct (distanceFieldShown s); reflexivity.
Qed.


End Saving.



(** ** Deleting and selecting *)

Section EntryListEffects.
Context {M : Math} {D : DateHost}.

Lemma registeredFrame_stopped (logId : string) (s : App) :
  activeAnimations s !! logId = None -> registeredFrame logId s = ∅.
Proof. unfold registeredFrame. by intros ->. Qed.

(** What [#deselectRoute] does to a selected entry. *)
Lemma deselectRoute_tables (logId : string) (s : App) :
  tables_inv s -> selectedRouteId s = Some logId -> logId <> EmptyString ->
  activeAnimations (deselectRoute s) = delete logId (activeAnimations s) /\
  animationLayers (deselectRoute s) = delete logId (animationLayers s) /\
  pendingFrames (deselectRoute s) = pendingFrames s ∖ registeredFrame logId s /\
  nextFrameId (deselectRoute s) = nextFrameId s /\
  delete logId (drawnLayers (deselectRoute s)) = delete logId (drawnLayers s) /\
  selectedRouteId (deselectRoute s) = None /\
  pendingDeleteId (deselectRoute s) = pendingDeleteId s.
Proof.
  intros Hinv Hsel Hid. unfold deselectRoute. rewrite Hsel.
  unfold truthy. rewrite bool_decide_false by done. cbn [negb].
  assert (Hinv0 : tables_inv (set_selectedRouteId None s))
    by (revert Hinv; by apply tables_inv_ext).
  destruct (stopRouteAnimation_tables logId _ Hinv0)
    as (Ha & Hl & Hp & Hn & Hd & Hs & Hpd).
  set (s1 := stopRouteAnimation logId (set_selectedRouteId None s)) in *.
  unfold resetLayerStyle.
  destruct (drawnLayers s1 !! logId) as [[latlngs style|p]|]; fields;
    rewrite ?Ha, ?Hl, ?Hp, ?Hn, ?Hd, ?Hs, ?Hpd; fields;
    repeat split; try done.
  apply delete_insert_eq.
Qed.

(** What a confirmed deletion does when the pending identifier is not the
    empty string. *)
Lemma confirmDelete_removes (logId : string) (s : App) :
  tables_inv s ->
  pendingDeleteId s = Some logId -> logId <> EmptyString ->
  Forall valid_date (filter (fun l => entry_id l <> logId) (logs s)) ->
  exists s',
    confirmDelete s = Normal s' /\
    logs s' = filter (fun l => entry_id l <> logId) (logs s) /\
    drawnLayers s' = delete logId (drawnLayers s) /\
    activeAnimations s' = delete logId (activeAnimations s) /\
    animationLayers s' = delete logId (animationLayers s) /\
    pendingFrames s' = pendingFrames s ∖ registeredFrame logId s /\
    selectedRouteId s'
    = (if bool_decide (selectedRouteId s = Some logId) then None
       else selectedRouteId s) /\
    pendingDeleteId s' = None /\
    deleteDialogOpen s' = false /\
    session s' = session s.
Proof.
  intros Hinv Hpending Hid Hvalid. unfold confirmDelete. rewrite Hpending.
  unfold truthy. rewrite bool_decide_false by done. cbn [negb].
  set (s0 := if bool_decide (selectedRouteId s = Some logId)
             then deselectRoute s else s).
  assert (H0 : tables_inv s0 /\
               delete logId (activeAnimations s0) = delete logId (activeAnimations s) /\
               delete logId (animationLayers s0) = delete logId (animationLayers s) /\
               pendingFrames s0 ∖ registeredFrame logId s0
               = pendingFrames s ∖ registeredFrame logId s /\
               delete logId (drawnLayers s0) = delete logId (drawnLayers s) /\
               selectedRouteId s0
               = (if bool_decide (selectedRouteId s = Some logId) then None
                  else selectedRouteId s) /\
               logs s0 = logs s /\ session s0 = session s).
  { subst s0. destruct (bool_decide_reflect (selectedRouteId s = Some logId)) as [Hsel|_];
      [|done].
    destruct (deselectRoute_tables logId s Hinv Hsel Hid)
      as (Ha & Hl & Hp & _ & Hd & Hs & _).
    split; [by apply deselectRoute_tables_inv|].
    rewrite Ha, Hl, Hp, Hd, Hs, !delete_delete_eq.
    rewrite (registeredFrame_stopped logId (deselectRoute s))
      by (rewrite Ha; apply lookup_delete_eq).
    rewrite difference_empty_L.
    repeat split; [apply deselectRoute_logs|apply deselectRoute_session]. }
  destruct H0 as (Hinv0 & Ha0 & Hl0 & Hp0 & Hd0 & Hs0 & Hlogs0 & Hsess0).
  clearbody s0.
  destruct (stopRouteAnimation_tables logId s0 Hinv0)
    as (Ha & Hl & Hp & _ & Hd & Hs & _).
  pose proof (stopRouteAnimation_logs logId s0) as Hlogs1.
  pose proof (stopRouteAnimation_session logId s0) as Hsess1.
  set (s1 := stopRouteAnimation logId s0) in *.
  set (s2 := match drawnLayers s1 !! logId with
             | Some _ => set_drawnLayers (delete logId (drawnLayers s1)) s1
             | None => s1
             end).
  assert (H2 : drawnLayers s2 = delete logId (drawnLayers s) /\
               activeAnimations s2 = activeAnimations s1 /\
               animationLayers s2 = animationLayers s1 /\
               pendingFrames s2 = pendingFrames s1 /\
               selectedRouteId s2 = selectedRouteId s1 /\
               logs s2 = logs s1 /\ session s2 = session s1).
  { subst s2. destruct (drawnLayers s1 !! logId) as [layer|] eqn:Hlayer; fields.
    - by rewrite Hd, Hd0.
    - by rewrite <- Hd0, <- Hd, (delete_id _ _ Hlayer). }
  destruct H2 as (Hd2 & Ha2 & Hl2 & Hp2 & Hs2 & Hlogs2 & Hsess2).
  clearbody s2. fields. rewrite Hlogs2, Hlogs1, Hlogs0.
  unfold saveToLocalStorage. fields.
  pose proof (serialize_all (filter (fun l => entry_id l <> logId) (logs s))) as Hser.
  destruct (mapM entry_toJSON _) as [data|e]; run.
  - eexists. split; [reflexivity|]. fields.
    rewrite Hd2, Ha2, Hl2, Hp2, Hs2, Ha, Hl, Hp, Hs, Ha0, Hl0, Hp0, Hs0.
    repeat split; try reflexivity.
    frame session. by rewrite Hsess2, Hsess1, Hsess0.
  - destruct Hser as [_ Hex]. exfalso.
    apply Exists_exists in Hex as (l & Hin & Hl').
    rewrite Forall_forall in Hvalid. destruct (Hvalid l Hin) as [t Ht]. congruence.
Qed.


(** What [#animateRoute] does to an entry whose layer is a polyline. *)
Lemma animateRoute_polyline (logId : string) (coords latlngs : list coord)
    (style : PathStyle) (s : App) :
  tables_inv s ->
  drawnLayers s !! logId = Some (Polyline latlngs style) ->
  exists s',
    animateRoute logId coords s = Normal s' /\
    activeAnimations s' = <[logId := nextFrameId s]> (activeAnimations s) /\
    animationLayers s' = <[logId := Polyline [] overlayStyle]> (animationLayers s) /\
    drawnLayers s' = <[logId := Polyline latlngs animatedBaseStyle]> (drawnLayers s) /\
    pendingFrames s'
    = {[nextFrameId s]} ∪ (pendingFrames s ∖ registeredFrame logId s) /\
    nextFrameId s' = S (nextFrameId s) /\
    selectedRouteId s' = selectedRouteId s.
Proof.
  intros Hinv Hlayer. unfold animateRoute.
  destruct (stopRouteAnimation_tables logId s Hinv)
    as (Ha & Hl & Hp & Hn & Hd & Hs & _).
  set (s1 := stopRouteAnimation logId s) in *.
  rewrite Hd, Hlayer. eexists. split; [reflexivity|]. fields.
  rewrite ?Ha, ?Hl, ?Hp, ?Hn, ?Hd, ?Hs, !insert_delete_eq. by repeat split.
Qed.

(** What stopping an animation and resetting the style does. *)
Lemma stop_reset_tables (logId : string) (s : App) :
  tables_inv s ->
  let s' := resetLayerStyle logId (stopRouteAnimation logId s) in
  activeAnimations s' = delete logId (activeAnimations s) /\
  animationLayers s' = delete logId (animationLayers s) /\
  pendingFrames s' = pendingFrames s ∖ registeredFrame logId s /\
  nextFrameId s' = nextFrameId s /\
  selectedRouteId s' = selectedRouteId s /\
  drawnLayers s'
  = match drawnLayers s !! logId with
    | Some (Polyline latlngs _) =>
        <[logId := Polyline latlngs defaultStyle]> (drawnLayers s)
    | _ => drawnLayers s
    end.
Proof.
  intros Hinv.
  destruct (stopRouteAnimation_tables logId s Hinv)
    as (Ha & Hl & Hp & Hn & Hd & Hs & _).
  set (s1 := stopRouteAnimation logId s) in *.
  cbv zeta. unfold resetLayerStyle. rewrite Hd.
  destruct (drawnLayers s !! logId) as [[latlngs style|p]|]; fields;
    rewrite ?Hd; by repeat split.
Qed.

Lemma findLog_id (logId : string) (s : App) (l : LogEntry) :
  findLog logId s = Some l -> entry_id l = logId /\ l ∈ logs s.
Proof.
  unfold findLog. intros H. apply find_some in H as [Hin Hid].
  split; [by apply bool_decide_eq_true in Hid|by apply list_elem_of_In].
Qed.


(** X10. Clicking the card of a route that has a point and whose layer
    is a polyline selects the route and starts its animation on a new
    frame.  The route that was selected before, if it is another one and
    its identifier is not the empty string, is no longer animated and has
    its default style back; every other entry, a previous selection with
    the empty identifier included, keeps its layers and animations.  On
    the card of a route without points the click throws the Error of
    [fitBounds], before anything is selected. *)
Theorem card_click_moves_selection (cardId : string) (r : Route)
    (latlngs : list coord) (style : PathStyle) (s : App) :
  tables_inv s ->
  findLog cardId s = Some (RouteEntry r) ->
  drawnLayers s !! cardId = Some (Polyline latlngs style) ->
  (coords (route_log r) = [] ->
   handleLogClick (OnCard cardId) s = Throw LeafletError) /\
  (coords (route_log r) <> [] ->
   exists s',
     handleLogClick (OnCard cardId) s = Normal s' /\
     selectedRouteId s' = Some cardId /\
     activeAnimations s' !! cardId = Some (nextFrameId s) /\
     nextFrameId s ∈ pendingFrames s' /\
     animationLayers s' !! cardId = Some (Polyline [] overlayStyle) /\
     drawnLayers s' !! cardId = Some (Polyline latlngs animatedBaseStyle) /\
     (forall prev,
        selectedRouteId s = Some prev -> prev <> EmptyString -> prev <> cardId ->
        activeAnimations s' !! prev = None /\
        animationLayers s' !! prev = None /\
        forall points style',
          drawnLayers s !! prev = Some (Polyline points style') ->
          drawnLayers s' !! prev = Some (Polyline points defaultStyle)) /\
     (forall other,
        other <> cardId ->
        selectedRouteId s <> Some other \/ other = EmptyString ->
        activeAnimations s' !! other = activeAnimations s !! other /\
        animationLayers s' !! other = animationLayers s !! other /\
        drawnLayers s' !! other = drawnLayers s !! other)).
Proof.
  intros Hinv Hfind Hlayer. unfold handleLogClick. rewrite Hfind.
  destruct (findLog_id _ _ _ Hfind) as [Hid _]. rewrite Hid.
  split; [by intros ->|]. intros Hcoords.
  destruct (coords (route_log r)) as [|c0 cs] eqn:Hcs; [done|]. clear Hcoords.
  rewrite <- Hcs. clear Hcs c0 cs.
  set (s0 := match selectedRouteId s with
             | Some selected =>
                 if truthy (Some selected) && negb (bool_decide (selected = cardId))
                 then resetLayerStyle selected (stopRouteAnimation selected s)
                 else s
             | None => s
             end).
  assert (H0 : tables_inv s0 /\ nextFrameId s0 = nextFrameId s /\
               (forall prev,
                  selectedRouteId s = Some prev -> prev <> EmptyString ->
                  prev <> cardId ->
                  activeAnimations s0 !! prev = None /\
                  animationLayers s0 !! prev = None /\
                  forall points style',
                    drawnLayers s !! prev = Some (Polyline points style') ->
                    drawnLayers s0 !! prev = Some (Polyline points defaultStyle)) /\
               (forall other,
                  selectedRouteId s <> Some other \/ other = EmptyString ->
                  activeAnimations s0 !! other = activeAnimations s !! other /\
                  animationLayers s0 !! other = animationLayers s !! other /\
                  drawnLayers s0 !! other = drawnLayers s !! other) /\
               drawnLayers s0 !! cardId = drawnLayers s !! cardId).
  { subst s0. destruct (selectedRouteId s) as [selected|].
    2:{ split; [done|]. split; [done|]. split; [intros prev [=]|]. by split. }
    unfold truthy.
    destruct (bool_decide_reflect (selected = EmptyString)) as [Hempty|Hfull];
      cbn [negb andb].
    { split; [done|]. split; [done|]. split; [|by split].
      intros prev [= <-]. done. }
    destruct (bool_decide_reflect (selected = cardId)) as [Hsame|Hother];
      cbn [negb].
    { split; [done|]. split; [done|]. split; [|by split].
      intros prev [= <-]. done. }
    destruct (stop_reset_tables selected s Hinv) as (Ha & Hl & Hp & Hn & Hs & Hd).
    split; [by apply resetLayerStyle_tables_inv, stopRouteAnimation_tables_inv|].
    split; [exact Hn|]. rewrite Ha, Hl, Hd. split; [|split].
    - intros prev [= <-] _ _. rewrite !lookup_delete_eq. split; [done|]. split; [done|].
      intros points style' ->. apply lookup_insert_eq.
    - intros other Hne. assert (selected <> other) by (destruct Hne; congruence).
      rewrite !lookup_delete_ne by done. split; [done|]. split; [done|].
      destruct (drawnLayers s !! selected) as [[points style'|p]|]; try done.
      by rewrite lookup_insert_ne.
    - destruct (drawnLayers s !! selected) as [[points style'|p]|]; try done.
      by rewrite lookup_insert_ne. }
  destruct H0 as (Hinv0 & Hn0 & Hprev0 & Hother0 & Hcard0). clearbody s0.
  assert (Hinv1 : tables_inv (set_selectedRouteId (Some cardId) s0))
    by (revert Hinv0; by apply tables_inv_ext).
  assert (Hlayer1 : drawnLayers (set_selectedRouteId (Some cardId) s0) !! cardId
                    = Some (Polyline latlngs style))
    by (fields; by rewrite Hcard0).
  destruct (animateRoute_polyline cardId (coords (route_log r)) latlngs style _
              Hinv1 Hlayer1) as (s' & Hrun & Ha & Hl & Hd & Hp & Hn & Hs).
  fields.
  exists s'. split; [exact Hrun|]. rewrite Ha, Hl, Hd, Hp, Hs, Hn0.
  rewrite !lookup_insert_eq.
  split; [done|]. split; [done|].
  split; [apply elem_of_union; left; by apply elem_of_singleton|].
  split; [done|]. split; [done|]. split.
  - intros prev Hsel Hfull Hne. rewrite !lookup_insert_ne by done.
    by apply Hprev0.
  - intros other Hne Hsel. rewrite !lookup_insert_ne by done. by apply Hother0.
Qed.

End EntryListEffects.

(** The example stores satisfy the hypotheses above. *)
Lemma exampleStore_tables : tables_inv exampleStore.
Proof. apply startApp_tables. Qed.

Lemma selectedStore_click :
  handleLogClick (OnCard "0000000000") exampleStore
  = Normal selectedStore.
Proof. vm_compute; reflexivity. Qed.

Lemma selectedStore_tables : tables_inv selectedStore.
Proof.
  exact (handleLogClick_tables_inv _ _ _
           exampleStore_tables selectedStore_click).
Qed.

(** The selected store after the browser has run the first frame of the
    animation. *)
Lemma selectedStore_frame_running :
  running (M := RefMath.host) (D := RefDate.host)
    (animationFrame "0000000000" 1 [(28.6, 77.2)] overlayStyle selectedStore).
Proof.
  apply running_frame.
  - apply (running_step (ListClicked (OnCard "0000000000")) exampleStore).
    + apply running_start.
    + exact selectedStore_click.
  - vm_compute; reflexivity.
  - assert (Hframes : pendingFrames selectedStore = {[1%nat]})
      by (vm_compute; reflexivity).
    rewrite Hframes. by apply elem_of_singleton.
Qed.

(** The store once the spot tool has marked a point is reached by two
    handlers that return. *)
Lemma markedStore_running :
  running (M := RefMath.host) (D := RefDate.host) markedStore.
Proof.
  apply (running_step (MapClicked (28.7, 77.1)) (setMode ModeSpot exampleStore)).
  - apply (running_step MarkSpotClicked exampleStore);
      [apply running_start|reflexivity].
  - vm_compute; reflexivity.
Qed.

Lemma animation_tables_consistent_witness :
  running (M := RefMath.host) (D := RefDate.host)
    (animationFrame "0000000000" 1 [(28.6, 77.2)] overlayStyle selectedStore) /\
  tables_inv (animationFrame "0000000000" 1 [(28.6, 77.2)] overlayStyle selectedStore).
Proof.
  split; [exact selectedStore_frame_running|].
  exact (animation_tables_consistent (M := RefMath.host) (D := RefDate.host) _
           selectedStore_frame_running).
Defined.


Lemma card_click_moves_selection_witness :
  tables_inv exampleStore /\
  findLog "0000000000" exampleStore = Some (RouteEntry exampleRoute) /\
  coords (route_log exampleRoute) = [(28.6, 77.2); (28.61, 77.21)] /\
  exists s',
    handleLogClick (OnCard "0000000000") exampleStore = Normal s' /\
    selectedRouteId s' = Some "0000000000"%string /\
    activeAnimations s' !! "0000000000"%string = Some (nextFrameId exampleStore).
Proof.
  assert (Hfind : findLog "0000000000" exampleStore = Some (RouteEntry exampleRoute))
    by (vm_compute; reflexivity).
  assert (Hlayer : drawnLayers exampleStore !! "0000000000"%string
                   = Some (Polyline [(28.6, 77.2); (28.61, 77.21)] defaultStyle))
    by (vm_compute; reflexivity).
  assert (Hcoords : coords (route_log exampleRoute) <> [])
    by (intros Hnil; discriminate Hnil).
  split; [exact exampleStore_tables|]. split; [exact Hfind|].
  split; [reflexivity|].
  destruct (proj2 (card_click_moves_selection "0000000000" exampleRoute
                     _ _ exampleStore exampleStore_tables Hfind Hlayer) Hcoords)
    as (s' & Hclick & Hsel & Hact & _).
  exists s'. exact (conj Hclick (conj Hsel Hact)).
Defined.


Lemma step_keeps_entries_witness :
  exists s',
    step (M := RefMath.host) (D := RefDate.host)
      (FormSubmitted "Lake" EmptyString 30 1800000000000 1800000000000) markedStore
    = Normal s' /\
    SpotEntry exampleSpot ∈ logs s' /\
    (SpotEntry exampleSpot ∈ logs markedStore \/
     exists title notes parsed tDate tNow,
       FormSubmitted "Lake" EmptyString 30 1800000000000 1800000000000
       = FormSubmitted title notes parsed tDate tNow /\
       entry_id (SpotEntry exampleSpot) = make_id tNow).
Proof.
  destruct (step (M := RefMath.host) (D := RefDate.host)
              (FormSubmitted "Lake" EmptyString 30 1800000000000 1800000000000)
              markedStore) as [s'|e] eqn:Hstep;
    [|vm_compute in Hstep; discriminate Hstep].
  assert (Hin : SpotEntry exampleSpot ∈ logs s').
  { pose proof Hstep as Hsubmit. cbn [step] in Hsubmit.
    destruct (handleFormSubmit_logs (D := RefDate.host) _ _ _ _ _ _ _ Hsubmit)
      as (log & -> & _).
    apply elem_of_app. left.
    change (logs markedStore) with [RouteEntry exampleRoute; SpotEntry exampleSpot].
    apply list_elem_of_further, list_elem_of_here. }
  exists s'. split; [reflexivity|]. split; [exact Hin|].
  exact (step_keeps_entries _ _ _ _ Hstep Hin).
Defined.

(** ** Dates of the stored entries *)

Section StoredDates.
Context {M : Math} {D : DateHost}.

Lemma save_valid (s : App) :
  Forall valid_date (logs s) ->
  exists data,
    saveToLocalStorage s = Normal (set_savedLogs (Some data) s) /\
    length data = length (logs s).
Proof.
  intros Hvalid. unfold saveToLocalStorage.
  pose proof (serialize_all (logs s)) as Hser.
  destruct (mapM entry_toJSON (logs s)) as [data|e]; run.
  - exists data. by destruct Hser.
  - destruct Hser as [_ Hex]. exfalso.
    apply Exists_exists in Hex as (l & Hin & Hl).
    rewrite Forall_forall in Hvalid. destruct (Hvalid l Hin) as [t Ht]. congruence.
Qed.

(** What a submission that saves leaves behind: the state it returns,
    in terms of the entry it has built and the layer it has drawn. *)
Lemma handleFormSubmit_normal (title notes : string) (parsed : float) (tDate tNow : Z)
    (s : App) :
  Forall valid_date (logs s) ->
  routePoints s <> [] ->
  exists log layer data,
    handleFormSubmit title notes parsed tDate tNow s
    = Normal (closeForm
                (set_savedLogs (Some data)
                   (set_drawnLayers (<[make_id tNow := layer]> (drawnLayers s))
                      (set_logs (logs s ++ [log]) s)))) /\
    length data = S (length (logs s)) /\
    entry_id log = make_id tNow /\
    entry_date log = TimeValue tDate /\
    (distanceFieldShown s = true ->
       log = RouteEntry
               (Route_new tDate tNow (routePoints s) (currentDistance s)
                  (Some (if bool_decide (title = EmptyString)
                         then "Untitled"%string else title))
                  (Some (if is_nan parsed || (parsed =? 0) then 0 else parsed))
                  (Some notes)) /\
       layer = Polyline (routePoints s) defaultStyle) /\
    (forall point rest,
       distanceFieldShown s = false -> routePoints s = point :: rest ->
       log = SpotEntry
               (Spot_new tDate tNow point
                  (Some (if bool_decide (title = EmptyString)
                         then "Untitled"%string else title))
                  (Some notes)) /\
       layer = Marker point).
Proof.
  intros Hvalid Hpoints.
  destruct (handleFormSubmit_built title notes parsed tDate tNow s Hpoints)
    as (log & layer & Hsubmit & Hid & Hdate & Hroute & Hspot).
  assert (Hall : Forall valid_date (logs s ++ [log])).
  { apply Forall_app. split; [exact Hvalid|].
    constructor; [by exists tDate|constructor]. }
  pose proof (serialize_all (logs s ++ [log])) as Hser.
  destruct (mapM entry_toJSON (logs s ++ [log])) as [data|e]; run.
  - destruct Hser as [_ Hlen]. rewrite length_app in Hlen. cbn [length] in Hlen.
    exists log, layer, data. split; [exact Hsubmit|]. split; [lia|].
    exact (conj Hid (conj Hdate (conj Hroute Hspot))).
  - destruct Hser as [_ Hex]. exfalso.
    apply Exists_exists in Hex as (l & Hin & Hl).
    rewrite Forall_forall in Hall. destruct (Hall l Hin) as [t Ht]. congruence.
Qed.


Lemma animateRoute_throws (logId : string) (coords : list coord) (s : App) (e : Error) :
  animateRoute logId coords s = Throw e -> e = TypeError.
Proof. unfold animateRoute. intros H. repeat case_match; by simplify_eq. Qed.


End StoredDates.



(** ** The store, the map and the selections *)

Section StoreInvariant.
Context {M : Math} {D : DateHost}.

Lemma store_inv_ext (s s' : App) :
  storeView s' = storeView s -> store_inv s -> store_inv s'.
Proof.
  unfold storeView, store_inv. intros H Hinv.
  injection H as -> -> -> -> ->. exact Hinv.
Qed.

Lemma stopRouteAnimation_view (logId : string) (s : App) :
  logs (stopRouteAnimation logId s) = logs s /\
  drawnLayers (stopRouteAnimation logId s) = drawnLayers s /\
  selectedRouteId (stopRouteAnimation logId s) = selectedRouteId s /\
  pendingDeleteId (stopRouteAnimation logId s) = pendingDeleteId s /\
  forall other, other <> logId ->
    activeAnimations (stopRouteAnimation logId s) !! other
    = activeAnimations s !! other.
Proof.
  unfold stopRouteAnimation.
  repeat case_match; fields; repeat split; try done;
    intros other Hne; by rewrite lookup_delete_ne.
Qed.

Lemma resetLayerStyle_view (logId : string) (s : App) :
  logs (resetLayerStyle logId s) = logs s /\
  activeAnimations (resetLayerStyle logId s) = activeAnimations s /\
  selectedRouteId (resetLayerStyle logId s) = selectedRouteId s /\
  pendingDeleteId (resetLayerStyle logId s) = pendingDeleteId s /\
  forall other,
    is_Some (drawnLayers (resetLayerStyle logId s) !! other)
    <-> is_Some (drawnLayers s !! other).
Proof.
  unfold resetLayerStyle.
  destruct (drawnLayers s !! logId) as [[latlngs style|p]|] eqn:Hlayer; fields;
    repeat split; try done.
  - rewrite lookup_insert_is_Some'. intros [<-|Hsome]; [by eexists|done].
  - intros Hsome. apply lookup_insert_is_Some'. by right.
Qed.

Lemma animateRoute_view (logId : string) (coords : list coord) (s s' : App) :
  animateRoute logId coords s = Normal s' ->
  logs s' = logs s /\
  selectedRouteId s' = selectedRouteId s /\
  pendingDeleteId s' = pendingDeleteId s /\
  (forall other,
     is_Some (drawnLayers s' !! other) <-> is_Some (drawnLayers s !! other)) /\
  (forall other, other <> logId ->
     activeAnimations s' !! other = activeAnimations s !! other) /\
  (is_Some (drawnLayers s !! logId) -> is_Some (activeAnimations s' !! logId)).
Proof.
  unfold animateRoute. intros H.
  destruct (stopRouteAnimation_view logId s) as (Hl & Hd & Hs & Hp & Ha).
  set (s1 := stopRouteAnimation logId s) in *.
  destruct (drawnLayers s1 !! logId) as [[latlngs style|p]|] eqn:Hlayer;
    simplify_eq; fields.
  - rewrite Hl, Hd, Hs, Hp. repeat split; try done.
    + rewrite lookup_insert_is_Some'. intros [<-|Hsome]; [|done].
      rewrite <- Hd. by eexists.
    + intros Hsome. apply lookup_insert_is_Some'. by right.
    + intros other Hne. rewrite lookup_insert_ne by done. by apply Ha.
    + intros _. rewrite lookup_insert_eq. by eexists.
  - rewrite Hl, Hd, Hs, Hp. repeat split; try done.
    rewrite <- Hd, Hlayer. by intros [x Hx].
Qed.

Lemma stopRouteAnimation_store_inv (logId : string) (s : App) :
  store_inv s -> selectedRouteId s <> Some logId ->
  store_inv (stopRouteAnimation logId s).
Proof.
  intros (Hmap & Hsel & Hpending) Hne.
  destruct (stopRouteAnimation_view logId s) as (Hl & Hd & Hs & Hp & Ha).
  unfold store_inv. rewrite Hl, Hd, Hs, Hp.
  split; [exact Hmap|]. split; [|exact Hpending].
  intros other Hother. rewrite Ha by congruence. by apply Hsel.
Qed.

Lemma resetLayerStyle_store_inv (logId : string) (s : App) :
  store_inv s -> store_inv (resetLayerStyle logId s).
Proof.
  intros (Hmap & Hsel & Hpending).
  destruct (resetLayerStyle_view logId s) as (Hl & Ha & Hs & Hp & Hd).
  unfold store_inv. rewrite Hl, Ha, Hs, Hp.
  split; [|by split]. intros other. rewrite Hd. apply Hmap.
Qed.

Lemma animateRoute_store_inv (logId : string) (coords : list coord) (s s' : App) :
  store_inv s ->
  (forall other, selectedRouteId s = Some other -> other <> logId) ->
  animateRoute logId coords s = Normal s' -> store_inv s'.
Proof.
  intros (Hmap & Hsel & Hpending) Hne Hrun.
  destruct (animateRoute_view _ _ _ _ Hrun) as (Hl & Hs & Hp & Hd & Ha & _).
  unfold store_inv. rewrite Hl, Hs, Hp.
  split; [|split; [|exact Hpending]].
  - intros other. rewrite Hd. apply Hmap.
  - intros other Hother. rewrite Ha by by apply Hne. by apply Hsel.
Qed.

Lemma deselectRoute_store_inv (s : App) : store_inv s -> store_inv (deselectRoute s).
Proof.
  intros Hinv. unfold deselectRoute.
  destruct (selectedRouteId s) as [logId|] eqn:Hsel; [|exact Hinv].
  destruct (truthy (Some logId)); [|exact Hinv].
  apply resetLayerStyle_store_inv, stopRouteAnimation_store_inv; [|done].
  destruct Hinv as (Hmap & _ & Hpending).
  unfold store_inv. fields. split; [exact Hmap|]. split; [done|]. exact Hpending.
Qed.

Lemma handleLogHover_store_inv (card : option string) (s s' : App) :
  store_inv s -> handleLogHover card s = Normal s' -> store_inv s'.
Proof.
  intros Hinv H. unfold handleLogHover in H.
  destruct card as [logId|]; [|by simplify_eq].
  destruct (bool_decide_reflect (selectedRouteId s = Some logId)) as [|Hne];
    [by simplify_eq|].
  destruct (findLog logId s) as [[r|sp]|]; try by simplify_eq.
  eapply animateRoute_store_inv; [exact Hinv| |exact H].
  intros other Hsel ->. done.
Qed.

Lemma handleLogLeave_store_inv (card : option string) (s : App) :
  store_inv s -> store_inv (handleLogLeave card s).
Proof.
  intros Hinv. unfold handleLogLeave.
  destruct card as [logId|]; [|done].
  destruct (bool_decide_reflect (selectedRouteId s = Some logId)) as [|Hne]; [done|].
  by apply resetLayerStyle_store_inv, stopRouteAnimation_store_inv.
Qed.

Lemma deleteLog_store_inv (logId : string) (s : App) :
  store_inv s -> store_inv (deleteLog logId s).
Proof.
  intros Hinv. unfold deleteLog.
  destruct (findLog logId s) as [l|] eqn:Hfind; [|exact Hinv].
  destruct Hinv as (Hmap & Hsel & Hpending).
  destruct (findLog_id _ _ _ Hfind) as [Hid Hin].
  unfold store_inv. fields. split; [exact Hmap|]. split; [exact Hsel|].
  intros other [= <-]. by exists l.
Qed.

Lemma handleLogClick_store_inv (target : ClickTarget) (s s' : App) :
  store_inv s -> handleLogClick target s = Normal s' -> store_inv s'.
Proof.
  intros Hinv H. unfold handleLogClick in H.
  destruct target as [logId|cardId|]; simplify_eq;
    [by apply deleteLog_store_inv| |done].
  destruct (findLog cardId s) as [log|] eqn:Hfind; [|by simplify_eq].
  destruct (findLog_id _ _ _ Hfind) as [Hid Hin]. rewrite Hid in H.
  set (s0 := match selectedRouteId s with
             | Some selected =>
                 if truthy (Some selected) && negb (bool_decide (selected = cardId))
                 then resetLayerStyle selected (stopRouteAnimation selected s)
                 else s
             | None => s
             end) in H.
  (* the entries, the map and the pending deletion after the previous
     selection has been stopped *)
  assert (H0 : logs s0 = logs s /\
               (forall other,
                  is_Some (drawnLayers s0 !! other) <-> is_Some (drawnLayers s !! other)) /\
               pendingDeleteId s0 = pendingDeleteId s).
  { subst s0. destruct (selectedRouteId s) as [selected|]; [|done].
    destruct (truthy (Some selected) && _); [|done].
    destruct (resetLayerStyle_view selected (stopRouteAnimation selected s))
      as (Hl & _ & _ & Hp & Hd).
    destruct (stopRouteAnimation_view selected s) as (Hl' & Hd' & _ & Hp' & _).
    rewrite Hl, Hp, Hl', Hp'. repeat split; try done.
    - intros Hsome. apply Hd in Hsome. by rewrite Hd' in Hsome.
    - intros Hsome. apply Hd. by rewrite Hd'. }
  destruct H0 as (Hl0 & Hd0 & Hp0). clearbody s0.
  destruct Hinv as (Hmap & Hsel & Hpending).
  destruct log as [r|sp].
  - destruct (coords (route_log r)); [done|].
    destruct (animateRoute_view _ _ _ _ H) as (Hl & Hs & Hp & Hd & Ha & Hanim).
    fields. unfold store_inv. rewrite Hl, Hs, Hp, Hl0, Hp0.
    split; [|split; [|exact Hpending]].
    + intros other. rewrite Hd, Hd0. apply Hmap.
    + intros other [= <-]. split; [by exists r|].
      apply Hanim, Hd0, Hmap. by exists (RouteEntry r).
  - simplify_eq. unfold store_inv. fields. rewrite Hl0, Hp0.
    split; [|split; [done|exact Hpending]].
    intros other. rewrite Hd0. apply Hmap.
Qed.

Lemma saveToLocalStorage_normal (s s' : App) :
  saveToLocalStorage s = Normal s' -> exists data, s' = set_savedLogs (Some data) s.
Proof.
  unfold saveToLocalStorage. intros H.
  destruct (mapM entry_toJSON (logs s)) as [data|e]; run; simplify_eq.
  by exists data.
Qed.

Lemma confirmDelete_store_inv (s s' : App) :
  store_inv s -> confirmDelete s = Normal s' -> store_inv s'.
Proof.
  intros Hinv H. unfold confirmDelete in H.
  destruct (pendingDeleteId s) as [logId|]; [|by simplify_eq].
  unfold truthy in H.
  destruct (bool_decide_reflect (logId = EmptyString)) as [|Hfull];
    cbn [negb] in H; [by simplify_eq|].
  set (s0 := if bool_decide (selectedRouteId s = Some logId)
             then deselectRoute s else s) in H.
  assert (H0 : store_inv s0 /\ selectedRouteId s0 <> Some logId).
  { subst s0.
    destruct (bool_decide_reflect (selectedRouteId s = Some logId)) as [Hsel|Hne];
      [|done].
    split; [by apply deselectRoute_store_inv|].
    unfold deselectRoute. rewrite Hsel. unfold truthy.
    rewrite bool_decide_false by done. cbn [negb].
    destruct (resetLayerStyle_view logId
                (stopRouteAnimation logId (set_selectedRouteId None s)))
      as (_ & _ & -> & _).
    destruct (stopRouteAnimation_view logId (set_selectedRouteId None s))
      as (_ & _ & -> & _).
    done. }
  destruct H0 as [Hinv0 Hne0].
  pose proof (stopRouteAnimation_store_inv logId s0 Hinv0 Hne0) as Hinv1.
  assert (Hne1 : selectedRouteId (stopRouteAnimation logId s0) <> Some logId).
  { by destruct (stopRouteAnimation_view logId s0) as (_ & _ & -> & _). }
  set (s1 := stopRouteAnimation logId s0) in *. clearbody s1. clear Hinv Hinv0.
  match type of H with context [saveToLocalStorage ?t] =>
    destruct (saveToLocalStorage t) as [s2|] eqn:Hsave
  end; run; [|done].
  apply saveToLocalStorage_normal in Hsave as [data ->]. injection H as <-.
  destruct Hinv1 as (Hmap & Hsel & Hpending).
  set (s2 := match drawnLayers s1 !! logId with
             | Some _ => set_drawnLayers (delete logId (drawnLayers s1)) s1
             | None => s1
             end).
  assert (Hdrawn : forall other,
            is_Some (drawnLayers s2 !! other)
            <-> other <> logId /\ is_Some (drawnLayers s1 !! other)).
  { intros other. subst s2.
    destruct (drawnLayers s1 !! logId) as [layer|] eqn:Hlayer; fields.
    - rewrite lookup_delete_is_Some. split; intros [? ?]; by split.
    - split; [|by intros [_ ?]]. intros Hsome. split; [|done].
      intros ->. rewrite Hlayer in Hsome. by destruct Hsome. }
  assert (Hrest : logs s2 = logs s1 /\ selectedRouteId s2 = selectedRouteId s1
                  /\ activeAnimations s2 = activeAnimations s1)
    by (subst s2; by destruct (drawnLayers s1 !! logId)).
  clearbody s2.
  destruct Hrest as (Hl2 & Hs2 & Ha2).
  unfold store_inv. fields. rewrite Hl2, Hs2, Ha2.
  split; [|split].
  - intros other. rewrite Hdrawn, Hmap. split.
    + intros (Hne & l & Hin & Hid). exists l. split; [|done].
      apply list_elem_of_filter. split; [congruence|done].
    + intros (l & Hin & Hid). apply list_elem_of_filter in Hin as [Hne Hin].
      split; [congruence|]. by exists l.
  - intros other Hother. destruct (Hsel _ Hother) as [(r & Hin & Hid) Hanim].
    split; [|done]. exists r. split; [|done].
    apply list_elem_of_filter. split; [|done]. congruence.
  - done.
Qed.

Lemma handleFormSubmit_store_inv (title notes : string) (parsed : float)
    (tDate tNow : Z) (s s' : App) :
  store_inv s -> handleFormSubmit title notes parsed tDate tNow s = Normal s' ->
  store_inv s'.
Proof.
  intros (Hmap & Hsel & Hpending) H.
  apply handleFormSubmit_inversion in H as (log & layer & data & -> & _).
  unfold store_inv, closeForm, clearDrawingState. fields.
  split; [|split].
  - intros other. rewrite lookup_insert_is_Some', Hmap. split.
    + intros [<-|(l & Hin & Hid)].
      * exists log. split; [|done]. apply elem_of_app. right. apply list_elem_of_here.
      * exists l. split; [|done]. apply elem_of_app. by left.
    + intros (l & Hin & Hid). apply elem_of_app in Hin as [Hin|Hin].
      * right. by exists l.
      * apply list_elem_of_singleton in Hin as ->. by left.
  - intros other Hother. destruct (Hsel _ Hother) as [(r & Hin & Hid) Hanim].
    split; [|done]. exists r. split; [|done]. apply elem_of_app. by left.
  - intros other Hother. destruct (Hpending _ Hother) as (l & Hin & Hid).
    exists l. split; [|done]. apply elem_of_app. by left.
Qed.

Lemma renderLogOnMap_drawable (log : LogEntry) (s : App) :
  drawable log ->
  exists layer,
    renderLogOnMap log s
    = Normal (set_drawnLayers (<[entry_id log := layer]> (drawnLayers s)) s).
Proof.
  unfold renderLogOnMap. destruct log as [r|sp]; cbn [drawable].
  - destruct (coords (route_log r)); [done|]. by eexists.
  - by eexists.
Qed.

(** The loop of [#loadMap] draws every loaded entry when each of them can
    be drawn. *)
Lemma renderLogs_drawn (loaded : list LogEntry) (s : App) :
  Forall drawable loaded ->
  forall logId,
    is_Some (drawnLayers (renderLogs loaded s) !! logId) <->
    is_Some (drawnLayers s !! logId) \/ exists l, l ∈ loaded /\ entry_id l = logId.
Proof.
  intros Hall. revert s.
  induction Hall as [|log rest Hlog _ IH]; intros s logId; cbn [renderLogs].
  - split; [by left|]. intros [?|(l & Hin & _)]; [done|]. by apply elem_of_nil in Hin.
  - destruct (renderLogOnMap_drawable log s Hlog) as [layer ->].
    rewrite IH. fields. rewrite lookup_insert_is_Some'. split.
    + intros [[<-|Hsome]|(l & Hin & Hid)].
      * right. exists log. split; [apply list_elem_of_here|done].
      * by left.
      * right. exists l. split; [by apply list_elem_of_further|done].
    + intros [Hsome|(l & Hin & Hid)]; [by left; right|].
      apply elem_of_cons in Hin as [->|Hin]; [by left; left|].
      right. by exists l.
Qed.

Lemma startApp_store (loaded : list LogEntry) :
  Forall drawable loaded -> store_inv (startApp loaded).
Proof.
  intros Hall. unfold startApp, store_inv.
  rewrite renderLogs_layers. fields. cbn [initialApp selectedRouteId pendingDeleteId].
  split; [|split; done].
  intros logId. rewrite (renderLogs_drawn _ _ Hall). fields.
  cbn [initialApp drawnLayers]. rewrite lookup_empty. split.
  - intros [[x Hx]|Hex]; done.
  - intros Hex. by right.
Qed.

Lemma handleMapClick_storeView (p : coord) (s s' : App) :
  handleMapClick p s = Normal s' -> storeView s' = storeView s.
Proof.
  unfold handleMapClick, closeLoop, finishRoute, addSpot, openForm, addRoutePoint.
  intros H. repeat case_match; by simplify_eq.
Qed.

Lemma step_store (e : Event) (s s' : App) :
  store_inv s -> step e s = Normal s' -> store_inv s'.
Proof.
  intros Hinv H. destruct e; cbn [step] in H.
  - simplify_eq. revert Hinv. apply store_inv_ext.
    unfold setMode. by repeat case_match.
  - simplify_eq. revert Hinv. apply store_inv_ext.
    unfold setMode. by repeat case_match.
  - revert Hinv. apply store_inv_ext. by eapply handleMapClick_storeView.
  - simplify_eq. revert Hinv. apply store_inv_ext.
    unfold handleDoubleClick, finishRoute, openForm. by repeat case_match.
  - simplify_eq. revert Hinv. apply store_inv_ext.
    unfold handleKeydown, cancelDrawing, finishRoute, openForm, setMode.
    by repeat case_match.
  - simplify_eq. revert Hinv. by apply store_inv_ext.
  - by eapply handleFormSubmit_store_inv.
  - by eapply handleLogHover_store_inv.
  - simplify_eq. by apply handleLogLeave_store_inv.
  - by eapply handleLogClick_store_inv.
  - by eapply confirmDelete_store_inv.
  - simplify_eq. destruct Hinv as (Hmap & Hsel & _).
    unfold store_inv, cancelDelete. fields.
    split; [exact Hmap|]. split; [exact Hsel|]. done.
  - simplify_eq. by apply deselectRoute_store_inv.
Qed.

Lemma animationFrame_store_inv (logId : string) (frameId : nat) (shown : list coord)
    (style : PathStyle) (s : App) :
  store_inv s -> store_inv (animationFrame logId frameId shown style s).
Proof.
  intros (Hmap & Hsel & Hpending).
  unfold store_inv, animationFrame. fields.
  split; [exact Hmap|]. split; [|exact Hpending].
  intros other Hother. destruct (Hsel _ Hother) as [Hroute Hanim].
  split; [exact Hroute|]. apply lookup_insert_is_Some'. by right.
Qed.

Lemma steps_store (events : list Event) (s s' : App) :
  store_inv s -> steps events s = Normal s' -> store_inv s'.
Proof.
  revert s. induction events as [|e events IH]; intros s Hinv H.
  - by injection H as <-.
  - cbn [steps] in H. destruct (step e s) as [s1|] eqn:Hstep; [|done].
    eapply IH; [|exact H]. by eapply step_store.
Qed.


End StoreInvariant.


(** ** The pace the form shows *)

Section PacePreview.
Context {D : DateHost}.

(** X14. When the form shows a pace for a duration, the route stored by
    submitting the form with the same duration has that pace.  The form
    reads the duration with [parseFloat] and the submission with
    [parseInt]: the two give the same number for a whole number of
    minutes. *)
Theorem pace_preview_is_stored_pace (title notes : string) (parsed : float)
    (tDate tNow : Z) (s s' : App) (p : float) :
  distanceFieldShown s = true ->
  updatePace parsed s = Some p ->
  handleFormSubmit title notes parsed tDate tNow s = Normal s' ->
  exists r,
    logs s' = logs s ++ [RouteEntry r] /\
    distance r = currentDistance s /\
    pace r = p.
Proof.
  intros Hshown Hpace H.
  destruct (decide (routePoints s = [])) as [Hpoints|Hpoints];
    [by rewrite handleFormSubmit_no_point in H|].
  destruct (handleFormSubmit_built title notes parsed tDate tNow s Hpoints)
    as (log & layer & Hbuilt & _ & _ & Hroute & _).
  destruct (Hroute Hshown) as [-> _]. rewrite Hbuilt in H.
  match type of H with context [mapM entry_toJSON ?ls] =>
    destruct (mapM entry_toJSON ls) as [data|]
  end; run; [|done].
  injection H as <-.
  eexists. split; [|split].
  - reflexivity.
  - reflexivity.
  - cbn [Route_new pace from_option Datatypes.id]. unfold calcPace.
    unfold updatePace in Hpace.
    destruct (0 <? (if is_nan parsed || (parsed =? 0) then 0 else parsed))
      eqn:Hduration; [|done].
    destruct (0 <? currentDistance s) eqn:Hdistance; [|done].
    cbn [andb] in Hpace. injection Hpace as <-.
    by rewrite (positive_not_zero _ Hduration), (positive_not_zero _ Hdistance).
Qed.

End PacePreview.

Lemma pace_preview_is_stored_pace_witness :
  distanceFieldShown (handleDoubleClick twoPointSession) = true /\
  exists p s' r,
    updatePace 12 (handleDoubleClick twoPointSession) = Some p /\
    handleFormSubmit (D := RefDate.host) "Loop" EmptyString 12
      1800000000000 1800000000000 (handleDoubleClick twoPointSession) = Normal s' /\
    logs s' = logs (handleDoubleClick twoPointSession) ++ [RouteEntry r] /\
    pace r = p.
Proof.
  assert (Hshown : distanceFieldShown (handleDoubleClick twoPointSession) = true)
    by (vm_compute; reflexivity).
  split; [exact Hshown|].
  destruct (updatePace 12 (handleDoubleClick twoPointSession)) as [p|] eqn:Hpace;
    [|vm_compute in Hpace; discriminate Hpace].
  destruct (handleFormSubmit (D := RefDate.host) "Loop" EmptyString 12
              1800000000000 1800000000000 (handleDoubleClick twoPointSession))
    as [s'|e] eqn:Hsubmit; [|vm_compute in Hsubmit; discriminate Hsubmit].
  destruct (pace_preview_is_stored_pace (D := RefDate.host) _ _ _ _ _ _ _ _
              Hshown Hpace Hsubmit) as (r & Hlogs & _ & Hr).
  exists p, s', r. exact (conj eq_refl (conj eq_refl (conj Hlogs Hr))).
Defined.

(** ** What the load leaves in the collection *)

Section LoadOutcomes.
Context {entry : Type}.
Context (routeOf spotOf : JSON -> entry).
Context (JSON_parse : string -> completion JSON).

#[local] Abbreviation load :=
  (loadFromLocalStorage (fun obj => Normal (routeOf obj))
     (fun obj => Normal (spotOf obj)) JSON_parse).

(** X4. The load leaves the collection alone when nothing is stored or the
    stored text is empty.  Otherwise it replaces the collection: by the
    empty one when the text does not parse or does not hold an array, and,
    when it holds an array without [null], by what the deserializers
    build from the records of type ['route'] and ['spot'], in order. *)
Theorem load_outcomes (logs : list entry) :
  load None logs = logs /\
  load (Some EmptyString) logs = logs /\
  (forall text e,
     text <> EmptyString -> JSON_parse text = Throw e -> load (Some text) logs = []) /\
  (forall text logsData,
     text <> EmptyString -> JSON_parse text = Normal logsData ->
     (forall items, logsData <> JArr items) -> load (Some text) logs = []) /\
  (forall text items,
     text <> EmptyString -> JSON_parse text = Normal (JArr items) ->
     Forall (fun obj => obj <> JNull) items ->
     load (Some text) logs = omap (kept_entry routeOf spotOf) items).
Proof.
  unfold loadFromLocalStorage. split; [reflexivity|]. split; [reflexivity|].
  split; [|split].
  - intros text e Htext Hparse. rewrite bool_decide_false by done.
    by rewrite Hparse.
  - intros text logsData Htext Hparse Hshape. rewrite bool_decide_false by done.
    rewrite Hparse. run. destruct logsData; try reflexivity.
    by destruct (Hshape items).
  - intros text items Htext Hparse Hitems. rewrite bool_decide_false by done.
    rewrite Hparse. run.
    by rewrite (load_keeps_recognised routeOf spotOf items Hitems).
Qed.

End LoadOutcomes.

Lemma load_outcomes_witness :
  loadFromLocalStorage (fun obj => Normal obj) (fun obj => Normal obj)
    (fun _ => Normal (JArr [JNum 1; storedSpot; JObj []]))
    (Some "[1,{},{}]"%string) [JNull]
  = [storedSpot] /\
  loadFromLocalStorage (fun obj => Normal obj) (fun obj => Normal obj)
    (fun _ => Throw SyntaxError) (Some "["%string) [storedSpot]
  = [].
Proof.
  split.
  - destruct (load_outcomes (fun obj => obj) (fun obj => obj)
                (fun _ => Normal (JArr [JNum 1; storedSpot; JObj []])) [JNull])
      as (_ & _ & _ & _ & Hload).
    rewrite (Hload "[1,{},{}]"%string [JNum 1; storedSpot; JObj []]).
    + reflexivity.
    + intros Heq; discriminate Heq.
    + reflexivity.
    + repeat constructor; intros Heq; discriminate Heq.
  - destruct (load_outcomes (fun obj => obj) (fun obj => obj)
                (fun _ => Throw SyntaxError) [storedSpot])
      as (_ & _ & Hthrow & _).
    apply (Hthrow "["%string SyntaxError); [|reflexivity].
    intros Heq; discriminate Heq.
Defined.

(** ** The stored copy *)

Section StoredCopy.
Context {M : Math} {D : DateHost}.

Lemma storage_in_sync_ext (s s' : App) :
  storageView s' = storageView s -> storage_in_sync s -> storage_in_sync s'.
Proof.
  unfold storageView, storage_in_sync. intros H Hinv.
  injection H as -> ->. exact Hinv.
Qed.

Lemma stopRouteAnimation_storageView (logId : string) (s : App) :
  storageView (stopRouteAnimation logId s) = storageView s.
Proof. unfold stopRouteAnimation. by repeat case_match. Qed.

Lemma resetLayerStyle_storageView (logId : string) (s : App) :
  storageView (resetLayerStyle logId s) = storageView s.
Proof. unfold resetLayerStyle. by repeat case_match. Qed.

Lemma deselectRoute_storageView (s : App) :
  storageView (deselectRoute s) = storageView s.
Proof.
  unfold deselectRoute. repeat case_match; try done.
  by rewrite resetLayerStyle_storageView, stopRouteAnimation_storageView.
Qed.

Lemma animateRoute_storageView (logId : string) (coords : list coord) (s s' : App) :
  animateRoute logId coords s = Normal s' -> storageView s' = storageView s.
Proof.
  unfold animateRoute. intros H.
  pose proof (stopRouteAnimation_storageView logId s) as Hstop.
  set (s1 := stopRouteAnimation logId s) in *.
  destruct (drawnLayers s1 !! logId) as [[latlngs style|p]|];
    [injection H as <-|done|injection H as <-]; exact Hstop.
Qed.

Lemma handleLogClick_storageView (target : ClickTarget) (s s' : App) :
  handleLogClick target s = Normal s' -> storageView s' = storageView s.
Proof.
  unfold handleLogClick, deleteLog. intros H.
  destruct target as [logId|cardId|]; simplify_eq; [by case_match| |done].
  destruct (findLog cardId s) as [log|]; [|by simplify_eq].
  match type of H with context [set_selectedRouteId _ ?t] =>
    assert (H0 : storageView t = storageView s)
  end.
  { destruct (selectedRouteId s) as [selected|]; [|done].
    destruct (truthy (Some selected) && _); [|done].
    by rewrite resetLayerStyle_storageView, stopRouteAnimation_storageView. }
  destruct log as [r|sp].
  - destruct (coords (route_log r)); [done|].
    apply animateRoute_storageView in H. by rewrite H.
  - injection H as <-. exact H0.
Qed.

Lemma renderLogs_storageView (loaded : list LogEntry) (s : App) :
  storageView (renderLogs loaded s) = storageView s.
Proof. by rewrite renderLogs_layers. Qed.

Lemma step_storage (e : Event) (s s' : App) :
  storage_in_sync s -> step e s = Normal s' -> storage_in_sync s'.
Proof.
  intros Hinv H. destruct e; cbn [step] in H.
  - simplify_eq. revert Hinv. apply storage_in_sync_ext.
    unfold setMode. by repeat case_match.
  - simplify_eq. revert Hinv. apply storage_in_sync_ext.
    unfold setMode. by repeat case_match.
  - revert Hinv. apply storage_in_sync_ext.
    unfold handleMapClick, closeLoop, finishRoute, addSpot, openForm,
      addRoutePoint in H.
    repeat case_match; by simplify_eq.
  - simplify_eq. revert Hinv. apply storage_in_sync_ext.
    unfold handleDoubleClick, finishRoute, openForm. by repeat case_match.
  - simplify_eq. revert Hinv. apply storage_in_sync_ext.
    unfold handleKeydown, cancelDrawing, finishRoute, openForm, setMode.
    by repeat case_match.
  - simplify_eq. revert Hinv. by apply storage_in_sync_ext.
  - apply handleFormSubmit_inversion in H as (log & layer & data & -> & _ & Hser & _).
    intros data' [= <-]. exact Hser.
  - revert Hinv. apply storage_in_sync_ext. unfold handleLogHover in H.
    repeat case_match; simplify_eq; try done. by eapply animateRoute_storageView.
  - simplify_eq. revert Hinv. apply storage_in_sync_ext. unfold handleLogLeave.
    repeat case_match; try done.
    by rewrite resetLayerStyle_storageView, stopRouteAnimation_storageView.
  - revert Hinv. apply storage_in_sync_ext. by eapply handleLogClick_storageView.
  - unfold confirmDelete in H.
    destruct (pendingDeleteId s) as [logId|]; [|by simplify_eq].
    destruct (negb (truthy (Some logId))); [by simplify_eq|].
    unfold saveToLocalStorage in H.
    match type of H with context [mapM entry_toJSON ?ls] =>
      destruct (mapM entry_toJSON ls) as [data|] eqn:Hser
    end; run; [|done].
    injection H as <-. intros data' [= <-]. exact Hser.
  - simplify_eq. revert Hinv. by apply storage_in_sync_ext.
  - simplify_eq. revert Hinv. apply storage_in_sync_ext.
    apply deselectRoute_storageView.
Qed.


End StoredCopy.


(** ** A repeated point *)

Section RepeatedPoint.
Context {M : Math}.

(** X16. On a host with the values ECMAScript fixes and a finite cosine, the
    distance from a point with finite coordinates to itself is [0], and
    appending the last point of a path once more, as the second click of
    a double click does, adds a segment of length [0] to the total. *)
Theorem repeated_point_has_no_length (p : coord) :
  MathSpecialValues M ->
  is_finite p.1 = true -> is_finite p.2 = true ->
  is_finite (Math_cos (p.1 * Math_PI / 180) * Math_cos (p.1 * Math_PI / 180)) = true ->
  haversineDistance p p = 0 /\
  forall p0 rest,
    List.last rest p0 = p ->
    calculateTotalDistance ((p0 :: rest) ++ [p])
    = calculateTotalDistance (p0 :: rest) + 0.
Proof.
  intros Hhost Hlat Hlng Hcos.
  assert (Hself : haversineDistance p p = 0).
  { unfold haversineDistance. cbv zeta.
    rewrite (sub_self _ Hlat), (sub_self _ Hlng).
    change (0 * Math_PI / 180 / 2) with 0.
    rewrite (sin_pos_zero M Hhost), (pow2_pos_zero M Hhost).
    destruct (mul_zero_r _ Hcos) as [sg Hzero].
    rewrite (add_zero_signed _ sg Hzero).
    change (sqrt 0) with 0. change (sqrt (1 - 0)) with 1.
    rewrite (atan2_zero_one M Hhost). reflexivity. }
  split; [exact Hself|].
  intros p0 rest Hlast. rewrite calculateTotalDistance_snoc, Hlast. by rewrite Hself.
Qed.

End RepeatedPoint.

Lemma repeated_point_has_no_length_witness :
  haversineDistance (M := RefMath.host) (28.6, 77.2) (28.6, 77.2) = 0 /\
  calculateTotalDistance (M := RefMath.host) [(28.5, 77.1); (28.6, 77.2); (28.6, 77.2)]
  = calculateTotalDistance (M := RefMath.host) [(28.5, 77.1); (28.6, 77.2)] + 0.
Proof.
  destruct (repeated_point_has_no_length (M := RefMath.host) (28.6, 77.2)
              RefMath_special_values eq_refl eq_refl eq_refl) as [Hself Hpath].
  split; [exact Hself|].
  exact (Hpath (28.5, 77.1) [(28.6, 77.2)] eq_refl).
Defined.

(** ** Clicking the map *)

Section MapClick.
Context {M : Math} {D : DateHost}.

Lemma running_session_inv (s : App) : running s -> session_inv s.
Proof.
  induction 1 as [loaded|e s s' _ IH Hstep|logId frameId shown style s _ IH _ _].
  - apply startApp_inv.
  - by eapply step_inv.
  - revert IH. by apply session_inv_ext.
Qed.

(** X2. In every state the application goes through, a click on the map
    never throws: when the loop is closed there is a first point to copy
    and a polyline to update.  The click leaves the stored entries as they
    are. *)
Theorem map_click_never_throws (point : coord) (s : App) :
  running s ->
  exists s', handleMapClick point s = Normal s' /\ logs s' = logs s.
Proof.
  intros Hrun. destruct (running_session_inv s Hrun) as [_ Hpoly].
  assert (Hok : exists s', handleMapClick point s = Normal s').
  { unfold handleMapClick.
    destruct (negb (isDrawing s)); [by eexists|].
    destruct (mode s); try by eexists.
    destruct (2 <=? length (routePoints s))%nat eqn:Hlen; [|by eexists].
    destruct (_ <? _); [|by eexists].
    apply Nat.leb_le in Hlen. destruct (Hpoly Hlen) as [polyline Hline].
    unfold closeLoop. destruct (routePoints s) as [|p0 rest]; [cbn in Hlen; lia|].
    fields. rewrite Hline. by eexists. }
  destruct Hok as [s' Hs']. exists s'. split; [exact Hs'|].
  by eapply handleMapClick_logs.
Qed.

End MapClick.

Lemma map_click_never_throws_witness :
  running (M := RefMath.host) (D := RefDate.host) twoPointSession /\
  exists s',
    handleMapClick (M := RefMath.host) (0.00002, 0.00002) twoPointSession
    = Normal s' /\ logs s' = logs twoPointSession.
Proof.
  assert (Hrun : running (M := RefMath.host) (D := RefDate.host) twoPointSession)
    by exact (reachable_running _ twoPointSession_reachable).
  split; [exact Hrun|].
  exact (map_click_never_throws (M := RefMath.host) (D := RefDate.host)
           (0.00002, 0.00002) twoPointSession Hrun).
Defined.

(** ** From the first click to the stored route *)

Section DrawAndStore.
Context {M : Math} {D : DateHost}.

Lemma steps_app (events events' : list Event) (s : App) :
  steps (events ++ events') s = s' ← steps events s; steps events' s'.
Proof.
  revert s. induction events as [|e events IH]; intros s; [reflexivity|].
  cbn [app steps]. destruct (step e s) as [s1|err]; run; [apply IH|reflexivity].
Qed.

Lemma steps_cons (e : Event) (events : list Event) (s s1 : App) :
  step e s = Normal s1 -> steps (e :: events) s = steps events s1.
Proof. cbn [steps]. by intros ->. Qed.

Lemma addRoutePoints_session (points : list coord) (s : App) :
  mode (addRoutePoints points s) = mode s /\
  isDrawing (addRoutePoints points s) = isDrawing s /\
  routePoints (addRoutePoints points s) = routePoints s ++ points /\
  logs (addRoutePoints points s) = logs s /\
  drawnLayers (addRoutePoints points s) = drawnLayers s.
Proof.
  induction points as [|p points IH] using rev_ind.
  - unfold addRoutePoints. cbn [foldl]. by rewrite app_nil_r.
  - rewrite addRoutePoints_snoc. destruct IH as (Hm & Hd & Hp & Hl & Hy).
    rewrite addRoutePoint_mode, addRoutePoint_points, addRoutePoint_logs.
    rewrite Hm, Hp, Hl, app_assoc. repeat split; try done.
    + unfold addRoutePoint. by case_match.
    + unfold addRoutePoint. by case_match.
Qed.

(** Clicks that do not come back to the first point each append a
    point. *)
Lemma clicks_add_points (points : list coord) (s : App) :
  mode s = ModeRoute -> isDrawing s = true -> routePoints s = [] ->
  (forall i p, (2 <= i)%nat -> points !! i = Some p ->
     (haversineDistance p (points !!! 0%nat) <? 0.05) = false) ->
  steps (MapClicked <$> points) s = Normal (addRoutePoints points s).
Proof.
  intros Hmode Hdrawing Hempty.
  induction points as [|p points IH] using rev_ind; intros Hfar; [reflexivity|].
  rewrite fmap_app, steps_app, IH, addRoutePoints_snoc.
  2:{ intros i q Hi Hq. specialize (Hfar i q Hi).
      rewrite lookup_app_l in Hfar by (by eapply lookup_lt_Some).
      destruct points as [|p0 rest]; [done|]. by apply Hfar. }
  run. cbn [fmap list_fmap steps step].
  destruct (addRoutePoints_session points s) as (Hm & Hd & Hp & _).
  unfold handleMapClick. rewrite Hd, Hdrawing, Hm, Hmode, Hp, Hempty. cbn [negb app].
  destruct (2 <=? length points)%nat eqn:Hlen; [|reflexivity].
  apply Nat.leb_le in Hlen.
  specialize (Hfar (length points) p Hlen).
  rewrite lookup_app_r, Nat.sub_diag in Hfar by lia.
  destruct points as [|p0 rest]; [cbn in Hlen; lia|].
  change (((p0 :: rest) ++ [p]) !!! 0%nat) with p0 in Hfar.
  change ((p0 :: rest) !!! 0%nat) with p0.
  by rewrite (Hfar eq_refl).
Qed.

(** X17. From a session at rest in a store whose dates are valid:
    choosing the route mode, clicking at least two points, none of which
    comes back within 50 m of the first, pressing Enter and submitting
    the form never throws, and stores a route whose coordinates are the
    clicked points, in order, and whose distance is the sum of the
    distances between consecutive points.  The route is drawn under its
    identifier, the session is at rest again and the form is closed. *)
Theorem drawn_route_is_stored (points : list coord) (title notes : string)
    (parsed : float) (tDate tNow : Z) (s : App) :
  mode s = ModeNone -> routePoints s = [] ->
  Forall valid_date (logs s) ->
  (2 <= length points)%nat ->
  (forall i p, (2 <= i)%nat -> points !! i = Some p ->
     (haversineDistance p (points !!! 0%nat) <? 0.05) = false) ->
  exists s' r,
    steps ([DrawRouteClicked] ++ (MapClicked <$> points)
           ++ [KeyPressed Enter;
               FormSubmitted title notes parsed tDate tNow]) s = Normal s' /\
    logs s' = logs s ++ [RouteEntry r] /\
    coords (route_log r) = points /\
    distance r = pathLengthKm points /\
    id (route_log r) = make_id tNow /\
    drawnLayers s' !! make_id tNow = Some (Polyline points defaultStyle) /\
    session s' = (ModeNone, false, [], None, 0) /\
    formOpen s' = false.
Proof.
  intros Hmode Hempty Hvalid Hlen Hfar.
  cbn [app]. rewrite (steps_cons _ _ _ (setMode ModeRoute s)) by reflexivity.
  set (s1 := setMode ModeRoute s).
  assert (H1 : mode s1 = ModeRoute /\ isDrawing s1 = true /\ routePoints s1 = []
               /\ logs s1 = logs s /\ drawnLayers s1 = drawnLayers s).
  { subst s1. unfold setMode. rewrite Hmode. by rewrite bool_decide_false. }
  destruct H1 as (Hm1 & Hd1 & Hp1 & Hl1 & Hy1). clearbody s1.
  rewrite steps_app, (clicks_add_points points s1 Hm1 Hd1 Hp1 Hfar).
  change (mbind ?f (Normal ?x)) with (f x). cbv beta.
  destruct (addRoutePoints_session points s1) as (Hm2 & Hd2 & Hp2 & Hl2 & Hy2).
  rewrite Hp1 in Hp2. cbn [app] in Hp2.
  assert (Hfresh : currentDistance (addRoutePoints points s1)
                   = calculateTotalDistance points).
  { clear Hfar Hm2 Hd2 Hp2 Hl2 Hy2.
    induction points as [|p points _] using rev_ind; [cbn in Hlen; lia|].
    rewrite addRoutePoints_snoc. unfold addRoutePoint. fields.
    destruct (addRoutePoints_session points s1) as (_ & _ & Hp & _).
    rewrite Hp, Hp1. cbn [app].
    by rewrite (proj2 (Nat.leb_le _ _) Hlen). }
  set (s2 := addRoutePoints points s1) in *. clearbody s2.
  assert (Henter : step (KeyPressed Enter) s2
                   = Normal (openForm RouteForm
                               (set_mode ModeNone (set_isDrawing false s2)))).
  { cbn [step]. unfold handleKeydown.
    rewrite Hm2, Hm1, bool_decide_true by done. rewrite Hp2.
    rewrite (proj2 (Nat.leb_le _ _) Hlen). cbn [andb].
    unfold finishRoute. rewrite Hp2.
    by rewrite (proj2 (Nat.ltb_ge _ _) Hlen). }
  rewrite (steps_cons _ _ _ _ Henter). cbn [steps step].
  match goal with |- context [handleFormSubmit _ _ _ _ _ ?t] => set (s3 := t) end.
  assert (Hvalid3 : Forall valid_date (logs s3)).
  { subst s3. unfold openForm. fields. by rewrite Hl2, Hl1. }
  assert (Hshown : distanceFieldShown s3 = true) by reflexivity.
  assert (Hp3 : routePoints s3 = points) by exact Hp2.
  destruct (handleFormSubmit_normal title notes parsed tDate tNow s3 Hvalid3)
    as (log & layer & data & -> & _ & Hid & _ & Hroute & _).
  { rewrite Hp3. intros ->. cbn [length] in Hlen. lia. }
  destruct (Hroute Hshown) as [Hlog Hlayer]. clear Hroute.
  assert (Hc3 : currentDistance s3 = calculateTotalDistance points) by exact Hfresh.
  assert (Hl3 : logs s3 = logs s)
    by (subst s3; unfold openForm; fields; by rewrite Hl2, Hl1).
  assert (Hm3 : mode s3 = ModeNone) by reflexivity.
  assert (Hd3 : isDrawing s3 = false) by reflexivity.
  rewrite Hp3, Hc3 in Hlog. rewrite Hp3 in Hlayer. subst log layer. clearbody s3.
  eexists _, _. split; [reflexivity|].
  unfold closeForm, clearDrawingState. fields.
  split; [by rewrite Hl3|].
  split; [reflexivity|]. split; [apply calculateTotalDistance_pathLength|].
  split; [reflexivity|]. split; [apply lookup_insert_eq|].
  split; [|reflexivity].
  unfold session. fields. by rewrite Hm3, Hd3.
Qed.

(** X18. From a state that is not in the spot mode, in a store whose
    dates are valid: choosing the spot mode, clicking the map and
    submitting the form never throws, and stores a spot at the clicked
    point, drawn as a marker under its identifier.  The session is at rest
    afterwards and the form is closed. *)
Theorem marked_spot_is_stored (point : coord) (title notes : string)
    (parsed : float) (tDate tNow : Z) (s : App) :
  mode s <> ModeSpot ->
  Forall valid_date (logs s) ->
  exists s',
    steps [MarkSpotClicked; MapClicked point;
           FormSubmitted title notes parsed tDate tNow] s = Normal s' /\
    logs s'
    = logs s ++ [SpotEntry
                   (Spot_new tDate tNow point
                      (Some (if bool_decide (title = EmptyString)
                             then "Untitled"%string else title))
                      (Some notes))] /\
    drawnLayers s' !! make_id tNow = Some (Marker point) /\
    session s' = (ModeNone, false, [], None, 0) /\
    formOpen s' = false.
Proof.
  intros Hmode Hvalid.
  assert (Hspot1 : step MarkSpotClicked s
                   = Normal (set_isDrawing true (set_mode ModeSpot s))).
  { cbn [step]. unfold setMode. by rewrite bool_decide_false. }
  rewrite (steps_cons _ _ _ _ Hspot1).
  set (s1 := set_isDrawing true (set_mode ModeSpot s)).
  assert (Hclick : step (MapClicked point) s1 = Normal (addSpot point s1)).
  { cbn [step]. unfold handleMapClick. subst s1. by fields. }
  rewrite (steps_cons _ _ _ _ Hclick). cbn [steps step].
  set (s3 := addSpot point s1).
  assert (H3 : logs s3 = logs s /\ distanceFieldShown s3 = false /\
               routePoints s3 = [point] /\ mode s3 = ModeNone /\
               isDrawing s3 = false).
  { subst s3 s1. unfold addSpot, openForm. by fields. }
  destruct H3 as (Hl3 & Hshown & Hpoints & Hm3 & Hd3). clearbody s3. clear Hclick.
  assert (Hvalid3 : Forall valid_date (logs s3)) by (by rewrite Hl3).
  destruct (handleFormSubmit_normal title notes parsed tDate tNow s3 Hvalid3)
    as (log & layer & data & -> & _ & Hid & _ & _ & Hspot).
  { by rewrite Hpoints. }
  destruct (Hspot point [] Hshown Hpoints) as [-> ->].
  eexists. split; [reflexivity|].
  unfold closeForm, clearDrawingState. fields.
  split; [by rewrite Hl3|]. split; [apply lookup_insert_eq|].
  split; [|reflexivity].
  unfold session. fields. by rewrite Hm3, Hd3.
Qed.

End DrawAndStore.

Lemma drawn_route_is_stored_witness :
  Forall valid_date (logs exampleStore) /\
  (haversineDistance (M := RefMath.host) (0.001, 0.001) (0, 0) <? 0.05) = false /\
  exists s' r,
    steps (M := RefMath.host) (D := RefDate.host)
      ([DrawRouteClicked]
       ++ (MapClicked <$> [(0, 0); (0, 0.001); (0.001, 0.001)])
       ++ [KeyPressed Enter;
           FormSubmitted "Loop" EmptyString 12 1800000000000 1800000000000])
      exampleStore = Normal s' /\
    logs s' = logs exampleStore ++ [RouteEntry r] /\
    coords (route_log r) = [(0, 0); (0, 0.001); (0.001, 0.001)] /\
    distance r
    = pathLengthKm (M := RefMath.host) [(0, 0); (0, 0.001); (0.001, 0.001)].
Proof.
  assert (Hvalid : Forall valid_date (logs exampleStore)).
  { change (logs exampleStore) with [RouteEntry exampleRoute; SpotEntry exampleSpot].
    repeat constructor; eexists; reflexivity. }
  assert (Hthird : (haversineDistance (M := RefMath.host) (0.001, 0.001) (0, 0)
                    <? 0.05) = false)
    by (vm_compute; reflexivity).
  assert (Hfar : forall i p, (2 <= i)%nat ->
            [(0, 0); (0, 0.001); (0.001, 0.001)] !! i = Some p ->
            (haversineDistance (M := RefMath.host) p
               ([(0, 0); (0, 0.001); (0.001, 0.001)] !!! 0%nat) <? 0.05) = false).
  { intros i p Hi Hp. destruct i as [|[|[|i]]]; [lia|lia| |discriminate Hp].
    injection Hp as <-. exact Hthird. }
  assert (Hlen : Nat.le 2 (length [(0, 0); (0, 0.001); (0.001, 0.001)]))
    by (cbn [length]; lia).
  split; [exact Hvalid|]. split; [exact Hthird|].
  destruct (drawn_route_is_stored (M := RefMath.host) (D := RefDate.host)
              [(0, 0); (0, 0.001); (0.001, 0.001)] "Loop" EmptyString 12
              1800000000000 1800000000000 exampleStore eq_refl eq_refl
              Hvalid Hlen Hfar)
    as (s' & r & Hsteps & Hlogs & Hcoords & Hdist & _).
  exists s', r. exact (conj Hsteps (conj Hlogs (conj Hcoords Hdist))).
Defined.

Lemma marked_spot_is_stored_witness :
  Forall valid_date (logs exampleStore) /\
  exists s',
    steps (M := RefMath.host) (D := RefDate.host)
      [MarkSpotClicked; MapClicked (28.62, 77.21);
       FormSubmitted "Lake" "quiet" 0 1800000000000 1800000000000]
      exampleStore = Normal s' /\
    logs s'
    = logs exampleStore
      ++ [SpotEntry (Spot_new 1800000000000 1800000000000 (28.62, 77.21)
                       (Some "Lake"%string) (Some "quiet"%string))] /\
    drawnLayers s' !! make_id 1800000000000 = Some (Marker (28.62, 77.21)).
Proof.
  assert (Hvalid : Forall valid_date (logs exampleStore)).
  { change (logs exampleStore) with [RouteEntry exampleRoute; SpotEntry exampleSpot].
    repeat constructor; eexists; reflexivity. }
  assert (Hmode : mode exampleStore <> ModeSpot)
    by (intros Heq; vm_compute in Heq; discriminate Heq).
  split; [exact Hvalid|].
  destruct (marked_spot_is_stored (M := RefMath.host) (D := RefDate.host)
              (28.62, 77.21) "Lake" "quiet" 0 1800000000000 1800000000000
              exampleStore Hmode Hvalid)
    as (s' & Hsteps & Hlogs & Hlayer & _).
  exists s'. exact (conj Hsteps (conj Hlogs Hlayer)).
Defined.

(** ** Reading a record and writing it back *)

Section ReadThenWrite.
Context {D : DateHost}.

(** X19. A record whose date the host reads, deserialized at any reading
    of the clock and serialized again, comes back with its identifier,
    coordinates and distance, with the date as the host prints it, with
    the type of its class, and with the defaults of the constructor in
    place of a missing title, duration, notes or description. *)
Theorem fromJSON_then_toJSON_normalises (tDate tNow t : Z) :
  (forall data : RouteJSON,
     Date_parse (json_date (rj_log data)) = Some t ->
     Route_toJSON (Route_fromJSON tDate tNow data)
     = Normal {| rj_log := {| json_id := json_id (rj_log data);
                              json_date := Date_toISOString t;
                              json_coords := json_coords (rj_log data) |};
                 rj_type := "route";
                 rj_title := Some (default "Untitled Route"%string (rj_title data));
                 rj_distance := rj_distance data;
                 rj_duration := Some (default 0 (rj_duration data));
                 rj_notes := Some (default EmptyString (rj_notes data)) |}) /\
  (forall data : SpotJSON,
     Date_parse (json_date (sj_log data)) = Some t ->
     Spot_toJSON (Spot_fromJSON tDate tNow data)
     = Normal {| sj_log := {| json_id := json_id (sj_log data);
                              json_date := Date_toISOString t;
                              json_coords := json_coords (sj_log data) |};
                 sj_type := "spot";
                 sj_title := Some (default "Untitled Spot"%string (sj_title data));
                 sj_description
                 := Some (default EmptyString (sj_description data)) |}).
Proof.
  split.
  - intros data Hparse.
    unfold Route_toJSON, Route_fromJSON, Route_restoreFromJSON, Log_toJSON,
      Log_restoreFromJSON, Date_of_string.
    cbn [route_log date id coords]. rewrite Hparse. reflexivity.
  - intros data Hparse.
    unfold Spot_toJSON, Spot_fromJSON, Spot_restoreFromJSON, Log_toJSON,
      Log_restoreFromJSON, Date_of_string.
    cbn [spot_log date id coords]. rewrite Hparse. reflexivity.
Qed.

End ReadThenWrite.

Lemma fromJSON_then_toJSON_normalises_witness :
  RefDate.parse "2023-11-14T22:13:20.123Z" = Some 1700000000123%Z /\
  Spot_toJSON (D := RefDate.host)
    (Spot_fromJSON (D := RefDate.host) 1800000000000 1800000000000
       {| sj_log := {| json_id := "0000000123";
                       json_date := "2023-11-14T22:13:20.123Z";
                       json_coords := (28.6139, 77.209) |};
          sj_type := "spot"; sj_title := None; sj_description := None |})
  = Normal {| sj_log := {| json_id := "0000000123";
                           json_date := RefDate.toISOString 1700000000123;
                           json_coords := (28.6139, 77.209) |};
              sj_type := "spot"; sj_title := Some "Untitled Spot"%string;
              sj_description := Some EmptyString |}.
Proof.
  assert (Hparse : RefDate.parse "2023-11-14T22:13:20.123Z" = Some 1700000000123%Z)
    by (vm_compute; reflexivity).
  split; [exact Hparse|].
  exact (proj2 (fromJSON_then_toJSON_normalises (D := RefDate.host)
                  1800000000000 1800000000000 1700000000123)
           {| sj_log := {| json_id := "0000000123";
                           json_date := "2023-11-14T22:13:20.123Z";
                           json_coords := (28.6139, 77.209) |};
              sj_type := "spot"; sj_title := None; sj_description := None |}
           Hparse).
Defined.
